(** * Gmail JSONL to .eml ingestion: a shallow embedding and its properties

    The development follows the TypeScript sources
    - [src/emailExtractor.ts]  ([base64UrlDecode], [findHeader], [findPart],
      [extractEmail], [toEml]),
    - [src/jsonlReader.ts]     ([listJsonlKeys], [readJsonlFromS3]),
    - [src/processor.ts]       ([exists], [processMessages]).

    Conventions of the embedding.
    - A JavaScript string is a [string] holding the UTF-8 bytes of its text.
      On ASCII text (base64 data, media types, header names, keys) this is
      the string itself, character by character.  Where the sources look at
      the UTF-16 code units of a string ([length], the base64 reader of
      [Buffer.from]) these are read off the bytes by [Js.units].
    - A value returned by [JSON.parse] is a [JsonValue]: [null], or a value
      whose properties are read the way the interfaces declare them.
    - An optional property ([x?: T], [null], [undefined]) is an [option].
      Truthiness of an optional string is "present and not empty".
    - A function that can throw returns an [Exc]; a function that cannot
      returns a plain value.
    - The S3 bucket, the console and the counters are threaded explicitly
      through [processMessages] as a [RunState]. *)

From Stdlib Require Import String Ascii List NArith ZArith QArith Lia Bool.
From stdpp Require Import base option list gmap strings.

Local Open Scope string_scope.
Local Open Scope list_scope.

(** ** JavaScript strings *)

Module Js.

Definition CR : ascii := "013"%char.
Definition LF : ascii := "010"%char.
Definition CRLF : string := String CR (String LF EmptyString).

(** [String.prototype.toLowerCase] on the ASCII letters; characters
    outside ASCII are left as they are.  This is the function itself on
    ASCII text.  It also gives the right answer wherever the sources use
    it: they compare the lowered string with one of the ASCII literals
    "multipart/", "text/html", "text/plain", "html", ".jsonl", "subject",
    "from", "to", "cc", "bcc" and "date", and no character outside ASCII
    lowers to a letter of these literals other than [k] (KELVIN SIGN),
    which none of them contains. *)
Definition lowerChar (c : ascii) : ascii :=
  let n := N_of_ascii c in
  if ((65 <=? n) && (n <=? 90))%N then ascii_of_N (n + 32) else c.

Fixpoint toLowerCase (s : string) : string :=
  match s with
  | EmptyString => EmptyString
  | String c s' => String (lowerChar c) (toLowerCase s')
  end.

Definition startsWith (s p : string) : bool := String.prefix p s.

Definition endsWith (s p : string) : bool :=
  String.prefix (String.rev p) (String.rev s).

Fixpoint includes (s p : string) : bool :=
  String.prefix p s ||
  match s with
  | EmptyString => false
  | String _ s' => includes s' p
  end.

(** [s.replace(/c/g, d)] for a one-character pattern. *)
Fixpoint replaceAll (c d : ascii) (s : string) : string :=
  match s with
  | EmptyString => EmptyString
  | String x s' => String (if Ascii.eqb x c then d else x) (replaceAll c d s')
  end.

Fixpoint repeat (s : string) (n : nat) : string :=
  match n with
  | O => EmptyString
  | S n' => s +:+ repeat s n'
  end.

(** [Array.prototype.join]. *)
Fixpoint join (sep : string) (l : list string) : string :=
  match l with
  | [] => EmptyString
  | [x] => x
  | x :: l' => x +:+ sep +:+ join sep l'
  end.

(** The characters removed by [String.prototype.trim] are the WhiteSpace
    and LineTerminator code points of ECMAScript: TAB, LF, VT, FF, CR,
    SPACE, U+00A0, U+FEFF and the other space separators U+1680, U+2000 to
    U+200A, U+202F, U+205F, U+3000, and U+2028, U+2029.  They are
    recognised by the one, two or three bytes of their UTF-8 encoding. *)
Definition isWhite1 (c : ascii) : bool :=
  let n := N_of_ascii c in (((9 <=? n) && (n <=? 13)) || (n =? 32))%N.

Definition isWhite2 (c d : ascii) : bool :=
  ((N_of_ascii c =? 194) && (N_of_ascii d =? 160))%N.          (* U+00A0 *)

Definition isWhite3 (c d e : ascii) : bool :=
  let c := N_of_ascii c in
  let d := N_of_ascii d in
  let e := N_of_ascii e in
  (((c =? 225) && (d =? 154) && (e =? 128))                     (* U+1680 *)
   || ((c =? 226) && (d =? 128)
       && (((128 <=? e) && (e <=? 138))                         (* U+2000-200A *)
           || (e =? 168) || (e =? 169)                          (* U+2028, U+2029 *)
           || (e =? 175)))                                      (* U+202F *)
   || ((c =? 226) && (d =? 129) && (e =? 159))                  (* U+205F *)
   || ((c =? 227) && (d =? 128) && (e =? 128))                  (* U+3000 *)
   || ((c =? 239) && (d =? 187) && (e =? 191)))%N.              (* U+FEFF *)

(** Removes the characters recognised by [w1], [w2] and [w3] from the
    front of a string. *)
Fixpoint strip (w1 : ascii -> bool) (w2 : ascii -> ascii -> bool)
  (w3 : ascii -> ascii -> ascii -> bool) (s : string) : string :=
  match s with
  | EmptyString => EmptyString
  | String c s1 =>
      if w1 c then strip w1 w2 w3 s1
      else
        match s1 with
        | EmptyString => s
        | String d s2 =>
            if w2 c d then strip w1 w2 w3 s2
            else
              match s2 with
              | EmptyString => s
              | String e s3 => if w3 c d e then strip w1 w2 w3 s3 else s
              end
        end
  end.

Definition trimStart (s : string) : string := strip isWhite1 isWhite2 isWhite3 s.

(** The same from the back: the reversed string is read, so the bytes of a
    character come last byte first. *)
Definition trimEnd (s : string) : string :=
  String.rev
    (strip isWhite1 (fun c d => isWhite2 d c) (fun c d e => isWhite3 e d c)
       (String.rev s)).

Definition trim (s : string) : string := trimEnd (trimStart s).

(** The UTF-16 code units of a string, read off its UTF-8 bytes: one unit
    for a character of one, two or three bytes, a surrogate pair for a
    character of four.  A byte that does not begin a character is passed
    over; the text of a JavaScript string has none. *)
Definition continuation (c : ascii) : bool :=
  ((128 <=? N_of_ascii c) && (N_of_ascii c <=? 191))%N.

Definition low6 (c : ascii) : N := (N_of_ascii c mod 64)%N.

Fixpoint units (s : string) : list N :=
  match s with
  | EmptyString => []
  | String b0 t0 =>
      let n0 := N_of_ascii b0 in
      if (n0 <? 128)%N then n0 :: units t0
      else if ((192 <=? n0) && (n0 <=? 223))%N then
        match t0 with
        | String b1 t1 =>
            if continuation b1
            then ((n0 mod 32) * 64 + low6 b1)%N :: units t1
            else units t0
        | _ => units t0
        end
      else if ((224 <=? n0) && (n0 <=? 239))%N then
        match t0 with
        | String b1 (String b2 t2) =>
            if continuation b1 && continuation b2
            then ((n0 mod 16) * 4096 + low6 b1 * 64 + low6 b2)%N :: units t2
            else units t0
        | _ => units t0
        end
      else if ((240 <=? n0) && (n0 <=? 247))%N then
        match t0 with
        | String b1 (String b2 (String b3 t3)) =>
            if continuation b1 && continuation b2 && continuation b3
            then
              let u := ((n0 mod 8) * 262144 + low6 b1 * 4096 + low6 b2 * 64
                        + low6 b3 - 65536)%N in
              (55296 + u / 1024)%N :: (56320 + u mod 1024)%N :: units t3
            else units t0
        | _ => units t0
        end
      else units t0
  end.

(** [s.length] *)
Definition length (s : string) : nat := List.length (units s).


Definition isEmpty (s : string) : bool :=
  match s with EmptyString => true | _ => false end.

(** Truthiness of [string | null | undefined]. *)
Definition truthy (o : option string) : option string :=
  match o with
  | Some s => if isEmpty s then None else Some s
  | None => None
  end.

(** [a || b] on optional strings. *)
Definition or (a b : option string) : option string :=
  match truthy a with
  | Some s => Some s
  | None => b
  end.

End Js.

(** ** Errors *)

Record JsError := mkError {
  err_name : string;
  err_message : string;
  err_status : option Z        (* [$metadata.httpStatusCode] of an SDK error *)
}.

Definition Error (message : string) : JsError := mkError "Error" message None.

Definition ReferenceError (ident : string) : JsError :=
  mkError "ReferenceError" (ident +:+ " is not defined") None.

Definition TypeError (message : string) : JsError :=
  mkError "TypeError" message None.

Inductive Exc (A : Type) : Type :=
| Ok (a : A)
| Throw (e : JsError).
Arguments Ok {A} a.
Arguments Throw {A} e.

Definition bindExc {A B} (m : Exc A) (k : A -> Exc B) : Exc B :=
  match m with
  | Ok a => k a
  | Throw e => Throw e
  end.

Notation "x <-! m ; k" := (bindExc m (fun x => k))
  (at level 100, m at next level, right associativity, only parsing).

(** ** emailExtractor.ts: data *)

Record GmailHeader := mkHeader {
  h_name : option string;
  h_value : string
}.

Record GmailBody := mkBody {
  b_size : option Z;
  b_data : option string
}.

#[local] Unset Elimination Schemes.

Inductive GmailPart := mkPart {
  p_mimeType : option string;
  p_filename : option string;
  p_headers : option (list GmailHeader);
  p_body : option GmailBody;
  p_parts : option (list GmailPart)
}.

(** [message] and [messageId] are not in the interface; [processMessages]
    reads them through [(record as any)]. *)
Inductive GmailMessage := mkMessage {
  m_id : option string;
  m_data : option GmailMessage;
  m_airbyte_data : option GmailMessage;
  m_threadId : option string;
  m_payload : option GmailPart;
  m_snippet : option string;
  m_message : option GmailMessage;
  m_messageId : option string
}.

#[local] Set Elimination Schemes.

(** What [JSON.parse] returns, as far as the sources tell values apart:
    [null], on which reading a property throws, or a value whose
    properties are read through the [GmailMessage] interface.  A number, a
    string, a boolean and an array have none of the properties the sources
    read: they are the record without any property. *)
Inductive JsonValue :=
| JNull
| JRecord (record : GmailMessage).

Inductive BodyMime := TextHtml | TextPlain.

Definition bodyMimeString (b : BodyMime) : string :=
  match b with
  | TextHtml => "text/html"
  | TextPlain => "text/plain"
  end.

Record ExtractedEmail := mkEmail {
  messageId : string;
  subject : option string;
  from : option string;
  to : option string;
  cc : option string;
  bcc : option string;
  date : option string;
  bodyMime : BodyMime;
  body : string;
  snippet : option string
}.

(** The [{ mime, data }] object returned by [findPart]. *)
Record Found := mkFound {
  mime : string;
  fdata : string
}.

(** ** emailExtractor.ts: the decoder

    [Buffer.from(s, "base64")] and [buf.toString("utf8")] are Node's.  Both
    are total.  The first reads the string one UTF-16 code unit at a time
    and keeps the low byte of each; it accepts the standard and the
    URL-safe alphabet, passes over every other byte and stops at the first
    ['=']; a trailing group of two or three characters gives one or two
    bytes, a single trailing character gives none.  The second replaces
    every maximal ill-formed subsequence by U+FFFD. *)

Module Buffer.

Definition unbase64 (c : ascii) : option N :=
  let n := N_of_ascii c in
  if ((65 <=? n) && (n <=? 90))%N then Some (n - 65)%N          (* A-Z *)
  else if ((97 <=? n) && (n <=? 122))%N then Some (n - 71)%N    (* a-z *)
  else if ((48 <=? n) && (n <=? 57))%N then Some (n + 4)%N      (* 0-9 *)
  else if ((n =? 43) || (n =? 45))%N then Some 62%N             (* + - *)
  else if ((n =? 47) || (n =? 95))%N then Some 63%N             (* / _ *)
  else None.

Definition lowByte (u : N) : ascii := ascii_of_N (u mod 256).

Fixpoint sextetsOf (cs : list ascii) : list N :=
  match cs with
  | [] => []
  | c :: cs' =>
      if Ascii.eqb c "="%char then []
      else match unbase64 c with
           | Some v => v :: sextetsOf cs'
           | None => sextetsOf cs'
           end
  end.

Definition sextets (s : string) : list N :=
  sextetsOf (map lowByte (Js.units s)).

Definition byte1 (a b : N) : ascii := ascii_of_N ((a * 4 + b / 16) mod 256).
Definition byte2 (b c : N) : ascii := ascii_of_N ((b * 16 + c / 4) mod 256).
Definition byte3 (c d : N) : ascii := ascii_of_N ((c * 64 + d) mod 256).

Fixpoint bytes (vs : list N) : list ascii :=
  match vs with
  | a :: b :: c :: d :: rest =>
      byte1 a b :: byte2 b c :: byte3 c d :: bytes rest
  | [a; b; c] => [byte1 a b; byte2 b c]
  | [a; b] => [byte1 a b]
  | _ => []
  end.

(** [Buffer.from(s, "base64")] *)
Definition from_base64 (s : string) : list ascii := bytes (sextets s).

(** U+FFFD REPLACEMENT CHARACTER, in UTF-8. *)
Definition U_FFFD : list ascii := ["239"%char; "191"%char; "189"%char].

Definition within (lo hi : N) (c : ascii) : bool :=
  ((lo <=? N_of_ascii c) && (N_of_ascii c <=? hi))%N.

(** Bounds of the second byte of a sequence led by [b0]. *)
Definition second_lo (b0 : ascii) : N :=
  if (N_of_ascii b0 =? 224)%N then 160%N
  else if (N_of_ascii b0 =? 240)%N then 144%N else 128%N.
Definition second_hi (b0 : ascii) : N :=
  if (N_of_ascii b0 =? 237)%N then 159%N
  else if (N_of_ascii b0 =? 244)%N then 143%N else 191%N.

(** [buf.toString("utf8")], as the UTF-8 bytes of the resulting text. *)
Fixpoint utf8_text (bs : list ascii) : list ascii :=
  match bs with
  | [] => []
  | b0 :: t0 =>
      if within 0 127 b0 then b0 :: utf8_text t0
      else if within 194 223 b0 then
        match t0 with
        | [] => U_FFFD
        | b1 :: t1 =>
            if within 128 191 b1 then b0 :: b1 :: utf8_text t1
            else U_FFFD ++ utf8_text t0
        end
      else if within 224 239 b0 then
        match t0 with
        | [] => U_FFFD
        | b1 :: t1 =>
            if within (second_lo b0) (second_hi b0) b1 then
              match t1 with
              | [] => U_FFFD
              | b2 :: t2 =>
                  if within 128 191 b2 then b0 :: b1 :: b2 :: utf8_text t2
                  else U_FFFD ++ utf8_text t1
              end
            else U_FFFD ++ utf8_text t0
        end
      else if within 240 244 b0 then
        match t0 with
        | [] => U_FFFD
        | b1 :: t1 =>
            if within (second_lo b0) (second_hi b0) b1 then
              match t1 with
              | [] => U_FFFD
              | b2 :: t2 =>
                  if within 128 191 b2 then
                    match t2 with
                    | [] => U_FFFD
                    | b3 :: t3 =>
                        if within 128 191 b3
                        then b0 :: b1 :: b2 :: b3 :: utf8_text t3
                        else U_FFFD ++ utf8_text t2
                    end
                  else U_FFFD ++ utf8_text t1
              end
            else U_FFFD ++ utf8_text t0
        end
      else U_FFFD ++ utf8_text t0
  end.

Definition toString_utf8 (bs : list ascii) : string :=
  string_of_list_ascii (utf8_text bs).

End Buffer.

Definition base64UrlDecode (data : string) : string :=
  let padded :=
    Js.replaceAll "_" "/" (Js.replaceAll "-" "+" data)
    +:+ Js.repeat "=" ((4 - (Js.length data mod 4)) mod 4) in
  Buffer.toString_utf8 (Buffer.from_base64 padded).

(** ** emailExtractor.ts: headers and body part *)

Definition headerMatches (name : string) (hh : GmailHeader) : bool :=
  match h_name hh with
  | Some n => String.eqb (Js.toLowerCase n) (Js.toLowerCase name)
  | None => false
  end.

Definition findHeader (headers : option (list GmailHeader)) (name : string)
  : option string :=
  match headers with
  | Some hs => h_value <$> List.find (headerMatches name) hs
  | None => None
  end.

(** [part.body?.data] when truthy. *)
Definition bodyData (p : GmailPart) : option string :=
  match p_body p with
  | Some b => Js.truthy (b_data b)
  | None => None
  end.

Definition isMultipart (p : GmailPart) : bool :=
  match p_mimeType p with
  | Some m => Js.startsWith (Js.toLowerCase m) "multipart/"
  | None => false
  end.

(** The predicate of [parts.find(...)]: media type exactly [ty] after
    lowering, and body data present. *)
Definition childIs (ty : string) (p : GmailPart) : bool :=
  String.eqb (Js.toLowerCase (default EmptyString (Js.truthy (p_mimeType p)))) ty
  && bool_decide (is_Some (bodyData p)).

Definition findChild (ty : string) (parts : list GmailPart) : option Found :=
  match List.find (childIs ty) parts with
  | Some c => mkFound ty <$> bodyData c
  | None => None
  end.

(** [for (const p of parts) { const found = f(p); if (found) return found; }
    return null;] *)
Definition firstFound {A B} (f : A -> option B) : list A -> option B :=
  fix recurse (ps : list A) : option B :=
    match ps with
    | [] => None
    | p :: ps' =>
        match f p with
        | Some found => Some found
        | None => recurse ps'
        end
    end.

Fixpoint findPartIn (part : GmailPart) (preferHtml : bool) : option Found :=
  match part with
  | mkPart mimeType _ _ _ parts_opt =>
      match (if isMultipart part then None else bodyData part) with
      | Some d => Some (mkFound (default "text/plain" (Js.truthy mimeType)) d)
      | None =>
          let parts := default [] parts_opt in
          match (if preferHtml then findChild "text/html" parts else None) with
          | Some f => Some f
          | None =>
              match findChild "text/plain" parts with
              | Some f => Some f
              | None =>
                  (* Recurse; [parts] is [[]] when the property is absent *)
                  match parts_opt with
                  | Some ps => firstFound (fun p => findPartIn p preferHtml) ps
                  | None => None
                  end
              end
          end
      end
  end.

Definition findPart (part : option GmailPart) (preferHtml : bool)
  : option Found :=
  match part with
  | None => None
  | Some p => findPartIn p preferHtml
  end.

(** ** emailExtractor.ts: extraction and serialization *)

(** [msg._airbyte_data ?? msg.data ?? msg] *)
Definition coreOf (msg : GmailMessage) : GmailMessage :=
  match m_airbyte_data msg with
  | Some c => c
  | None => match m_data msg with
            | Some c => c
            | None => msg
            end
  end.

Definition extractEmail (msg : GmailMessage) : Exc ExtractedEmail :=
  let core := coreOf msg in
  match Js.truthy (m_id core) with
  | None => Throw (Error "Missing message id")
  | Some core_id =>
      let headers :=
        match m_payload core with
        | Some pl => Some (default [] (p_headers pl))
        | None => Some []
        end in
      match findPart (m_payload core) true with
      | None => Throw (Error "No body found")
      | Some part =>
          let decoded := base64UrlDecode (fdata part) in
          let bodyMime :=
            if Js.includes (Js.toLowerCase (mime part)) "html"
            then TextHtml else TextPlain in
          let get := fun name => findHeader headers name in
          Ok {| messageId := core_id;
                subject := get "Subject";
                from := get "From";
                to := get "To";
                cc := get "Cc";
                bcc := get "Bcc";
                date := get "Date";
                bodyMime := bodyMime;
                body := decoded;
                snippet := m_snippet msg |}
      end
  end.

(** [cond ? `Name: ${cond}` : null] *)
Definition headerLine (name : string) (v : option string) : option string :=
  match Js.truthy v with
  | Some s => Some (name +:+ ": " +:+ s)
  | None => None
  end.

(** [.filter(Boolean)] on an array of [string | null]: drops [null] and
    the empty string. *)
Definition filterBoolean (l : list (option string)) : list string :=
  omap Js.truthy l.

Definition toEml (email : ExtractedEmail) : string :=
  let headers :=
    Js.join Js.CRLF (filterBoolean [
      headerLine "From" (from email);
      headerLine "To" (to email);
      headerLine "Cc" (cc email);
      headerLine "Bcc" (bcc email);
      headerLine "Subject" (subject email);
      headerLine "Date" (date email);
      Some ("Message-ID: <" +:+ messageId email +:+ "@gmail>");
      Some "MIME-Version: 1.0";
      Some ("Content-Type: " +:+ bodyMimeString (bodyMime email)
            +:+ "; charset=" +:+ String "034"%char ("UTF-8" +:+ String "034"%char EmptyString))
    ]) in
  headers +:+ Js.CRLF +:+ Js.CRLF +:+ body email.

(** ** config.ts and the S3 client *)

Record AppConfig := mkConfig {
  region : string;
  bucket : string;
  airbytePrefix : string;
  messagesPrefix : string;
  detailsPrefix : string;
  rawFilesPrefix : string;
  workspaceId : string;
  connectorId : string
}.

(** The bucket named by [config.bucket], seen through the four commands the
    sources send.  Listing and reading are fixed for a run: the run only
    writes keys ending in ".eml", which [listJsonlKeys] never returns.
    [s3_headFault] and [s3_putFault] give the keys at which [HeadObject]
    and [PutObject] are rejected (access denied, network fault) and the
    error raised.  The objects probed and written are in the [RunState]. *)
Record S3Client := mkS3 {
  s3_list : string -> Exc (list (list (option string)));
    (* ListObjectsV2: the [Key]s of [Contents], page by page *)
  s3_lines : string -> Exc (list string);
    (* GetObject and readline: the lines of the object *)
  s3_headFault : string -> option JsError;
  s3_putFault : string -> option JsError
}.

(** What a run does to the outside: commands sent for single objects, and
    console lines, each with the values interpolated into it.  [WarnError]
    is the line of the [catch] block of [processMessages]; no run writes
    it, see [catchBlock]. *)
Inductive Event :=
| SendGet (key : string)
| SendHead (key : string)
| SendPut (key body contentType : string)
| LogFound (n : nat) (prefix : string)
| LogReading (key : string)
| WarnParse (key message : string)
| WarnMissingId (key : string)
| LogSkipping (targetKey : string)
| LogPreview (workspace_id connector_id path : string)
| LogWouldCreate (targetKey : string)
| LogCreated (targetKey : string)
| WarnError (msgId key message : string).

Record Counters := mkCounters {
  processed : nat;
  created : nat;
  skipped : nat;
  failed : nat
}.

Record RunState := mkState {
  counters : Counters;
  objects : gmap string string;
  trace : list Event
}.

Definition emit (ev : Event) (st : RunState) : RunState :=
  mkState (counters st) (objects st) (trace st ++ [ev]).

Definition count (f : Counters -> Counters) (st : RunState) : RunState :=
  mkState (f (counters st)) (objects st) (trace st).

Definition incProcessed (c : Counters) : Counters :=
  mkCounters (processed c + 1) (created c) (skipped c) (failed c).
Definition incCreated (c : Counters) : Counters :=
  mkCounters (processed c) (created c + 1) (skipped c) (failed c).
Definition incSkipped (c : Counters) : Counters :=
  mkCounters (processed c) (created c) (skipped c + 1) (failed c).
Definition incFailed (c : Counters) : Counters :=
  mkCounters (processed c) (created c) (skipped c) (failed c + 1).

Definition NotFound : JsError := mkError "NotFound" "NotFound" (Some 404%Z).

(** [s3.send(new HeadObjectCommand(...))] *)
Definition headObject (s3 : S3Client) (key : string) (st : RunState)
  : Exc unit * RunState :=
  let st := emit (SendHead key) st in
  match s3_headFault s3 key with
  | Some e => (Throw e, st)
  | None =>
      match objects st !! key with
      | Some _ => (Ok tt, st)
      | None => (Throw NotFound, st)
      end
  end.

(** [s3.send(new PutObjectCommand(...))] *)
Definition putObject (s3 : S3Client) (key body contentType : string)
  (st : RunState) : Exc unit * RunState :=
  let st := emit (SendPut key body contentType) st in
  match s3_putFault s3 key with
  | Some e => (Throw e, st)
  | None => (Ok tt, mkState (counters st) (<[key := body]> (objects st)) (trace st))
  end.

(** ** jsonlReader.ts *)

Definition isJsonlKey (k : option string) : option string :=
  match Js.truthy k with
  | Some key => if Js.endsWith (Js.toLowerCase key) ".jsonl" then Some key else None
  | None => None
  end.

Definition listJsonlKeys (s3 : S3Client) (prefix : string) : Exc (list string) :=
  pages <-! s3_list s3 prefix;
  Ok (omap isJsonlKey (concat pages)).

(** What the generator does between two requests of its consumer: it
    yields a record, or it writes a warning and goes on. *)
Inductive GenItem :=
| Yield (value : JsonValue)
| Warned (ev : Event).

Section Reader.

(** [JSON.parse], with the cast [as T]. *)
Variable JSON_parse : string -> Exc JsonValue.

(** One turn of [for await (const line of rl)]. *)
Definition readLine (key line : string) : list GenItem :=
  let trimmed := Js.trim line in
  if Js.isEmpty trimmed then []
  else match JSON_parse trimmed with
       | Ok value => [Yield value]
       | Throw err => [Warned (WarnParse key (err_message err))]
       end.

(** The body of the generator after [GetObject], run on the lines. *)
Definition readLines (key : string) (lines : list string) : list GenItem :=
  concat (map (readLine key) lines).

Definition readJsonlFromS3 (s3 : S3Client) (key : string)
  : Exc (list GenItem) :=
  lines <-! s3_lines s3 key;
  Ok (readLines key lines).

(** The records a consumer receives when it takes the whole stream, and
    the warnings written meanwhile. *)
Definition yielded (items : list GenItem) : list JsonValue :=
  omap (fun i => match i with Yield v => Some v | Warned _ => None end) items.

Definition warnings (items : list GenItem) : list Event :=
  omap (fun i => match i with Yield _ => None | Warned ev => Some ev end) items.

End Reader.

(** ** processor.ts *)

(** A JavaScript number, as far as [counters.processed >= limit] needs:
    every finite double is a rational, and the comparison is exact. *)
Inductive JsNumber :=
| Finite (q : Q)
| Infinity
| NegInfinity
| NaN.

(** [n >= l] for a counter [n]. *)
Definition geNumber (n : nat) (l : JsNumber) : bool :=
  match l with
  | Finite q => Qle_bool q (inject_Z (Z.of_nat n))
  | Infinity => false
  | NegInfinity => true
  | NaN => false
  end.

Record ProcessorOptions := mkOptions {
  limit : option JsNumber;
  dryRun : option bool
}.

(** [exists] *)
Definition exists_ (s3 : S3Client) (key : string) (st : RunState)
  : Exc bool * RunState :=
  match headObject s3 key st with
  | (Ok _, st) => (Ok true, st)
  | (Throw err, st) =>
      if bool_decide (err_status err = Some 404%Z) then (Ok false, st)
      else if String.eqb (err_name err) "NotFound" then (Ok false, st)
      else (Throw err, st)
  end.

(** [record.id || _airbyte_data?.id || data?.id || message?.id || messageId
    || null] *)
Definition msgIdOf (record : GmailMessage) : option string :=
  Js.or (m_id record)
    (Js.or (m_airbyte_data record ≫= m_id)
       (Js.or (m_data record ≫= m_id)
          (Js.or (m_message record ≫= m_id)
             (Js.or (m_messageId record) None)))).

Definition targetKeyOf (config : AppConfig) (msgId : string) : string :=
  rawFilesPrefix config +:+ workspaceId config +:+ "/gmail/" +:+ msgId +:+ ".eml".

(** How a block of the loop body ends. *)
Inductive Signal :=
| Next                       (* end of the block, or [continue] *)
| Return                     (* [return counters] *)
| Raise (e : JsError).       (* an exception leaves the block *)

Section Processor.

Variable s3 : S3Client.
Variable config : AppConfig.
Variable limit_ : JsNumber.
Variable dryRun_ : bool.

(** The [try] block of the loop body. *)
Definition tryBlock (key : string) (record : GmailMessage) (st : RunState)
  : Signal * RunState :=
  if geNumber (processed (counters st)) limit_ then (Return, st)
  else
    let st := count incProcessed st in
    match Js.truthy (msgIdOf record) with
    | None =>
        let st := count incFailed st in
        (Next, emit (WarnMissingId key) st)
    | Some msgId =>
        let targetKey := targetKeyOf config msgId in
        match exists_ s3 targetKey st with
        | (Throw e, st) => (Raise e, st)
        | (Ok true, st) =>
            let st := count incSkipped st in
            (Next, emit (LogSkipping targetKey) st)
        | (Ok false, st) =>
            match extractEmail record with
            | Throw e => (Raise e, st)
            | Ok email =>
                let eml := toEml email in
                let st :=
                  emit (LogPreview (workspaceId config) (connectorId config)
                          targetKey) st in
                if dryRun_ then (Next, emit (LogWouldCreate targetKey) st)
                else
                  match putObject s3 targetKey eml "message/rfc822" st with
                  | (Throw e, st) => (Raise e, st)
                  | (Ok _, st) =>
                      let st := count incCreated st in
                      (Next, emit (LogCreated targetKey) st)
                  end
            end
        end
    end.

(** The [catch (err)] block.  Its second statement interpolates [msgId],
    which is declared with [const] inside the [try] block and is not in
    scope in the handler (nor anywhere around it): evaluating the template
    raises a ReferenceError before [console.warn] is called, and that
    error leaves the handler. *)
Definition catchBlock (key : string) (err : JsError) (st : RunState)
  : Signal * RunState :=
  let st := count incFailed st in
  (Raise (ReferenceError "msgId"), st).

(** The body of [for await (const record of ...)], for a record that is
    not [null]. *)
Definition processRecord (key : string) (record : GmailMessage) (st : RunState)
  : Signal * RunState :=
  match tryBlock key record st with
  | (Raise err, st) => catchBlock key err st
  | other => other
  end.

(** The [try] block when the record is [null]: past the limit check and
    the count, [record.id] throws. *)
Definition tryBlockNull (st : RunState) : Signal * RunState :=
  if geNumber (processed (counters st)) limit_ then (Return, st)
  else
    let st := count incProcessed st in
    (Raise (TypeError "Cannot read properties of null (reading 'id')"), st).

(** The body of the loop, for any value the generator yields. *)
Definition processValue (key : string) (value : JsonValue) (st : RunState)
  : Signal * RunState :=
  match value with
  | JRecord record => processRecord key record st
  | JNull =>
      match tryBlockNull st with
      | (Raise err, st) => catchBlock key err st
      | other => other
      end
  end.

(** [for await (const record of readJsonlFromS3(...))], on what the
    generator still has to do. *)
Fixpoint forRecords (key : string) (items : list GenItem) (st : RunState)
  : Signal * RunState :=
  match items with
  | [] => (Next, st)
  | Warned ev :: rest => forRecords key rest (emit ev st)
  | Yield value :: rest =>
      match processValue key value st with
      | (Next, st) => forRecords key rest st
      | other => other
      end
  end.

Variable JSON_parse : string -> Exc JsonValue.

(** [for (const key of keys)] *)
Fixpoint forKeys (keys : list string) (st : RunState) : Signal * RunState :=
  match keys with
  | [] => (Next, st)
  | key :: rest =>
      let st := emit (LogReading key) st in
      let st := emit (SendGet key) st in
      match readJsonlFromS3 JSON_parse s3 key with
      | Throw e => (Raise e, st)
      | Ok items =>
          match forRecords key items st with
          | (Next, st) => forKeys rest st
          | other => other
          end
      end
  end.

End Processor.

Definition newCounters : Counters := mkCounters 0 0 0 0.

(** [processMessages], started on a bucket holding [objects0].  The result
    is the value the promise resolves to, or the error it rejects with,
    and the state the run leaves behind. *)
Definition processMessages (JSON_parse : string -> Exc JsonValue)
  (s3 : S3Client) (config : AppConfig) (opts : ProcessorOptions)
  (objects0 : gmap string string) : Exc Counters * RunState :=
  let st := mkState newCounters objects0 [] in
  let limit := default Infinity (limit opts) in
  let dryRun := default false (dryRun opts) in
  match listJsonlKeys s3 (detailsPrefix config) with
  | Throw e => (Throw e, st)
  | Ok keys =>
      let st := emit (LogFound (length keys) (detailsPrefix config)) st in
      match forKeys s3 config limit dryRun JSON_parse keys st with
      | (Raise e, st) => (Throw e, st)
      | (_, st) => (Ok (counters st), st)
      end
  end.

(** ** Reference definitions used in the statements *)

(** The header lines of an optional field as the serializer's description
    has them: one line [Name: value] when the field is present and not
    empty, none otherwise. *)
Definition presentHeader (name : string) (v : option string) : list string :=
  match v with
  | Some s => if Js.isEmpty s then [] else [name +:+ ": " +:+ s]
  | None => []
  end.

Definition quote : string := String "034"%char EmptyString.

(** The UTF-8 encoding of a code point of the basic multilingual plane. *)
Definition utf8Of (u : N) : string :=
  if (u <? 128)%N then String (ascii_of_N u) EmptyString
  else if (u <? 2048)%N then
    String (ascii_of_N (192 + u / 64))
      (String (ascii_of_N (128 + u mod 64)) EmptyString)
  else
    String (ascii_of_N (224 + u / 4096))
      (String (ascii_of_N (128 + (u / 64) mod 64))
         (String (ascii_of_N (128 + u mod 64)) EmptyString)).

(** The code points that ECMAScript calls WhiteSpace or LineTerminator:
    TAB, LF, VT, FF, CR, SPACE, NO-BREAK SPACE, OGHAM SPACE MARK, EN QUAD
    to HAIR SPACE, LINE SEPARATOR, PARAGRAPH SEPARATOR, NARROW NO-BREAK
    SPACE, MEDIUM MATHEMATICAL SPACE, IDEOGRAPHIC SPACE and ZERO WIDTH
    NO-BREAK SPACE (the byte order mark). *)
Definition whiteCodePoints : list N :=
  [ 9; 10; 11; 12; 13; 32; 160; 5760;
    8192; 8193; 8194; 8195; 8196; 8197; 8198; 8199; 8200; 8201; 8202;
    8232; 8233; 8239; 8287; 12288; 65279 ]%N.

Definition whiteSpace : list string := map utf8Of whiteCodePoints.

(** Text made of the given pieces only. *)
Inductive madeOf (pieces : list string) : string -> Prop :=
| made_nil : madeOf pieces EmptyString
| made_cons w s : In w pieces -> madeOf pieces s -> madeOf pieces (w +:+ s).

(** A line that is blank or holds white space only. *)
Definition whiteOnly (line : string) : Prop := madeOf whiteSpace line.

(** [core] is [line] without the white space around it: white space only
    was taken from both ends, and none is left at either end. *)
Definition strippedOf (line core : string) : Prop :=
  (forall w t, In w whiteSpace -> core <> w +:+ t /\ core <> t +:+ w) /\
  exists pre post,
    line = pre +:+ core +:+ post /\ whiteOnly pre /\ whiteOnly post.

Section ReaderReference.

Variable JSON_parse : string -> Exc JsonValue.

(** The records of a file, line by line: blank lines give nothing, a line
    that parses gives its record, a line that does not gives nothing. *)
Fixpoint recordsOfLines (lines : list string) : list JsonValue :=
  match lines with
  | [] => []
  | line :: rest =>
      if Js.isEmpty (Js.trim line) then recordsOfLines rest
      else match JSON_parse (Js.trim line) with
           | Ok record => record :: recordsOfLines rest
           | Throw _ => recordsOfLines rest
           end
  end.

(** One warning naming the file for each line that is not blank and does
    not parse. *)
Fixpoint warningsOfLines (key : string) (lines : list string) : list Event :=
  match lines with
  | [] => []
  | line :: rest =>
      if Js.isEmpty (Js.trim line) then warningsOfLines key rest
      else match JSON_parse (Js.trim line) with
           | Ok _ => warningsOfLines key rest
           | Throw err => WarnParse key (err_message err) :: warningsOfLines key rest
           end
  end.

End ReaderReference.

(** The URL-safe alphabet of RFC 4648, section 5. *)
Definition urlSafeValue (c : ascii) : option N :=
  let n := N_of_ascii c in
  if ((65 <=? n) && (n <=? 90))%N then Some (n - 65)%N
  else if ((97 <=? n) && (n <=? 122))%N then Some (n - 71)%N
  else if ((48 <=? n) && (n <=? 57))%N then Some (n + 4)%N
  else if (n =? 45)%N then Some 62%N
  else if (n =? 95)%N then Some 63%N
  else None.

Fixpoint urlSafeSextets (s : string) : option (list N) :=
  match s with
  | EmptyString => Some []
  | String c s' =>
      match urlSafeValue c, urlSafeSextets s' with
      | Some v, Some vs => Some (v :: vs)
      | _, _ => None
      end
  end.

(** Text that does not start in the middle of a character. *)
Definition cleanStart (t : string) : Prop :=
  match t with
  | String c _ => Js.continuation c = false
  | EmptyString => True
  end.

(** Well-formed UTF-8 byte sequences (Unicode, table 3-7). *)
Fixpoint wellFormedUtf8 (bs : list ascii) : bool :=
  match bs with
  | [] => true
  | b0 :: t0 =>
      if Buffer.within 0 127 b0 then wellFormedUtf8 t0
      else if Buffer.within 194 223 b0 then
        match t0 with
        | b1 :: t1 => Buffer.within 128 191 b1 && wellFormedUtf8 t1
        | _ => false
        end
      else if Buffer.within 224 239 b0 then
        match t0 with
        | b1 :: b2 :: t2 =>
            Buffer.within (Buffer.second_lo b0) (Buffer.second_hi b0) b1
            && Buffer.within 128 191 b2 && wellFormedUtf8 t2
        | _ => false
        end
      else if Buffer.within 240 244 b0 then
        match t0 with
        | b1 :: b2 :: b3 :: t3 =>
            Buffer.within (Buffer.second_lo b0) (Buffer.second_hi b0) b1
            && Buffer.within 128 191 b2 && Buffer.within 128 191 b3
            && wellFormedUtf8 t3
        | _ => false
        end
      else false
  end.


(** The body data that makes a part a leaf match: the part is not of the
    multipart family and carries inline data. *)
Definition leafMatch (part : GmailPart) : option string :=
  if isMultipart part then None else bodyData part.

(** [part.parts || []] *)
Definition children (part : GmailPart) : list GmailPart :=
  default [] (p_parts part).

(** The conditions of body part selection, read off the properties of a
    part: it carries the inline body data [d]; its media type is of the
    multipart family, whatever its case; its media type is [ty], whatever
    its case, and it carries the data [d]. *)
Definition ownData (p : GmailPart) (d : string) : Prop :=
  exists b, p_body p = Some b /\ b_data b = Some d /\ d <> EmptyString.




(** The state after a successful [PutObject] of [body] at [key]. *)
Definition stored (key body : string) (st : RunState) : RunState :=
  mkState (counters st) (<[key := body]> (objects st))
          (trace st ++ [SendPut key body "message/rfc822"]).

(** The commands of a trace that write an object. *)
Definition isPut (ev : Event) : bool :=
  match ev with SendPut _ _ _ => true | _ => false end.

Definition puts (t : list Event) : list Event := List.filter isPut t.


(** The bound that a finite limit [q] puts on [processed]. *)
Definition withinLimit (q : Q) (c : Counters) : Prop :=
  processed c = 0 \/ (inject_Z (Z.of_nat (processed c) - 1) < q)%Q.



(** ** Sample data *)

Module Sample.

Definition cfg : AppConfig :=
  mkConfig "us-east-1" "bkt" "raw/" "raw/messages/" "raw/messages_details/"
           "raw/raw-files/" "ws1" "conn1".

Definition textPart (ty data : string) : GmailPart :=
  mkPart (Some ty) None None (Some (mkBody None (Some data))) None.

Definition plainMessage (id : string) : GmailMessage :=
  mkMessage (Some id) None None None
    (Some (mkPart (Some "multipart/alternative") None
             (Some [mkHeader (Some "Subject") "Hi"]) None
             (Some [textPart "text/plain" "aGVsbG8"])))
    None None None.

(** An id and nothing else: extraction finds no body. *)
Definition bareMessage (id : string) : GmailMessage :=
  mkMessage (Some id) None None None None None None None.


(** A body whose bytes (a single 0xFF) are not UTF-8. *)
Definition binaryMessage (id : string) : GmailMessage :=
  mkMessage (Some id) None None None (Some (textPart "text/plain" "_w"))
    None None None.

(** A stand-in for [JSON.parse] on the lines of the sample files. *)
Definition parse (line : string) : Exc JsonValue :=
  if String.eqb line "{m1}" then Ok (JRecord (plainMessage "m1"))
  else if String.eqb line "{m2}" then Ok (JRecord (plainMessage "m2"))
  else if String.eqb line "{m3}" then Ok (JRecord (plainMessage "m3"))
  else if String.eqb line "{bare}" then Ok (JRecord (bareMessage "b1"))
  else if String.eqb line "{bin}" then Ok (JRecord (binaryMessage "x1"))
  else if String.eqb line "null" then Ok JNull
  else Throw (mkError "SyntaxError" "Unexpected token" None).

Definition file : string := "raw/messages_details/a.jsonl".

(** A bucket with one record file of the given lines, and no fault. *)
Definition s3 (lines : list string) : S3Client :=
  mkS3 (fun _ => Ok [[Some file; Some "raw/messages_details/notes.txt"]])
       (fun key => if String.eqb key file then Ok lines
                   else Throw (mkError "NoSuchKey" "NoSuchKey" (Some 404%Z)))
       (fun _ => None) (fun _ => None).

Definition state0 : RunState := mkState newCounters ∅ [].

Definition htmlAfterPlain : GmailPart :=
  mkPart (Some "multipart/alternative") None None None
    (Some [textPart "text/plain" "cGxhaW4"; textPart "TEXT/HTML" "PGI-aGk8L2I-"]).


(** A message with every kind of optional field: present, empty, absent. *)
Definition fullEmail : ExtractedEmail :=
  mkEmail "m1" (Some "Hi") (Some "a@x.org") (Some "b@y.org") (Some EmptyString)
    None (Some "Mon, 1 Jan 2024 10:00:00 +0000") TextHtml "<b>hi</b>" None.

End Sample.

(** ** config.ts: loading *)

(** [process.env] *)
Definition Env := gmap string string.

(** [required] *)
Definition required (env : Env) (name : string) : Exc string :=
  match Js.truthy (env !! name) with
  | Some v => Ok v
  | None => Throw (Error ("Missing required env var " +:+ name))
  end.

(** [process.env.NAME || fallback] *)
Definition envOr (env : Env) (name fallback : string) : string :=
  default fallback (Js.truthy (env !! name)).

Definition loadConfig (env : Env) : Exc AppConfig :=
  let airbytePrefix := envOr env "AIRBYTE_S3_PREFIX" "raw/" in
  match Js.truthy (env !! "AIRBYTE_WORKSPACE_ID") with
  | None => Throw (Error "Missing AIRBYTE_WORKSPACE_ID")
  | Some workspaceId =>
      match Js.truthy (env !! "AIRBYTE_CONNECTION_ID") with
      | None => Throw (Error "Missing AIRBYTE_CONNECTION_ID")
      | Some connectorId =>
          region <-! required env "AWS_REGION";
          bucket <-! required env "AIRBYTE_S3_BUCKET";
          Ok {| region := region;
                bucket := bucket;
                airbytePrefix := airbytePrefix;
                messagesPrefix :=
                  envOr env "MESSAGES_PREFIX" (airbytePrefix +:+ "messages/");
                detailsPrefix :=
                  envOr env "DETAILS_PREFIX" (airbytePrefix +:+ "messages_details/");
                rawFilesPrefix :=
                  envOr env "RAW_FILES_PREFIX" (airbytePrefix +:+ "raw-files/");
                workspaceId := workspaceId;
                connectorId := connectorId |}
      end
  end.

(** ** The loop body as a step relation *)

(** What [exists] answers for a key, given the objects of the bucket. *)
Definition probe (s3 : S3Client) (objs : gmap string string) (key : string)
  : Exc bool :=
  match s3_headFault s3 key with
  | Some e =>
      if bool_decide (err_status e = Some 404%Z) then Ok false
      else if String.eqb (err_name e) "NotFound" then Ok false
      else Throw e
  | None =>
      match objs !! key with
      | Some _ => Ok true
      | None => Ok false
      end
  end.

Section Steps.

Variable s3 : S3Client.
Variable config : AppConfig.
Variable limit_ : JsNumber.
Variable dryRun_ : bool.

(** The state after the limit check, the increment of [processed] and the
    probe of the target key of [msgId]. *)
Definition probed (msgId : string) (st : RunState) : RunState :=
  emit (SendHead (targetKeyOf config msgId)) (count incProcessed st).

Definition previewed (msgId : string) (st : RunState) : RunState :=
  emit (LogPreview (workspaceId config) (connectorId config)
          (targetKeyOf config msgId)) (probed msgId st).

(** The eight ways through one turn of the loop body: the signal it ends
    with and the state it leaves. *)
Inductive recordStep (key : string) (record : GmailMessage) (st : RunState)
  : Signal -> RunState -> Prop :=
| step_limit :
    geNumber (processed (counters st)) limit_ = true ->
    recordStep key record st Return st
| step_missing_id :
    geNumber (processed (counters st)) limit_ = false ->
    Js.truthy (msgIdOf record) = None ->
    recordStep key record st Next
      (emit (WarnMissingId key) (count incFailed (count incProcessed st)))
| step_probe_error msgId e :
    geNumber (processed (counters st)) limit_ = false ->
    Js.truthy (msgIdOf record) = Some msgId ->
    probe s3 (objects st) (targetKeyOf config msgId) = Throw e ->
    recordStep key record st (Raise (ReferenceError "msgId"))
      (count incFailed (probed msgId st))
| step_skipped msgId :
    geNumber (processed (counters st)) limit_ = false ->
    Js.truthy (msgIdOf record) = Some msgId ->
    probe s3 (objects st) (targetKeyOf config msgId) = Ok true ->
    recordStep key record st Next
      (emit (LogSkipping (targetKeyOf config msgId))
         (count incSkipped (probed msgId st)))
| step_extract_error msgId e :
    geNumber (processed (counters st)) limit_ = false ->
    Js.truthy (msgIdOf record) = Some msgId ->
    probe s3 (objects st) (targetKeyOf config msgId) = Ok false ->
    extractEmail record = Throw e ->
    recordStep key record st (Raise (ReferenceError "msgId"))
      (count incFailed (probed msgId st))
| step_would_create msgId email :
    geNumber (processed (counters st)) limit_ = false ->
    Js.truthy (msgIdOf record) = Some msgId ->
    probe s3 (objects st) (targetKeyOf config msgId) = Ok false ->
    extractEmail record = Ok email ->
    dryRun_ = true ->
    recordStep key record st Next
      (emit (LogWouldCreate (targetKeyOf config msgId)) (previewed msgId st))
| step_put_error msgId email e :
    geNumber (processed (counters st)) limit_ = false ->
    Js.truthy (msgIdOf record) = Some msgId ->
    probe s3 (objects st) (targetKeyOf config msgId) = Ok false ->
    extractEmail record = Ok email ->
    dryRun_ = false ->
    s3_putFault s3 (targetKeyOf config msgId) = Some e ->
    recordStep key record st (Raise (ReferenceError "msgId"))
      (count incFailed
         (emit (SendPut (targetKeyOf config msgId) (toEml email) "message/rfc822")
            (previewed msgId st)))
| step_created msgId email :
    geNumber (processed (counters st)) limit_ = false ->
    Js.truthy (msgIdOf record) = Some msgId ->
    probe s3 (objects st) (targetKeyOf config msgId) = Ok false ->
    extractEmail record = Ok email ->
    dryRun_ = false ->
    s3_putFault s3 (targetKeyOf config msgId) = None ->
    recordStep key record st Next
      (emit (LogCreated (targetKeyOf config msgId))
         (count incCreated
            (stored (targetKeyOf config msgId) (toEml email)
               (previewed msgId st)))).

(** One turn of the loop body for any value: the steps of a record, and
    the two ways through the turn for [null]. *)
Inductive valueStep (key : string) (st : RunState)
  : JsonValue -> Signal -> RunState -> Prop :=
| step_record record sig st' :
    recordStep key record st sig st' ->
    valueStep key st (JRecord record) sig st'
| step_null_limit :
    geNumber (processed (counters st)) limit_ = true ->
    valueStep key st JNull Return st
| step_null_error :
    geNumber (processed (counters st)) limit_ = false ->
    valueStep key st JNull (Raise (ReferenceError "msgId"))
      (count incFailed (count incProcessed st)).

End Steps.

(** The events written outside the loop body: by [processMessages] itself
    and by the generator. *)
Definition readerEvent (ev : Event) : bool :=
  match ev with
  | SendGet _ | LogFound _ _ | LogReading _ | WarnParse _ _ => true
  | _ => false
  end.

Definition readerItem (i : GenItem) : Prop :=
  match i with
  | Yield _ => True
  | Warned ev => readerEvent ev = true
  end.

(** How many events of a kind a trace holds. *)
Definition occurrences (kind : Event -> bool) (t : list Event) : nat :=
  length (List.filter kind t).

Definition isWouldCreate (ev : Event) : bool :=
  match ev with LogWouldCreate _ => true | _ => false end.
Definition isCreated (ev : Event) : bool :=
  match ev with LogCreated _ => true | _ => false end.
Definition isSkipping (ev : Event) : bool :=
  match ev with LogSkipping _ => true | _ => false end.
Definition isMissingId (ev : Event) : bool :=
  match ev with WarnMissingId _ => true | _ => false end.

(** A part and all the parts below it, in document order. *)
Fixpoint nodes (part : GmailPart) : list GmailPart :=
  match part with
  | mkPart _ _ _ _ parts_opt =>
      part :: match parts_opt with
              | Some ps => flat_map nodes ps
              | None => []
              end
  end.

(** A store whose probe failures are never "not found" answers: a 404 or
    a NotFound error is only given for a key that has no object. *)
Definition honestProbe (s3 : S3Client) : Prop :=
  forall key e,
    s3_headFault s3 key = Some e ->
    err_status e <> Some 404%Z /\ String.eqb (err_name e) "NotFound" = false.

(** A store without faults. *)
Definition faultless (s3 : S3Client) : Prop :=
  forall key, s3_headFault s3 key = None /\ s3_putFault s3 key = None.

(** How the state of a second run stands to the state of the first run at
    the same record, when the second run starts on the bucket [final] that
    the first one left. *)
Definition rerunOf (final : gmap string string) (st1 st2 : RunState) : Prop :=
  processed (counters st2) = processed (counters st1) /\
  failed (counters st2) = failed (counters st1) /\
  skipped (counters st2) = skipped (counters st1) + created (counters st1) /\
  created (counters st2) = 0 /\
  objects st2 = final /\
  puts (trace st2) = [].

(** [s.replace(/\+/g, "-").replace(/\//g, "_")]: the URL-safe spelling of
    base64 text. *)
Definition toUrlSafe (s : string) : string :=
  Js.replaceAll "/" "_" (Js.replaceAll "+" "-" s).

(** The minimal environment of [loadConfig]. *)
Definition requiredVars : list string :=
  ["AIRBYTE_WORKSPACE_ID"; "AIRBYTE_CONNECTION_ID"; "AWS_REGION"; "AIRBYTE_S3_BUCKET"].

Definition sampleEnv : Env :=
  {[ "AIRBYTE_WORKSPACE_ID" := "ws1"; "AIRBYTE_CONNECTION_ID" := "conn1";
     "AWS_REGION" := "us-east-1"; "AIRBYTE_S3_BUCKET" := "bkt";
     "DETAILS_PREFIX" := EmptyString ]}.

(** A record that only has the [messageId] property. *)
Definition looseMessage : GmailMessage :=
  mkMessage None None None None
    (Some (Sample.textPart "text/plain" "aGVsbG8")) None None (Some "loose1").



(** The records of the listed files, file after file. *)
Definition recordsOfKeys (JSON_parse : string -> Exc JsonValue)
  (s3 : S3Client) (keys : list string) : list JsonValue :=
  flat_map (fun key => match s3_lines s3 key with
                       | Ok lines => recordsOfLines JSON_parse lines
                       | Throw _ => []
                       end) keys.


(** Two states that differ at most in their trace. *)
Definition sameButTrace (st1 st2 : RunState) : Prop :=
  counters st1 = counters st2 /\ objects st1 = objects st2.

(** Two stores that list the same keys, fail alike, and whose record files
    hold the same records. *)
Definition sameRecords (JSON_parse : string -> Exc JsonValue)
  (s3 s3' : S3Client) : Prop :=
  (forall prefix, s3_list s3 prefix = s3_list s3' prefix) /\
  (forall key, s3_headFault s3 key = s3_headFault s3' key) /\
  (forall key, s3_putFault s3 key = s3_putFault s3' key) /\
  (forall key,
      match s3_lines s3 key, s3_lines s3' key with
      | Ok lines, Ok lines' =>
          recordsOfLines JSON_parse lines = recordsOfLines JSON_parse lines'
      | Throw e, Throw e' => e = e'
      | _, _ => False
      end).

(** ** The Airbyte runner: pure helpers *)

Module Runner.

(** [base.replace(/\/+$/, "")]: the leftmost place from which the text is
    one or more slashes up to its end is where the match starts. *)
Fixpoint allSlashes (s : string) : bool :=
  match s with
  | EmptyString => true
  | String c s' => Ascii.eqb c "/" && allSlashes s'
  end.

Fixpoint normalizeBase (base : string) : string :=
  match base with
  | EmptyString => EmptyString
  | String c rest =>
      if allSlashes base then EmptyString else String c (normalizeBase rest)
  end.

(** [s.split(sep)] for a separator of one character. *)
Fixpoint split (sep : ascii) (s : string) : list string :=
  match s with
  | EmptyString => [EmptyString]
  | String c s' =>
      if Ascii.eqb c sep then EmptyString :: split sep s'
      else match split sep s' with
           | seg :: segs => String c seg :: segs
           | [] => [String c EmptyString]
           end
  end.

(** [s.slice(n)] for [0 <= n]. *)
Fixpoint slice (n : nat) (s : string) : string :=
  match n, s with
  | O, _ => s
  | S n', String _ s' => slice n' s'
  | S _, EmptyString => EmptyString
  end.

(** [.filter(Boolean)] on an array of strings. *)
Definition nonEmpty (l : list string) : list string :=
  List.filter (fun s => negb (Js.isEmpty s)) l.

(** [extractRunFolder], with [config.prefix] as a parameter. *)
Definition extractRunFolder (prefix key : string) : option string :=
  let withoutPrefix :=
    if Js.startsWith key prefix then slice (String.length prefix) key else key in
  let parts := nonEmpty (split "/" withoutPrefix) in
  match parts with
  | p :: _ => Js.truthy (Some p)
  | [] => None
  end.

(** An entry of the listing; [lastModified] is the time value of the date
    ([getTime()], a whole number of milliseconds for the valid dates that
    a listing carries). *)
Record S3Entry := mkEntry {
  e_key : string;
  e_size : option Z;
  e_lastModified : option Z;
  e_etag : option string
}.

Record RunBucket := mkBucket {
  rb_entries : list S3Entry;
  rb_newest : Z
}.

(** A [Map] with string keys, in insertion order. *)
Definition FolderMap := list (string * RunBucket).

Fixpoint mapGet (m : FolderMap) (k : string) : option RunBucket :=
  match m with
  | [] => None
  | (k', b) :: m' => if String.eqb k' k then Some b else mapGet m' k
  end.

(** [Map.prototype.set]: a key already present keeps its place. *)
Fixpoint mapSet (m : FolderMap) (k : string) (v : RunBucket) : FolderMap :=
  match m with
  | [] => [(k, v)]
  | (k', b) :: m' =>
      if String.eqb k' k then (k', v) :: m' else (k', b) :: mapSet m' k v
  end.

Definition folderOf (prefix : string) (entry : S3Entry) : string :=
  default "__root__" (extractRunFolder prefix (e_key entry)).

Definition tsOf (entry : S3Entry) : Z := default 0%Z (e_lastModified entry).

(** One turn of the first loop of [filterLatestRun]. *)
Definition addEntry (prefix : string) (byFolder : FolderMap) (entry : S3Entry)
  : FolderMap :=
  let folder := folderOf prefix entry in
  let ts := tsOf entry in
  let bucket := default (mkBucket [] 0%Z) (mapGet byFolder folder) in
  mapSet byFolder folder
    (mkBucket (rb_entries bucket ++ [entry]) (Z.max (rb_newest bucket) ts)).

(** One turn of the second loop: [latestFolder] and [latestTs]. *)
Definition pickStep (acc : option string * Z) (item : string * RunBucket)
  : option string * Z :=
  if (rb_newest (snd item) >? snd acc)%Z
  then (Some (fst item), rb_newest (snd item))
  else acc.

Definition filterLatestRun (latestRunOnly : bool) (prefix : string)
  (entries : list S3Entry) : list S3Entry :=
  if negb latestRunOnly then entries
  else
    let byFolder := fold_left (addEntry prefix) entries [] in
    if (length byFolder =? 0)%nat then []
    else
      let latest := fold_left pickStep byFolder (None, (-1)%Z) in
      match Js.truthy (fst latest) with
      | None => entries
      | Some latestFolder =>
          match mapGet byFolder latestFolder with
          | Some data => rb_entries data
          | None => entries
          end
      end.

(** The newest time value among the entries of a folder, and 0 at least. *)
Definition newestOf (prefix folder : string) (entries : list S3Entry) : Z :=
  fold_left Z.max
    (map tsOf (List.filter (fun e => String.eqb (folderOf prefix e) folder) entries))
    0%Z.

Definition inFolder (prefix folder : string) (e : S3Entry) : bool :=
  String.eqb (folderOf prefix e) folder.

Fixpoint noSlash (s : string) : bool :=
  match s with
  | EmptyString => true
  | String c s' => negb (Ascii.eqb c "/") && noSlash s'
  end.

(** What the map of [filterLatestRun] holds for a folder once the entries
    [seen] have been put in. *)
Definition groupOf (prefix folder : string) (seen : list S3Entry)
  : option RunBucket :=
  match List.filter (inFolder prefix folder) seen with
  | [] => None
  | es => Some (mkBucket es (fold_left Z.max (map tsOf es) 0%Z))
  end.

Definition sampleEntries : list S3Entry :=
  [mkEntry "raw/2024-01-01/a.docx" None (Some 100%Z) None;
   mkEntry "raw/2024-02-01/b.docx" None (Some 300%Z) None;
   mkEntry "raw/2024-01-01/c.docx" None (Some 200%Z) None;
   mkEntry "raw/2024-02-01//d.docx" None None None].

End Runner.

(** * Properties *)

(** ** Strings *)

Lemma append_nil s : EmptyString +:+ s = s.
Proof. reflexivity. Qed.

Lemma append_cons c a b : String c a +:+ b = String c (a +:+ b).
Proof. reflexivity. Qed.

Lemma append_assoc a b c : (a +:+ b) +:+ c = a +:+ (b +:+ c).
Proof. induction a as [|x a IH]; [reflexivity|]. rewrite !append_cons. now rewrite IH. Qed.

Lemma rev_app_append s : forall acc, String.rev_app s acc = String.rev s +:+ acc.
Proof.
  unfold String.rev. induction s as [|x s IH]; intros acc; simpl; [reflexivity|].
  rewrite (IH (String x acc)), (IH (String x EmptyString)), append_assoc.
  reflexivity.
Qed.

Lemma rev_append a b : String.rev (a +:+ b) = String.rev b +:+ String.rev a.
Proof.
  unfold String.rev at 1. revert b.
  induction a as [|x a IH]; intros b.
  - rewrite append_nil. change (String.rev_app b EmptyString) with (String.rev b).
    induction (String.rev b) as [|y r IHr]; [reflexivity|].
    now rewrite append_cons, <- IHr.
  - rewrite append_cons. simpl. rewrite rev_app_append.
    specialize (IH b). unfold String.rev in IH at 1.
    rewrite rev_app_append in IH.
    assert (Hnil : forall s, s +:+ EmptyString = s).
    { intros s. induction s as [|y s IHs]; [reflexivity|].
      now rewrite append_cons, IHs. }
    rewrite Hnil in IH. rewrite IH.
    change (String.rev (String x a)) with (String.rev_app a (String x EmptyString)).
    now rewrite (rev_app_append a), append_assoc.
Qed.

(** ** White space *)

Lemma append_empty_r s : s +:+ EmptyString = s.
Proof. induction s as [|y s IHs]; [reflexivity|]. now rewrite append_cons, IHs. Qed.

Lemma rev_involutive s : String.rev (String.rev s) = s.
Proof.
  induction s as [|c s IH]; [reflexivity|].
  change (String c s) with (String c EmptyString +:+ s) at 1.
  rewrite rev_append, rev_append, IH. reflexivity.
Qed.

Lemma madeOf_app pieces a b :
  madeOf pieces a -> madeOf pieces b -> madeOf pieces (a +:+ b).
Proof.
  intros Ha Hb. induction Ha as [|w s Hin Hs IH]; [exact Hb|].
  rewrite append_assoc. now constructor.
Qed.

Lemma madeOf_rev pieces p :
  madeOf (map String.rev pieces) p -> madeOf pieces (String.rev p).
Proof.
  intros Hp. induction Hp as [|w s Hin Hs IH]; [constructor|].
  rewrite rev_append. apply madeOf_app; [exact IH|].
  apply in_map_iff in Hin as (w0 & <- & Hin0).
  rewrite rev_involutive, <- (append_empty_r w0).
  constructor; [exact Hin0 | constructor].
Qed.

Section Strip.

Variable w1 : ascii -> bool.
Variable w2 : ascii -> ascii -> bool.
Variable w3 : ascii -> ascii -> ascii -> bool.
Variable pieces : list string.

Hypothesis sound1 : forall c, w1 c = true -> In (String c EmptyString) pieces.
Hypothesis sound2 : forall c d,
  w2 c d = true -> In (String c (String d EmptyString)) pieces.
Hypothesis sound3 : forall c d e,
  w3 c d e = true -> In (String c (String d (String e EmptyString))) pieces.
Hypothesis complete : forall w t,
  In w pieces ->
  match w +:+ t with
  | String c s1 =>
      w1 c = true \/
      match s1 with
      | String d s2 =>
          w2 c d = true \/
          match s2 with
          | String e _ => w3 c d e = true
          | EmptyString => False
          end
      | EmptyString => False
      end
  | EmptyString => False
  end.

Lemma strip_bounded n : forall s,
  (String.length s <= n)%nat ->
  exists pre,
    s = pre +:+ Js.strip w1 w2 w3 s /\ madeOf pieces pre /\
    forall w t, In w pieces -> Js.strip w1 w2 w3 s <> w +:+ t.
Proof.
  induction n as [|n IH]; intros s Hlen.
  - destruct s; [|simpl in Hlen; lia].
    exists EmptyString. split; [reflexivity|]. split; [constructor|].
    intros w t Hin Heq. pose proof (complete w t Hin) as Hc.
    simpl in Heq. now rewrite <- Heq in Hc.
  - destruct s as [|c s1].
    { exists EmptyString. split; [reflexivity|]. split; [constructor|].
      intros w t Hin Heq. pose proof (complete w t Hin) as Hc.
      simpl in Heq. now rewrite <- Heq in Hc. }
    simpl in Hlen. simpl Js.strip. destruct (w1 c) eqn:E1.
    { destruct (IH s1) as (pre & Heq & Hm & Hno); [lia|].
      exists (String c EmptyString +:+ pre). split.
      - rewrite append_cons, append_nil, append_cons. now rewrite <- Heq.
      - split; [constructor; auto | exact Hno]. }
    destruct s1 as [|d s2].
    { exists EmptyString. split; [reflexivity|]. split; [constructor|].
      intros w t Hin Heq. pose proof (complete w t Hin) as Hc.
      rewrite <- Heq in Hc. destruct Hc as [Hc|[]]. congruence. }
    simpl in Hlen. destruct (w2 c d) eqn:E2.
    { destruct (IH s2) as (pre & Heq & Hm & Hno); [lia|].
      exists (String c (String d EmptyString) +:+ pre). split.
      - rewrite !append_cons, append_nil. now rewrite <- Heq.
      - split; [constructor; auto | exact Hno]. }
    destruct s2 as [|e s3].
    { exists EmptyString. split; [reflexivity|]. split; [constructor|].
      intros w t Hin Heq. pose proof (complete w t Hin) as Hc.
      rewrite <- Heq in Hc. destruct Hc as [Hc|[Hc|[]]]; congruence. }
    simpl in Hlen. destruct (w3 c d e) eqn:E3.
    { destruct (IH s3) as (pre & Heq & Hm & Hno); [lia|].
      exists (String c (String d (String e EmptyString)) +:+ pre). split.
      - rewrite !append_cons, append_nil. now rewrite <- Heq.
      - split; [constructor; auto | exact Hno]. }
    exists EmptyString. split; [reflexivity|]. split; [constructor|].
    intros w t Hin Heq. pose proof (complete w t Hin) as Hc.
    rewrite <- Heq in Hc. destruct Hc as [Hc|[Hc|Hc]]; congruence.
Qed.

Lemma strip_piece1 c s :
  w1 c = true -> Js.strip w1 w2 w3 (String c s) = Js.strip w1 w2 w3 s.
Proof. intros H. simpl. now rewrite H. Qed.

Lemma strip_piece2 c d s :
  w1 c = false -> w2 c d = true ->
  Js.strip w1 w2 w3 (String c (String d s)) = Js.strip w1 w2 w3 s.
Proof. intros H1 H2. simpl. now rewrite H1, H2. Qed.

Lemma strip_piece3 c d e s :
  w1 c = false -> w2 c d = false -> w3 c d e = true ->
  Js.strip w1 w2 w3 (String c (String d (String e s))) = Js.strip w1 w2 w3 s.
Proof. intros H1 H2 H3. simpl. now rewrite H1, H2, H3. Qed.

End Strip.

Lemma ascii_of_code c n : N_of_ascii c = n -> c = ascii_of_N n.
Proof. intros <-. now rewrite ascii_N_embedding. Qed.

Ltac pick_piece :=
  vm_compute; repeat first [left; reflexivity | right].

Lemma isWhite1_sound c :
  Js.isWhite1 c = true -> In (String c EmptyString) whiteSpace.
Proof.
  intros H.
  destruct c as [[] [] [] [] [] [] [] []]; vm_compute in H; try discriminate H;
    pick_piece.
Qed.

Lemma isWhite2_sound c d :
  Js.isWhite2 c d = true -> In (String c (String d EmptyString)) whiteSpace.
Proof.
  unfold Js.isWhite2. rewrite andb_true_iff, !N.eqb_eq. intros [Hc Hd].
  apply ascii_of_code in Hc, Hd. subst. pick_piece.
Qed.

Lemma isWhite3_sound c d e :
  Js.isWhite3 c d e = true ->
  In (String c (String d (String e EmptyString))) whiteSpace.
Proof.
  unfold Js.isWhite3. cbv zeta.
  repeat rewrite ?orb_true_iff, ?andb_true_iff.
  rewrite ?N.eqb_eq, ?N.leb_le.
  intros H.
  assert (Hcases :
    exists x y z, N_of_ascii c = x /\ N_of_ascii d = y /\ N_of_ascii e = z /\
      In (x, y, z)
        [(225, 154, 128); (226, 128, 128); (226, 128, 129); (226, 128, 130);
         (226, 128, 131); (226, 128, 132); (226, 128, 133); (226, 128, 134);
         (226, 128, 135); (226, 128, 136); (226, 128, 137); (226, 128, 138);
         (226, 128, 168); (226, 128, 169); (226, 128, 175); (226, 129, 159);
         (227, 128, 128); (239, 187, 191)]%N).
  { exists (N_of_ascii c), (N_of_ascii d), (N_of_ascii e).
    repeat split.
    destruct H as [[[[H|H]|H]|H]|H].
    - destruct H as [[-> ->] ->]. simpl; tauto.
    - destruct H as [[-> ->] H].
      rewrite ?N.eqb_eq, ?N.leb_le in H.
      assert (Hz : (N_of_ascii e = 128 \/ N_of_ascii e = 129 \/ N_of_ascii e = 130
                    \/ N_of_ascii e = 131 \/ N_of_ascii e = 132 \/ N_of_ascii e = 133
                    \/ N_of_ascii e = 134 \/ N_of_ascii e = 135 \/ N_of_ascii e = 136
                    \/ N_of_ascii e = 137 \/ N_of_ascii e = 138 \/ N_of_ascii e = 168
                    \/ N_of_ascii e = 169 \/ N_of_ascii e = 175)%N) by lia.
      repeat (destruct Hz as [->|Hz]; [simpl; tauto|]). rewrite Hz. simpl; tauto.
    - destruct H as [[-> ->] ->]. simpl; tauto.
    - destruct H as [[-> ->] ->]. simpl; tauto.
    - destruct H as [[-> ->] ->]. simpl; tauto. }
  destruct Hcases as (x & y & z & Hc & Hd & He & Hin).
  apply ascii_of_code in Hc, Hd, He. subst c d e.
  simpl in Hin.
  repeat (destruct Hin as [[= <- <- <-]|Hin]; [pick_piece|]).
  destruct Hin.
Qed.

Ltac fires :=
  first [ left; reflexivity
        | right; left; reflexivity
        | right; right; reflexivity ].

Lemma whiteSpace_complete w t :
  In w whiteSpace ->
  match w +:+ t with
  | String c s1 =>
      Js.isWhite1 c = true \/
      match s1 with
      | String d s2 =>
          Js.isWhite2 c d = true \/
          match s2 with
          | String e _ => Js.isWhite3 c d e = true
          | EmptyString => False
          end
      | EmptyString => False
      end
  | EmptyString => False
  end.
Proof.
  intros Hin. vm_compute in Hin.
  repeat (destruct Hin as [<-|Hin];
          [rewrite ?append_cons, ?append_nil; fires|]).
  destruct Hin.
Qed.

Lemma whiteSpace_rev_complete w t :
  In w (map String.rev whiteSpace) ->
  match w +:+ t with
  | String c s1 =>
      Js.isWhite1 c = true \/
      match s1 with
      | String d s2 =>
          Js.isWhite2 d c = true \/
          match s2 with
          | String e _ => Js.isWhite3 e d c = true
          | EmptyString => False
          end
      | EmptyString => False
      end
  | EmptyString => False
  end.
Proof.
  intros Hin. vm_compute in Hin.
  repeat (destruct Hin as [<-|Hin];
          [rewrite ?append_cons, ?append_nil; fires|]).
  destruct Hin.
Qed.

Lemma trimStart_spec s :
  exists pre,
    s = pre +:+ Js.trimStart s /\ whiteOnly pre /\
    forall w t, In w whiteSpace -> Js.trimStart s <> w +:+ t.
Proof.
  apply (strip_bounded _ _ _ whiteSpace isWhite1_sound isWhite2_sound
           isWhite3_sound whiteSpace_complete (String.length s)).
  lia.
Qed.

Lemma trimEnd_spec s :
  exists post,
    s = Js.trimEnd s +:+ post /\ whiteOnly post /\
    forall w t, In w whiteSpace -> Js.trimEnd s <> t +:+ w.
Proof.
  assert (H1 : forall c, Js.isWhite1 c = true ->
                 In (String c EmptyString) (map String.rev whiteSpace)).
  { intros c H. apply in_map_iff. exists (String c EmptyString).
    split; [reflexivity | now apply isWhite1_sound]. }
  assert (H2 : forall c d, Js.isWhite2 d c = true ->
                 In (String c (String d EmptyString)) (map String.rev whiteSpace)).
  { intros c d H. apply in_map_iff. exists (String d (String c EmptyString)).
    split; [reflexivity | now apply isWhite2_sound]. }
  assert (H3 : forall c d e, Js.isWhite3 e d c = true ->
                 In (String c (String d (String e EmptyString)))
                    (map String.rev whiteSpace)).
  { intros c d e H. apply in_map_iff.
    exists (String e (String d (String c EmptyString))).
    split; [reflexivity | now apply isWhite3_sound]. }
  destruct (strip_bounded Js.isWhite1 (fun c d => Js.isWhite2 d c)
              (fun c d e => Js.isWhite3 e d c) (map String.rev whiteSpace)
              H1 H2 H3 whiteSpace_rev_complete
              (String.length (String.rev s)) (String.rev s))
    as (pre & Heq & Hm & Hno); [lia|].
  exists (String.rev pre). split; [|split].
  - unfold Js.trimEnd. rewrite <- rev_append, <- Heq.
    now rewrite rev_involutive.
  - now apply madeOf_rev.
  - intros w t Hin Heq'. unfold Js.trimEnd in Heq'.
    apply (Hno (String.rev w) (String.rev t)).
    + now apply in_map.
    + rewrite <- rev_append, <- Heq'. now rewrite rev_involutive.
Qed.

Lemma trim_strippedOf line : strippedOf line (Js.trim line).
Proof.
  destruct (trimStart_spec line) as (pre & Hpre & Hwpre & Hstart).
  destruct (trimEnd_spec (Js.trimStart line)) as (post & Hpost & Hwpost & Hend).
  fold (Js.trim line) in Hpost, Hend.
  split.
  - intros w t Hin. split; [|now apply Hend].
    intros Heq. apply (Hstart w (t +:+ post) Hin).
    now rewrite Hpost, Heq, append_assoc.
  - exists pre, post. split; [|split]; trivial. now rewrite <- Hpost.
Qed.

Lemma trimStart_white s : whiteOnly s -> Js.trimStart s = EmptyString.
Proof.
  intros Hs. induction Hs as [|w s Hin Hs IH]; [reflexivity|].
  vm_compute in Hin. unfold Js.trimStart in *.
  repeat (destruct Hin as [<-|Hin];
          [rewrite ?append_cons, ?append_nil;
           first [ rewrite strip_piece1 by reflexivity
                 | rewrite strip_piece2 by reflexivity
                 | rewrite strip_piece3 by reflexivity ];
           exact IH|]).
  destruct Hin.
Qed.

Lemma trim_blank line :
  Js.isEmpty (Js.trim line) = true <-> whiteOnly line.
Proof.
  split.
  - intros H. destruct (trim_strippedOf line) as [_ (pre & post & Heq & Hp & Hq)].
    destruct (Js.trim line); [|discriminate H].
    rewrite Heq, append_nil. now apply madeOf_app.
  - intros H. unfold Js.trim. now rewrite (trimStart_white line H).
Qed.

(** ** The record stream *)

Section ReaderFacts.

Variable JSON_parse : string -> Exc JsonValue.

Lemma readLines_app key l1 l2 :
  readLines JSON_parse key (l1 ++ l2)
  = readLines JSON_parse key l1 ++ readLines JSON_parse key l2.
Proof. unfold readLines. now rewrite map_app, concat_app. Qed.

Lemma yielded_app i1 i2 : yielded (i1 ++ i2) = yielded i1 ++ yielded i2.
Proof. apply omap_app. Qed.

Lemma warnings_app i1 i2 : warnings (i1 ++ i2) = warnings i1 ++ warnings i2.
Proof. apply omap_app. Qed.

Lemma yielded_readLines key lines :
  yielded (readLines JSON_parse key lines) = recordsOfLines JSON_parse lines.
Proof.
  induction lines as [|line rest IH]; [reflexivity|].
  change (readLines JSON_parse key (line :: rest))
    with (readLine JSON_parse key line ++ readLines JSON_parse key rest).
  rewrite yielded_app, IH. simpl. unfold readLine.
  destruct (Js.isEmpty (Js.trim line)); [reflexivity|].
  destruct (JSON_parse (Js.trim line)); reflexivity.
Qed.

Lemma warnings_readLines key lines :
  warnings (readLines JSON_parse key lines)
  = warningsOfLines JSON_parse key lines.
Proof.
  induction lines as [|line rest IH]; [reflexivity|].
  change (readLines JSON_parse key (line :: rest))
    with (readLine JSON_parse key line ++ readLines JSON_parse key rest).
  rewrite warnings_app, IH. simpl. unfold readLine.
  destruct (Js.isEmpty (Js.trim line)); [reflexivity|].
  destruct (JSON_parse (Js.trim line)); reflexivity.
Qed.

Lemma recordsOfLines_app l1 l2 :
  recordsOfLines JSON_parse (l1 ++ l2)
  = recordsOfLines JSON_parse l1 ++ recordsOfLines JSON_parse l2.
Proof.
  rewrite <- !(yielded_readLines EmptyString), readLines_app.
  apply yielded_app.
Qed.

Lemma warningsOfLines_app key l1 l2 :
  warningsOfLines JSON_parse key (l1 ++ l2)
  = warningsOfLines JSON_parse key l1 ++ warningsOfLines JSON_parse key l2.
Proof.
  rewrite <- !warnings_readLines, readLines_app. apply warnings_app.
Qed.

End ReaderFacts.

(** C9.  For every sequence of lines of a record file, the stream yields
    exactly the records of the lines that are not blank and parse, in line
    order; a line that is not blank and fails to parse writes one warning
    naming the file and is skipped: the records of the lines before and
    after it are all yielded, in order.  A line is blank exactly when it
    is made of white space only, and what is parsed is the line without
    the white space around it. *)
Theorem readJsonlFromS3_stream :
  forall (JSON_parse : string -> Exc JsonValue) (s3 : S3Client)
         (key : string) (lines : list string),
    s3_lines s3 key = Ok lines ->
    (exists items,
      readJsonlFromS3 JSON_parse s3 key = Ok items /\
      yielded items = recordsOfLines JSON_parse lines /\
      warnings items = warningsOfLines JSON_parse key lines /\
      (forall before line after err,
          lines = before ++ line :: after ->
          Js.isEmpty (Js.trim line) = false ->
          JSON_parse (Js.trim line) = Throw err ->
          yielded items
          = recordsOfLines JSON_parse before ++ recordsOfLines JSON_parse after
          /\ warnings items
             = warningsOfLines JSON_parse key before
               ++ WarnParse key (err_message err)
               :: warningsOfLines JSON_parse key after)) /\
    (forall line, Js.isEmpty (Js.trim line) = true <-> whiteOnly line) /\
    (forall line, strippedOf line (Js.trim line)).
Proof.
  intros JSON_parse s3 key lines Hget.
  split; [|split; [exact trim_blank | exact trim_strippedOf]].
  exists (readLines JSON_parse key lines).
  unfold readJsonlFromS3. rewrite Hget. simpl.
  rewrite yielded_readLines, warnings_readLines.
  repeat split; trivial.
  - subst lines. rewrite recordsOfLines_app. simpl. now rewrite H0, H1.
  - subst lines. rewrite warningsOfLines_app. simpl. now rewrite H0, H1.
Qed.

(** A file whose first line starts with a byte order mark, with a line
    holding a no-break space only, a blank line, a line that is not JSON, a
    record followed by white space, and a line holding [null]. *)
Lemma readJsonlFromS3_stream_witness :
  exists items,
    readJsonlFromS3 Sample.parse
      (Sample.s3 [utf8Of 65279 +:+ "{m1}"; utf8Of 160; "  "; "oops";
                  "{m2}" +:+ utf8Of 8201 +:+ utf8Of 9; "null"])
      Sample.file = Ok items /\
    yielded items
    = [JRecord (Sample.plainMessage "m1"); JRecord (Sample.plainMessage "m2");
       JNull] /\
    warnings items = [WarnParse Sample.file "Unexpected token"].
Proof.
  destruct (readJsonlFromS3_stream Sample.parse
              (Sample.s3 [utf8Of 65279 +:+ "{m1}"; utf8Of 160; "  "; "oops";
                          "{m2}" +:+ utf8Of 8201 +:+ utf8Of 9; "null"])
              Sample.file
              [utf8Of 65279 +:+ "{m1}"; utf8Of 160; "  "; "oops";
               "{m2}" +:+ utf8Of 8201 +:+ utf8Of 9; "null"] eq_refl)
    as ((items & Hrun & Hy & Hw & _) & _).
  exists items. split; [exact Hrun|]. split.
  - rewrite Hy. vm_compute. reflexivity.
  - rewrite Hw. vm_compute. reflexivity.
Defined.

(** ** The serializer *)

Lemma filterBoolean_headerLine a name v l :
  filterBoolean (headerLine (String a name) v :: l)
  = presentHeader (String a name) v ++ filterBoolean l.
Proof.
  unfold filterBoolean, headerLine, presentHeader.
  destruct v as [[|c s]|]; reflexivity.
Qed.

Lemma toEml_unfold email :
  toEml email
  = Js.join Js.CRLF
      (presentHeader "From" (from email)
       ++ presentHeader "To" (to email)
       ++ presentHeader "Cc" (cc email)
       ++ presentHeader "Bcc" (bcc email)
       ++ presentHeader "Subject" (subject email)
       ++ presentHeader "Date" (date email)
       ++ ["Message-ID: <" +:+ messageId email +:+ "@gmail>";
           "MIME-Version: 1.0";
           "Content-Type: " +:+ bodyMimeString (bodyMime email)
             +:+ "; charset=" +:+ quote +:+ "UTF-8" +:+ quote])
    +:+ Js.CRLF +:+ Js.CRLF +:+ body email.
Proof.
  unfold toEml. rewrite !filterBoolean_headerLine. reflexivity.
Qed.

(** [join] followed by the separator puts the separator after every
    element. *)
Lemma join_terminated (ls : list string) (rest : string) :
  ls <> [] ->
  Js.join Js.CRLF ls +:+ Js.CRLF +:+ rest
  = foldr (fun line rest => line +:+ String "013" (String "010" rest)) rest ls.
Proof.
  induction ls as [|x [|y l] IH]; intros Hne.
  - now destruct Hne.
  - reflexivity.
  - change (Js.join Js.CRLF (x :: y :: l))
      with (x +:+ Js.CRLF +:+ Js.join Js.CRLF (y :: l)).
    rewrite !append_assoc, IH by discriminate. reflexivity.
Qed.

(** C8.  The serialized message is made of the header lines, each followed
    by CR LF, then one more CR LF, then the body as it is: the header lines
    are joined by CRLF and a double CRLF separates them from the body.  The
    header lines are the present, non-empty fields among From, To, Cc, Bcc,
    Subject, Date, in that order, each as [Name: value], then Message-ID,
    MIME-Version and Content-Type. *)
Theorem toEml_layout :
  forall email : ExtractedEmail,
    toEml email
    = foldr (fun line rest => line +:+ String "013" (String "010" rest))
        (String "013" (String "010" (body email)))
        (presentHeader "From" (from email)
         ++ presentHeader "To" (to email)
         ++ presentHeader "Cc" (cc email)
         ++ presentHeader "Bcc" (bcc email)
         ++ presentHeader "Subject" (subject email)
         ++ presentHeader "Date" (date email)
         ++ ["Message-ID: <" +:+ messageId email +:+ "@gmail>";
             "MIME-Version: 1.0";
             "Content-Type: " +:+ bodyMimeString (bodyMime email)
               +:+ "; charset=" +:+ quote +:+ "UTF-8" +:+ quote]).
Proof.
  intros email. rewrite toEml_unfold, join_terminated; [reflexivity|].
  intros H.
  repeat (apply app_eq_nil in H as [_ H]). discriminate H.
Qed.

(** A message with a present From, To, Subject and Date, an empty Cc and
    no Bcc, written out character by character. *)
Lemma toEml_layout_witness :
  toEml Sample.fullEmail
  = "From: a@x.org" +:+ String "013" (String "010"
    ("To: b@y.org" +:+ String "013" (String "010"
    ("Subject: Hi" +:+ String "013" (String "010"
    ("Date: Mon, 1 Jan 2024 10:00:00 +0000" +:+ String "013" (String "010"
    ("Message-ID: <m1@gmail>" +:+ String "013" (String "010"
    ("MIME-Version: 1.0" +:+ String "013" (String "010"
    ("Content-Type: text/html; charset=" +:+ String "034" ("UTF-8"
       +:+ String "034" (String "013" (String "010"
    (String "013" (String "010" "<b>hi</b>"))))))))))))))))).
Proof.
  rewrite (toEml_layout Sample.fullEmail). vm_compute. reflexivity.
Defined.

(** ** Body part selection *)

Lemma findPartIn_unfold part preferHtml :
  findPartIn part preferHtml
  = match leafMatch part with
    | Some d => Some (mkFound (default "text/plain" (Js.truthy (p_mimeType part))) d)
    | None =>
        match (if preferHtml then findChild "text/html" (children part) else None) with
        | Some f => Some f
        | None =>
            match findChild "text/plain" (children part) with
            | Some f => Some f
            | None => firstFound (fun p => findPartIn p preferHtml) (children part)
            end
        end
    end.
Proof.
  destruct part as [ty fn hs b [ps|]]; unfold leafMatch, children; simpl;
    repeat (match goal with |- context [match ?x with _ => _ end] =>
              destruct x; try reflexivity end).
Qed.

(** [firstFound] returns the result of the leftmost element that has one. *)
Lemma firstFound_Some {A B} (f : A -> option B) l r :
  firstFound f l = Some r <->
  exists l1 p l2, l = l1 ++ p :: l2 /\ f p = Some r /\ Forall (fun q => f q = None) l1.
Proof.
  induction l as [|a l IH]; simpl.
  - split; [discriminate|]. intros (l1 & p & l2 & H & _). now destruct l1.
  - destruct (f a) eqn:Ha.
    + split.
      * intros [= <-]. now exists [], a, l.
      * intros (l1 & p & l2 & H & Hp & Hl1). destruct l1 as [|q l1].
        -- injection H as -> ->. congruence.
        -- injection H as -> ->. inversion Hl1; congruence.
    + rewrite IH. split.
      * intros (l1 & p & l2 & -> & Hp & Hl1). exists (a :: l1), p, l2.
        repeat split; trivial. now constructor.
      * intros (l1 & p & l2 & H & Hp & Hl1). destruct l1 as [|q l1].
        -- injection H as -> ->. congruence.
        -- injection H as -> ->. exists l1, p, l2. inversion Hl1; auto.
Qed.

Lemma firstFound_None {A B} (f : A -> option B) l :
  firstFound f l = None <-> Forall (fun q => f q = None) l.
Proof.
  induction l as [|a l IH]; simpl.
  - split; trivial.
  - destruct (f a) eqn:Ha.
    + split; [discriminate|]. intros H. inversion H; congruence.
    + rewrite IH. split; [now constructor | intros H; now inversion H].
Qed.

Lemma findChild_found ty parts c :
  List.find (childIs ty) parts = Some c ->
  exists d, bodyData c = Some d /\ findChild ty parts = Some (mkFound ty d).
Proof.
  intros Hfind. unfold findChild. rewrite Hfind.
  apply find_some in Hfind as [_ Hc]. unfold childIs in Hc.
  apply andb_true_iff in Hc as [_ Hd]. apply bool_decide_eq_true in Hd.
  destruct Hd as [d Hd]. exists d. now rewrite Hd.
Qed.


Lemma find_first_exists {A} (P : A -> bool) l x :
  In x l -> P x = true -> exists y, List.find P l = Some y.
Proof.
  intros Hin Hx. destruct (List.find P l) eqn:E; [eauto|].
  exfalso. eapply find_none in E; eauto. congruence.
Qed.











(** C5, as stated, fails for a media type of the multipart family that is
    not spelled in lower case: "Multipart/Mixed" does not start with
    "multipart/", and the part carries body data, yet it is not returned;
    its text/plain child is. *)
Lemma findPart_prefix_counterexample :
  let part :=
    mkPart (Some "Multipart/Mixed") None None
      (Some (mkBody None (Some "b3du")))
      (Some [Sample.textPart "text/plain" "aGVsbG8"]) in
  Js.startsWith "Multipart/Mixed" "multipart/" = false /\
  ownData part "b3du" /\
  findPart (Some part) true = Some (mkFound "text/plain" "aGVsbG8") /\
  findPart (Some part) true <> Some (mkFound "Multipart/Mixed" "b3du").
Proof.
  split; [reflexivity|]. split; [|split; [reflexivity | discriminate]].
  eexists. repeat split. discriminate.
Qed.



(** ** The loop body of [processMessages] *)

Section RecordFacts.

Variable s3 : S3Client.
Variable config : AppConfig.
Variable limit_ : JsNumber.

Lemma exists_present key st v :
  s3_headFault s3 key = None -> objects st !! key = Some v ->
  exists_ s3 key st = (Ok true, emit (SendHead key) st).
Proof.
  intros Hf Hv. unfold exists_, headObject. rewrite Hf. simpl. now rewrite Hv.
Qed.

Lemma exists_absent key st :
  s3_headFault s3 key = None -> objects st !! key = None ->
  exists_ s3 key st = (Ok false, emit (SendHead key) st).
Proof.
  intros Hf Hv. unfold exists_, headObject. rewrite Hf. simpl. now rewrite Hv.
Qed.

Lemma tryBlock_limit dry key record st :
  geNumber (processed (counters st)) limit_ = true ->
  tryBlock s3 config limit_ dry key record st = (Return, st).
Proof. intros H. unfold tryBlock. now rewrite H. Qed.

Lemma tryBlock_skip dry key record st msgId v :
  geNumber (processed (counters st)) limit_ = false ->
  Js.truthy (msgIdOf record) = Some msgId ->
  s3_headFault s3 (targetKeyOf config msgId) = None ->
  objects st !! targetKeyOf config msgId = Some v ->
  tryBlock s3 config limit_ dry key record st
  = (Next, emit (LogSkipping (targetKeyOf config msgId))
             (count incSkipped
                (emit (SendHead (targetKeyOf config msgId))
                   (count incProcessed st)))).
Proof.
  intros Hl Hid Hf Hv. unfold tryBlock. rewrite Hl, Hid.
  erewrite exists_present; eauto.
Qed.

Lemma tryBlock_extract_fails dry key record st msgId e :
  geNumber (processed (counters st)) limit_ = false ->
  Js.truthy (msgIdOf record) = Some msgId ->
  s3_headFault s3 (targetKeyOf config msgId) = None ->
  objects st !! targetKeyOf config msgId = None ->
  extractEmail record = Throw e ->
  tryBlock s3 config limit_ dry key record st
  = (Raise e, emit (SendHead (targetKeyOf config msgId)) (count incProcessed st)).
Proof.
  intros Hl Hid Hf Hv He. unfold tryBlock. rewrite Hl, Hid.
  rewrite exists_absent by (simpl; trivial). now rewrite He.
Qed.

Lemma tryBlock_dryRun key record st msgId email :
  geNumber (processed (counters st)) limit_ = false ->
  Js.truthy (msgIdOf record) = Some msgId ->
  s3_headFault s3 (targetKeyOf config msgId) = None ->
  objects st !! targetKeyOf config msgId = None ->
  extractEmail record = Ok email ->
  tryBlock s3 config limit_ true key record st
  = (Next, emit (LogWouldCreate (targetKeyOf config msgId))
             (emit (LogPreview (workspaceId config) (connectorId config)
                      (targetKeyOf config msgId))
                (emit (SendHead (targetKeyOf config msgId))
                   (count incProcessed st)))).
Proof.
  intros Hl Hid Hf Hv He. unfold tryBlock. rewrite Hl, Hid.
  rewrite exists_absent by (simpl; trivial). now rewrite He.
Qed.

Lemma tryBlock_create key record st msgId email :
  geNumber (processed (counters st)) limit_ = false ->
  Js.truthy (msgIdOf record) = Some msgId ->
  s3_headFault s3 (targetKeyOf config msgId) = None ->
  s3_putFault s3 (targetKeyOf config msgId) = None ->
  objects st !! targetKeyOf config msgId = None ->
  extractEmail record = Ok email ->
  tryBlock s3 config limit_ false key record st
  = (Next, emit (LogCreated (targetKeyOf config msgId))
             (count incCreated
                (stored (targetKeyOf config msgId) (toEml email)
                   (emit (LogPreview (workspaceId config) (connectorId config)
                            (targetKeyOf config msgId))
                      (emit (SendHead (targetKeyOf config msgId))
                         (count incProcessed st)))))).
Proof.
  intros Hl Hid Hf Hp Hv He. unfold tryBlock. rewrite Hl, Hid.
  rewrite exists_absent by (simpl; trivial). rewrite He.
  unfold putObject. now rewrite Hp.
Qed.

(** Whatever the [try] block raises, the handler counts the record as
    failed and then raises itself. *)
Lemma processRecord_raise dry key record st e st' :
  tryBlock s3 config limit_ dry key record st = (Raise e, st') ->
  processRecord s3 config limit_ dry key record st
  = (Raise (ReferenceError "msgId"), count incFailed st').
Proof. intros H. unfold processRecord. now rewrite H. Qed.

Lemma processRecord_no_raise dry key record st sig st' :
  tryBlock s3 config limit_ dry key record st = (sig, st') ->
  (forall e, sig <> Raise e) ->
  processRecord s3 config limit_ dry key record st = (sig, st').
Proof.
  intros H Hs. unfold processRecord. rewrite H.
  destruct sig; trivial. now destruct (Hs e).
Qed.

End RecordFacts.


(** C1.  A record whose extraction throws, followed by a sound record.  The
    handler counts the first record as failed, then its log statement reads
    [msgId], which is out of scope there: the ReferenceError leaves the
    handler, [processMessages] rejects, and the second record is never
    probed, extracted or written. *)
Theorem record_error_aborts_run :
  let run := processMessages Sample.parse (Sample.s3 ["{bare}"; "{m2}"])
               Sample.cfg (mkOptions None None) ∅ in
  extractEmail (Sample.bareMessage "b1") = Throw (Error "No body found") /\
  fst run = Throw (ReferenceError "msgId") /\
  counters (snd run) = mkCounters 1 0 0 1 /\
  objects (snd run) = ∅ /\
  trace (snd run)
  = [LogFound 1 "raw/messages_details/"; LogReading Sample.file;
     SendGet Sample.file; SendHead "raw/raw-files/ws1/gmail/b1.eml"].
Proof. vm_compute. repeat split. Qed.

(** C2, as stated, fails: a dry run over one new, sound record leaves
    [created] at 0, where the same run without [dryRun] gives 1; neither
    the counter nor the bucket is touched in the dry run. *)
Lemma dryRun_created_counterexample :
  let dry := processMessages Sample.parse (Sample.s3 ["{m1}"]) Sample.cfg
               (mkOptions None (Some true)) ∅ in
  let real := processMessages Sample.parse (Sample.s3 ["{m1}"]) Sample.cfg
                (mkOptions None (Some false)) ∅ in
  extractEmail (Sample.plainMessage "m1")
  = Ok (mkEmail "m1" (Some "Hi") None None None None None TextPlain "hello" None) /\
  fst dry = Ok (mkCounters 1 0 0 0) /\
  puts (trace (snd dry)) = [] /\
  fst real = Ok (mkCounters 1 1 0 0).
Proof. vm_compute. repeat split. Qed.

(** C2, amended.  For a record whose target key is absent and whose
    extraction succeeds, a dry run sends the probe, logs the preview and the
    "would create" line and nothing else: no write is sent, the bucket is
    unchanged, [processed] is incremented and [created] is not. *)
Theorem dryRun_counts_no_creation :
  forall (s3 : S3Client) (config : AppConfig) (limit_ : JsNumber)
         (key : string) (record : GmailMessage) (st : RunState)
         (msgId : string) (email : ExtractedEmail),
    geNumber (processed (counters st)) limit_ = false ->
    Js.truthy (msgIdOf record) = Some msgId ->
    s3_headFault s3 (targetKeyOf config msgId) = None ->
    objects st !! targetKeyOf config msgId = None ->
    extractEmail record = Ok email ->
    exists st',
      processRecord s3 config limit_ true key record st = (Next, st') /\
      trace st'
      = trace st ++ [SendHead (targetKeyOf config msgId);
                     LogPreview (workspaceId config) (connectorId config)
                       (targetKeyOf config msgId);
                     LogWouldCreate (targetKeyOf config msgId)] /\
      objects st' = objects st /\
      created (counters st') = created (counters st) /\
      processed (counters st') = processed (counters st) + 1 /\
      skipped (counters st') = skipped (counters st) /\
      failed (counters st') = failed (counters st).
Proof.
  intros s3 config limit_ key record st msgId email Hl Hid Hf Hv He.
  eexists. split.
  - apply processRecord_no_raise; [|discriminate].
    eapply tryBlock_dryRun; eauto.
  - simpl. rewrite <- !app_assoc. repeat split.
Qed.

Lemma dryRun_counts_no_creation_witness :
  exists st',
    processRecord (Sample.s3 []) Sample.cfg Infinity true Sample.file
      (Sample.plainMessage "m1") Sample.state0 = (Next, st') /\
    objects st' = ∅ /\ created (counters st') = 0.
Proof.
  destruct (dryRun_counts_no_creation (Sample.s3 []) Sample.cfg Infinity
              Sample.file (Sample.plainMessage "m1") Sample.state0 "m1"
              (mkEmail "m1" (Some "Hi") None None None None None TextPlain
                 "hello" None)
              eq_refl eq_refl eq_refl eq_refl eq_refl)
    as (st' & Hrun & _ & Hobj & Hcr & _).
  exists st'. split; [exact Hrun|]. split; [exact Hobj | exact Hcr].
Defined.

(** C3, as stated, fails: a record that has an id and no body (its
    extraction throws) and whose target key exists is counted as skipped
    after the probe alone; extraction was not attempted, or the record
    would have failed. *)
Lemma skip_before_extraction_counterexample :
  let run := processMessages Sample.parse (Sample.s3 ["{bare}"]) Sample.cfg
               (mkOptions None None)
               {[ "raw/raw-files/ws1/gmail/b1.eml" := "old" ]} in
  extractEmail (Sample.bareMessage "b1") = Throw (Error "No body found") /\
  fst run = Ok (mkCounters 1 0 1 0) /\
  trace (snd run)
  = [LogFound 1 "raw/messages_details/"; LogReading Sample.file;
     SendGet Sample.file; SendHead "raw/raw-files/ws1/gmail/b1.eml";
     LogSkipping "raw/raw-files/ws1/gmail/b1.eml"].
Proof. vm_compute. repeat split. Qed.

(** C3, amended.  For every record with an id, the existence probe of the
    target key comes first.  When the key exists the record is skipped,
    whatever its extraction would give.  When the key is absent the
    extractor runs after the probe: its error leaves the [try] block, and
    on success the serialized message [toEml email] is what is written,
    after the preview line. *)
Theorem probe_before_extraction :
  forall (s3 : S3Client) (config : AppConfig) (limit_ : JsNumber) (dry : bool)
         (key : string) (record : GmailMessage) (st : RunState) (msgId : string),
    geNumber (processed (counters st)) limit_ = false ->
    Js.truthy (msgIdOf record) = Some msgId ->
    s3_headFault s3 (targetKeyOf config msgId) = None ->
    let targetKey := targetKeyOf config msgId in
    let probed := emit (SendHead targetKey) (count incProcessed st) in
    (forall v, objects st !! targetKey = Some v ->
       processRecord s3 config limit_ dry key record st
       = (Next, emit (LogSkipping targetKey) (count incSkipped probed))) /\
    (objects st !! targetKey = None ->
       (forall e, extractEmail record = Throw e ->
          tryBlock s3 config limit_ dry key record st = (Raise e, probed)) /\
       (forall email, extractEmail record = Ok email ->
          s3_putFault s3 targetKey = None ->
          processRecord s3 config limit_ false key record st
          = (Next, emit (LogCreated targetKey)
                     (count incCreated
                        (stored targetKey (toEml email)
                           (emit (LogPreview (workspaceId config)
                                    (connectorId config) targetKey) probed)))))).
Proof.
  intros s3 config limit_ dry key record st msgId Hl Hid Hf targetKey probed.
  split; [|intros Hv; split].
  - intros v Hv. apply processRecord_no_raise; [|discriminate].
    eapply tryBlock_skip; eauto.
  - intros e He. eapply tryBlock_extract_fails; eauto.
  - intros email He Hp. apply processRecord_no_raise; [|discriminate].
    eapply tryBlock_create; eauto.
Qed.

Lemma probe_before_extraction_witness :
  processRecord (Sample.s3 []) Sample.cfg Infinity false Sample.file
    (Sample.bareMessage "b1")
    (mkState newCounters {[ "raw/raw-files/ws1/gmail/b1.eml" := "old" ]} [])
  = (Next,
     mkState (mkCounters 1 0 1 0) {[ "raw/raw-files/ws1/gmail/b1.eml" := "old" ]}
       [SendHead "raw/raw-files/ws1/gmail/b1.eml";
        LogSkipping "raw/raw-files/ws1/gmail/b1.eml"]).
Proof.
  exact (proj1 (probe_before_extraction (Sample.s3 []) Sample.cfg Infinity false
                  Sample.file (Sample.bareMessage "b1")
                  (mkState newCounters
                     {[ "raw/raw-files/ws1/gmail/b1.eml" := "old" ]} [])
                  "b1" eq_refl eq_refl eq_refl) "old" eq_refl).
Defined.

(** C6.  The target key is the concatenation of the raw-files prefix, the
    workspace id, "/gmail/", the message id and ".eml".  Processing the
    same record twice in a row on the same bucket, where the key is absent
    at first and extraction succeeds, writes the serialized message once
    (Created), and the second time finds the key and writes nothing
    (Skipped). *)
Theorem created_then_skipped :
  forall (s3 : S3Client) (config : AppConfig) (limit_ : JsNumber)
         (key : string) (record : GmailMessage) (st : RunState)
         (msgId : string) (email : ExtractedEmail),
    geNumber (processed (counters st)) limit_ = false ->
    geNumber (processed (counters st) + 1) limit_ = false ->
    Js.truthy (msgIdOf record) = Some msgId ->
    s3_headFault s3 (targetKeyOf config msgId) = None ->
    s3_putFault s3 (targetKeyOf config msgId) = None ->
    objects st !! targetKeyOf config msgId = None ->
    extractEmail record = Ok email ->
    let targetKey := targetKeyOf config msgId in
    targetKey
    = rawFilesPrefix config +:+ workspaceId config +:+ "/gmail/" +:+ msgId +:+ ".eml" /\
    exists st1 st2,
      processRecord s3 config limit_ false key record st = (Next, st1) /\
      processRecord s3 config limit_ false key record st1 = (Next, st2) /\
      (* first time: Created, one write *)
      counters st1 = incCreated (incProcessed (counters st)) /\
      objects st1 = <[targetKey := toEml email]> (objects st) /\
      puts (trace st1)
      = puts (trace st) ++ [SendPut targetKey (toEml email) "message/rfc822"] /\
      (* second time: Skipped, no write *)
      counters st2 = incSkipped (incProcessed (counters st1)) /\
      objects st2 = objects st1 /\
      trace st2 = trace st1 ++ [SendHead targetKey; LogSkipping targetKey] /\
      puts (trace st2) = puts (trace st1).
Proof.
  intros s3 config limit_ key record st msgId email Hl Hl' Hid Hf Hp Hv He targetKey.
  split; [reflexivity|].
  eexists. eexists. split; [|split].
  - apply processRecord_no_raise; [|discriminate].
    eapply tryBlock_create; eauto.
  - apply processRecord_no_raise; [|discriminate].
    eapply tryBlock_skip with (v := toEml email); eauto.
    simpl. apply lookup_insert_eq.
  - simpl. unfold puts. rewrite <- !app_assoc, !List.filter_app. simpl.
    rewrite ?app_nil_r. repeat split.
Qed.

Lemma created_then_skipped_witness :
  exists st1 st2,
    processRecord (Sample.s3 []) Sample.cfg Infinity false Sample.file
      (Sample.plainMessage "m1") Sample.state0 = (Next, st1) /\
    processRecord (Sample.s3 []) Sample.cfg Infinity false Sample.file
      (Sample.plainMessage "m1") st1 = (Next, st2) /\
    counters st1 = mkCounters 1 1 0 0 /\
    counters st2 = mkCounters 2 1 1 0 /\
    puts (trace st2) = puts (trace st1).
Proof.
  destruct (created_then_skipped (Sample.s3 []) Sample.cfg Infinity
              Sample.file (Sample.plainMessage "m1") Sample.state0 "m1"
              (mkEmail "m1" (Some "Hi") None None None None None TextPlain
                 "hello" None)
              eq_refl eq_refl eq_refl eq_refl eq_refl eq_refl eq_refl)
    as (_ & st1 & st2 & H1 & H2 & Hc1 & _ & _ & Hc2 & _ & _ & Hp).
  exists st1, st2. repeat split; trivial.
  rewrite Hc2, Hc1. reflexivity.
Defined.

(** ** The key and the identifier *)

Lemma append_length a b :
  String.length (a +:+ b) = String.length a + String.length b.
Proof. induction a as [|c a IH]; simpl; [reflexivity | now rewrite IH]. Qed.

Lemma append_inj_r s : forall a b, a +:+ s = b +:+ s -> a = b.
Proof.
  induction a as [|c a IH]; intros [|d b] H; trivial.
  - apply (f_equal String.length) in H.
    rewrite !append_length in H. simpl in H. lia.
  - apply (f_equal String.length) in H.
    rewrite !append_length in H. simpl in H. lia.
  - injection H as -> H. f_equal. now apply IH.
Qed.

Lemma targetKeyOf_inj config a b :
  targetKeyOf config a = targetKeyOf config b -> a = b.
Proof.
  unfold targetKeyOf. intros H.
  do 3 apply String.app_inj in H. now apply append_inj_r in H.
Qed.






(** ** The limit *)

Section LimitFacts.

Variable s3 : S3Client.
Variable config : AppConfig.
Variable q : Q.
Variable dry : bool.

Lemma geNumber_false n :
  geNumber n (Finite q) = false -> (inject_Z (Z.of_nat n) < q)%Q.
Proof.
  simpl. intros H. apply Qnot_le_lt. intros Hle.
  apply Qle_bool_iff in Hle. congruence.
Qed.

Lemma geNumber_true n :
  (q <= inject_Z (Z.of_nat n))%Q -> geNumber n (Finite q) = true.
Proof. intros H. simpl. now apply Qle_bool_iff. Qed.

(** The [try] block leaves [processed] as it is, or adds one after the
    limit check has let the record through. *)
Lemma tryBlock_processed key record st :
  let st' := snd (tryBlock s3 config (Finite q) dry key record st) in
  processed (counters st') = processed (counters st) \/
  (geNumber (processed (counters st)) (Finite q) = false /\
   processed (counters st') = processed (counters st) + 1).
Proof.
  unfold tryBlock, exists_, headObject, putObject.
  destruct (geNumber (processed (counters st)) (Finite q)) eqn:Hl;
    [now left|].
  right. split; [reflexivity|].
  repeat (case_match; simplify_eq; simpl in *; try reflexivity).
Qed.

Lemma processRecord_processed key record st :
  let st' := snd (processRecord s3 config (Finite q) dry key record st) in
  processed (counters st') = processed (counters st) \/
  (geNumber (processed (counters st)) (Finite q) = false /\
   processed (counters st') = processed (counters st) + 1).
Proof.
  pose proof (tryBlock_processed key record st) as H.
  unfold processRecord.
  destruct (tryBlock s3 config (Finite q) dry key record st) as [[| |e] st'];
    exact H.
Qed.

Lemma processValue_processed key value st :
  let st' := snd (processValue s3 config (Finite q) dry key value st) in
  processed (counters st') = processed (counters st) \/
  (geNumber (processed (counters st)) (Finite q) = false /\
   processed (counters st') = processed (counters st) + 1).
Proof.
  destruct value as [|record]; [|apply processRecord_processed].
  unfold processValue, tryBlockNull, catchBlock.
  destruct (geNumber (processed (counters st)) (Finite q)) eqn:Hl;
    [now left | right; split; reflexivity].
Qed.

Lemma processValue_withinLimit key value st :
  withinLimit q (counters st) ->
  withinLimit q (counters (snd (processValue s3 config (Finite q) dry key value st))).
Proof.
  intros Hinv.
  destruct (processValue_processed key value st) as [H|[Hl H]];
    unfold withinLimit in *; rewrite H; [exact Hinv|].
  right. apply geNumber_false in Hl.
  replace (Z.of_nat (processed (counters st) + 1) - 1)%Z
    with (Z.of_nat (processed (counters st))) by lia.
  exact Hl.
Qed.

Lemma forRecords_withinLimit key items : forall st,
  withinLimit q (counters st) ->
  withinLimit q (counters (snd (forRecords s3 config (Finite q) dry key items st))).
Proof.
  induction items as [|[value|ev] rest IH]; intros st Hinv; simpl.
  - exact Hinv.
  - pose proof (processValue_withinLimit key value st Hinv) as Hstep.
    destruct (processValue s3 config (Finite q) dry key value st)
      as [[| |e] st']; simpl in *; auto.
  - apply IH. exact Hinv.
Qed.

Lemma forKeys_withinLimit JSON_parse keys : forall st,
  withinLimit q (counters st) ->
  withinLimit q (counters (snd (forKeys s3 config (Finite q) dry JSON_parse keys st))).
Proof.
  induction keys as [|key rest IH]; intros st Hinv; simpl.
  - exact Hinv.
  - destruct (readJsonlFromS3 JSON_parse s3 key) as [items|e]; simpl;
      [|exact Hinv].
    pose proof (forRecords_withinLimit key items
                  (emit (SendGet key) (emit (LogReading key) st)) Hinv) as Hstep.
    destruct (forRecords s3 config (Finite q) dry key items _)
      as [[| |e] st']; simpl in *; auto.
Qed.

End LimitFacts.

Lemma processMessages_state JSON_parse s3 config opts objects0 c :
  fst (processMessages JSON_parse s3 config opts objects0) = Ok c ->
  c = counters (snd (processMessages JSON_parse s3 config opts objects0)).
Proof.
  unfold processMessages.
  destruct (listJsonlKeys s3 (detailsPrefix config)); [|discriminate].
  destruct (forKeys _ _ _ _ _ _ _) as [[| |e] st']; simpl; congruence.
Qed.

(** C7, as stated, fails for limits that are not whole or are negative:
    with limit 2.5 three records are processed, and with limit -1 the run
    ends with [processed] at 0; both counts exceed the limit. *)
Lemma limit_exceeded_counterexample :
  let lines := ["{m1}"; "{m2}"; "{m3}"] in
  let half := processMessages Sample.parse (Sample.s3 lines) Sample.cfg
                (mkOptions (Some (Finite (5 # 2))) None) ∅ in
  let neg := processMessages Sample.parse (Sample.s3 lines) Sample.cfg
               (mkOptions (Some (Finite (-1))) None) ∅ in
  fst half = Ok (mkCounters 3 3 0 0) /\
  ~ (inject_Z (Z.of_nat (processed (counters (snd half)))) <= 5 # 2)%Q /\
  fst neg = Ok (mkCounters 0 0 0 0) /\
  ~ (inject_Z (Z.of_nat (processed (counters (snd neg)))) <= -1)%Q.
Proof.
  repeat split; try (vm_compute; reflexivity);
    intros H; vm_compute in H; now apply H.
Qed.

(** C7, amended.  With a finite limit [q], the limit is checked before
    [processed] is incremented: a record arriving when [processed >= q]
    makes the loop return with the state as it is, nothing of that record
    or of the rest of the stream being processed, and the run resolves to
    the current counters; a record that passes the check adds exactly one,
    whatever value it is.
    So the final [processed] is 0 or less than [q + 1]; when [q] is a
    non-negative whole number, [processed] never exceeds it. *)
Theorem limit_bounds_processed :
  forall (JSON_parse : string -> Exc JsonValue) (s3 : S3Client)
         (config : AppConfig) (q : Q) (dryOpt : option bool)
         (objects0 : gmap string string),
    let dry := default false dryOpt in
    let run := processMessages JSON_parse s3 config
                 (mkOptions (Some (Finite q)) dryOpt) objects0 in
    withinLimit q (counters (snd run)) /\
    (forall n : nat, q == inject_Z (Z.of_nat n) ->
       processed (counters (snd run)) <= n) /\
    (forall c, fst run = Ok c -> c = counters (snd run)) /\
    (forall key value rest st,
       (q <= inject_Z (Z.of_nat (processed (counters st))))%Q ->
       forRecords s3 config (Finite q) dry key (Yield value :: rest) st
       = (Return, st)) /\
    (forall key record st,
       (inject_Z (Z.of_nat (processed (counters st))) < q)%Q ->
       processed (counters (snd (processRecord s3 config (Finite q) dry key record st)))
       = processed (counters st) + 1) /\
    (forall key st,
       (inject_Z (Z.of_nat (processed (counters st))) < q)%Q ->
       processed (counters (snd (processValue s3 config (Finite q) dry key JNull st)))
       = processed (counters st) + 1).
Proof.
  intros JSON_parse s3 config q dryOpt objects0 dry run.
  assert (Hinv : withinLimit q (counters (snd run))).
  { unfold run, processMessages. simpl.
    destruct (listJsonlKeys s3 (detailsPrefix config)) as [keys|e];
      [|now left].
    pose proof (forKeys_withinLimit s3 config q dry JSON_parse keys
                  (emit (LogFound (length keys) (detailsPrefix config))
                     (mkState newCounters objects0 []))
                  (or_introl eq_refl)) as H.
    destruct (forKeys _ _ _ _ _ _ _) as [[| |e] st']; exact H. }
  assert (Hpass : forall st,
            (inject_Z (Z.of_nat (processed (counters st))) < q)%Q ->
            geNumber (processed (counters st)) (Finite q) = false).
  { intros st Hlt. simpl. destruct (Qle_bool q _) eqn:E; [|reflexivity].
    apply Qle_bool_iff in E. exfalso. eapply Qlt_not_le; eauto. }
  split; [exact Hinv|]. split; [|split; [|split; [|split]]].
  - intros n Hq. destruct Hinv as [H0|Hlt]; [lia|].
    rewrite Hq in Hlt. rewrite <- Zlt_Qlt in Hlt. lia.
  - intros c. apply processMessages_state.
  - intros key [|record] rest st Hge; simpl.
    + unfold tryBlockNull. now rewrite (geNumber_true q _ Hge).
    + unfold processRecord.
      rewrite tryBlock_limit; [reflexivity|]. now apply geNumber_true.
  - intros key record st Hlt.
    destruct (processRecord_processed s3 config q dry key record st)
      as [H|[_ H]]; [|exact H].
    exfalso. revert H. unfold processRecord, tryBlock.
    assert (Hl : geNumber (processed (counters st)) (Finite q) = false).
    { simpl. destruct (Qle_bool q _) eqn:E; [|reflexivity].
      apply Qle_bool_iff in E. exfalso. eapply Qlt_not_le; eauto. }
    rewrite Hl. unfold exists_, headObject, putObject, catchBlock.
    repeat (case_match; simplify_eq; simpl in *; try lia).
  - intros key st Hlt. unfold processValue, tryBlockNull.
    now rewrite (Hpass st Hlt).
Qed.

Lemma limit_bounds_processed_witness :
  processed (counters (snd (processMessages Sample.parse
     (Sample.s3 ["{m1}"; "{m2}"; "{m3}"]) Sample.cfg
     (mkOptions (Some (Finite 2)) (Some false)) ∅))) <= 2.
Proof.
  exact (proj1 (proj2 (limit_bounds_processed Sample.parse
     (Sample.s3 ["{m1}"; "{m2}"; "{m3}"]) Sample.cfg 2 (Some false) ∅))
     2 ltac:(reflexivity)).
Defined.

(** ** The decoder *)



Lemma sextets_padding k : Buffer.sextets (Js.repeat "=" k) = [].
Proof. destruct k; reflexivity. Qed.

(** A character of the URL-safe alphabet, after the two replacements, is
    an ASCII character, hence a code unit that is its own low byte; it is
    not ['='] and has the same value in the alphabet of [Buffer.from]. *)
Lemma urlSafe_replaced c v :
  urlSafeValue c = Some v ->
  let c' := if Ascii.eqb (if Ascii.eqb c "-" then "+"%char else c) "_"
            then "/"%char
            else (if Ascii.eqb c "-" then "+"%char else c) in
  Ascii.eqb c' "=" = false /\ Buffer.unbase64 c' = Some v /\
  (N_of_ascii c' <? 128)%N = true /\ Buffer.lowByte (N_of_ascii c') = c'.
Proof.
  destruct c as [[] [] [] [] [] [] [] []]; vm_compute;
    intros H; try discriminate H;
    repeat split; solve [reflexivity | exact H].
Qed.

Lemma sextets_urlSafe data : forall vs tail,
  urlSafeSextets data = Some vs ->
  Buffer.sextets (Js.replaceAll "_" "/" (Js.replaceAll "-" "+" data) +:+ tail)
  = vs ++ Buffer.sextets tail.
Proof.
  induction data as [|c data IH]; intros vs tail H; simpl in H.
  - injection H as <-. reflexivity.
  - destruct (urlSafeValue c) as [v|] eqn:Hc; [|discriminate].
    destruct (urlSafeSextets data) as [vs'|]; [|discriminate].
    injection H as <-.
    destruct (urlSafe_replaced c v Hc) as (Heq & Hval & Hascii & Hlow).
    cbn [Js.replaceAll]. rewrite append_cons.
    unfold Buffer.sextets in *. cbn [Js.units]. cbv zeta. rewrite Hascii.
    cbn [map Buffer.sextetsOf]. rewrite Hlow, Heq, Hval, (IH vs' tail eq_refl).
    reflexivity.
Qed.


(** On well-formed UTF-8, [toString("utf8")] changes nothing. *)
Lemma utf8_text_wellFormed n : forall bs,
  length bs <= n -> wellFormedUtf8 bs = true -> Buffer.utf8_text bs = bs.
Proof.
  induction n as [|n IH]; intros bs Hlen Hwf.
  - destruct bs; [reflexivity | simpl in Hlen; lia].
  - destruct bs as [|b0 t0]; [reflexivity|].
    cbn [wellFormedUtf8 Buffer.utf8_text] in *.
    destruct (Buffer.within 0 127 b0).
    { f_equal. apply IH; [simpl in Hlen; lia | exact Hwf]. }
    destruct (Buffer.within 194 223 b0).
    { destruct t0 as [|b1 t1]; [discriminate|].
      apply andb_true_iff in Hwf as [H1 Hwf]. rewrite H1.
      do 2 f_equal. apply IH; [simpl in Hlen; lia | exact Hwf]. }
    destruct (Buffer.within 224 239 b0).
    { destruct t0 as [|b1 [|b2 t2]]; try discriminate.
      apply andb_true_iff in Hwf as [Hwf H3].
      apply andb_true_iff in Hwf as [H1 H2]. rewrite H1, H2.
      do 3 f_equal. apply IH; [simpl in Hlen; lia | exact H3]. }
    destruct (Buffer.within 240 244 b0); [|discriminate].
    destruct t0 as [|b1 [|b2 [|b3 t3]]]; try discriminate.
    apply andb_true_iff in Hwf as [Hwf H4].
    apply andb_true_iff in Hwf as [Hwf H3].
    apply andb_true_iff in Hwf as [H1 H2]. rewrite H1, H2, H3.
    do 4 f_equal. apply IH; [simpl in Hlen; lia | exact H4].
Qed.





Section ByteArithmetic.










End ByteArithmetic.

(** The output of [toString("utf8")] is well-formed UTF-8. *)
Lemma wellFormed_replacement l :
  wellFormedUtf8 (Buffer.U_FFFD ++ l) = wellFormedUtf8 l.
Proof. reflexivity. Qed.

Lemma utf8_text_wellFormed_output n : forall bs,
  length bs <= n -> wellFormedUtf8 (Buffer.utf8_text bs) = true.
Proof.
  induction n as [|n IH]; intros bs Hlen.
  - destruct bs; [reflexivity | simpl in Hlen; lia].
  - destruct bs as [|b0 t0]; [reflexivity|].
    assert (H0 : wellFormedUtf8 (Buffer.utf8_text t0) = true)
      by (apply IH; simpl in Hlen; lia).
    cbn [Buffer.utf8_text].
    destruct (Buffer.within 0 127 b0) eqn:E1.
    { cbn [wellFormedUtf8]. now rewrite E1. }
    destruct (Buffer.within 194 223 b0) eqn:E2.
    { destruct t0 as [|b1 t1]; [reflexivity|].
      destruct (Buffer.within 128 191 b1) eqn:F1;
        [|now rewrite wellFormed_replacement].
      cbn [wellFormedUtf8]. rewrite E1, E2, F1. simpl.
      apply IH. simpl in *. lia. }
    destruct (Buffer.within 224 239 b0) eqn:E3.
    { destruct t0 as [|b1 t1]; [reflexivity|].
      destruct (Buffer.within _ _ b1) eqn:F1;
        [|now rewrite wellFormed_replacement].
      destruct t1 as [|b2 t2]; [reflexivity|].
      destruct (Buffer.within 128 191 b2) eqn:F2.
      - cbn [wellFormedUtf8]. rewrite E1, E2, E3, F1, F2. simpl.
        apply IH. simpl in *. lia.
      - rewrite wellFormed_replacement. apply IH. simpl in *. lia. }
    destruct (Buffer.within 240 244 b0) eqn:E4;
      [|now rewrite wellFormed_replacement].
    destruct t0 as [|b1 t1]; [reflexivity|].
    destruct (Buffer.within _ _ b1) eqn:F1;
      [|now rewrite wellFormed_replacement].
    destruct t1 as [|b2 t2]; [reflexivity|].
    destruct (Buffer.within 128 191 b2) eqn:F2.
    2:{ rewrite wellFormed_replacement. apply IH. simpl in *. lia. }
    destruct t2 as [|b3 t3]; [reflexivity|].
    destruct (Buffer.within 128 191 b3) eqn:F3.
    + cbn [wellFormedUtf8]. rewrite E1, E2, E3, E4, F1, F2, F3. simpl.
      apply IH. simpl in *. lia.
    + rewrite wellFormed_replacement. apply IH. simpl in *. lia.
Qed.




(** * Further properties of the run *)

(** ** The loop body and its steps *)

Lemma exists_probe s3 key st :
  exists_ s3 key st = (probe s3 (objects st) key, emit (SendHead key) st).
Proof.
  unfold exists_, headObject, probe.
  destruct (s3_headFault s3 key) as [e|]; simpl.
  - destruct (bool_decide (err_status e = Some 404%Z)); [reflexivity|].
    destruct (String.eqb (err_name e) "NotFound"); reflexivity.
  - destruct (objects st !! key); reflexivity.
Qed.

(** Every turn of the loop body is one of the eight steps. *)
Lemma processRecord_recordStep s3 config limit_ dry key record st :
  recordStep s3 config limit_ dry key record st
    (fst (processRecord s3 config limit_ dry key record st))
    (snd (processRecord s3 config limit_ dry key record st)).
Proof.
  unfold processRecord, tryBlock.
  destruct (geNumber (processed (counters st)) limit_) eqn:Hl;
    [now apply step_limit|].
  destruct (Js.truthy (msgIdOf record)) as [msgId|] eqn:Hid;
    [|now apply step_missing_id].
  rewrite exists_probe.
  change (objects (count incProcessed st)) with (objects st).
  destruct (probe s3 (objects st) (targetKeyOf config msgId)) as [[|]|e] eqn:Hp.
  - now apply step_skipped.
  - destruct (extractEmail record) as [email|e] eqn:He;
      [|now apply step_extract_error with (e := e)].
    destruct dry eqn:Hd; [now apply step_would_create with (email := email)|].
    unfold putObject.
    destruct (s3_putFault s3 (targetKeyOf config msgId)) as [e|] eqn:Hput.
    + now apply step_put_error with (email := email) (e := e).
    + now apply step_created with (email := email).
  - now apply step_probe_error with (e := e).
Qed.

Lemma recordStep_processRecord s3 config limit_ dry key record st sig st' :
  recordStep s3 config limit_ dry key record st sig st' ->
  processRecord s3 config limit_ dry key record st = (sig, st').
Proof.
  intros Hstep. unfold processRecord, tryBlock.
  destruct Hstep;
    repeat match goal with
           | H : geNumber _ _ = _ |- _ => rewrite H; clear H
           | H : Js.truthy _ = _ |- _ => rewrite H; clear H
           end;
    try reflexivity;
    rewrite exists_probe;
    change (objects (count incProcessed st)) with (objects st);
    repeat match goal with
           | H : probe _ _ _ = _ |- _ => rewrite H; clear H
           | H : extractEmail _ = _ |- _ => rewrite H; clear H
           | H : dry = _ |- _ => rewrite H; clear H
           end;
    try reflexivity;
    unfold putObject;
    match goal with H : s3_putFault _ _ = _ |- _ => rewrite H end;
    reflexivity.
Qed.

(** Every turn of the loop body, for any value, is one of the steps. *)
Lemma processValue_valueStep s3 config limit_ dry key value st :
  valueStep s3 config limit_ dry key st value
    (fst (processValue s3 config limit_ dry key value st))
    (snd (processValue s3 config limit_ dry key value st)).
Proof.
  destruct value as [|record].
  - unfold processValue, tryBlockNull, catchBlock.
    destruct (geNumber (processed (counters st)) limit_) eqn:Hl;
      [now apply step_null_limit | now apply step_null_error].
  - apply step_record, processRecord_recordStep.
Qed.

Lemma valueStep_processValue s3 config limit_ dry key value st sig st' :
  valueStep s3 config limit_ dry key st value sig st' ->
  processValue s3 config limit_ dry key value st = (sig, st').
Proof.
  intros [record sig' st'' Hstep|Hl|Hl].
  - now apply recordStep_processRecord.
  - unfold processValue, tryBlockNull. now rewrite Hl.
  - unfold processValue, tryBlockNull, catchBlock. now rewrite Hl.
Qed.

(** ** Invariants of a run *)

Section RunInvariant.

Variable JSON_parse : string -> Exc JsonValue.
Variable s3 : S3Client.
Variable config : AppConfig.
Variable limit_ : JsNumber.
Variable dry : bool.
Variable P : RunState -> Prop.

Hypothesis P_reader : forall ev st, readerEvent ev = true -> P st -> P (emit ev st).
Hypothesis P_step : forall key record st sig st',
  recordStep s3 config limit_ dry key record st sig st' -> P st -> P st'.
Hypothesis P_null : forall st,
  geNumber (processed (counters st)) limit_ = false ->
  P st -> P (count incFailed (count incProcessed st)).

Lemma valueStep_invariant key value st sig st' :
  valueStep s3 config limit_ dry key st value sig st' -> P st -> P st'.
Proof.
  intros [record sig' st'' Hstep|Hl|Hl] Hst.
  - exact (P_step key record st sig' st'' Hstep Hst).
  - exact Hst.
  - exact (P_null st Hl Hst).
Qed.

Lemma readLines_readerItem key lines :
  Forall readerItem (readLines JSON_parse key lines).
Proof.
  unfold readLines. induction lines as [|line rest IH]; simpl; [constructor|].
  apply Forall_app. split; [|exact IH].
  unfold readLine. destruct (Js.isEmpty (Js.trim line)); [constructor|].
  destruct (JSON_parse (Js.trim line)); repeat constructor.
Qed.

Lemma forRecords_invariant key items : forall st,
  Forall readerItem items -> P st ->
  P (snd (forRecords s3 config limit_ dry key items st)).
Proof.
  induction items as [|[value|ev] rest IH]; intros st Hitems Hst; simpl.
  - exact Hst.
  - pose proof (processValue_valueStep s3 config limit_ dry key value st) as Hstep.
    apply valueStep_invariant in Hstep; [|exact Hst].
    destruct (processValue s3 config limit_ dry key value st) as [[| |e] st'];
      simpl in *; trivial.
    apply IH; [now inversion Hitems | exact Hstep].
  - inversion Hitems; subst. apply IH; [assumption|]. now apply P_reader.
Qed.

Lemma forKeys_invariant keys : forall st,
  P st -> P (snd (forKeys s3 config limit_ dry JSON_parse keys st)).
Proof.
  induction keys as [|key rest IH]; intros st Hst; simpl; [exact Hst|].
  assert (Hst' : P (emit (SendGet key) (emit (LogReading key) st)))
    by (do 2 (apply P_reader; [reflexivity|]); exact Hst).
  unfold readJsonlFromS3.
  destruct (s3_lines s3 key) as [lines|e]; simpl; [|exact Hst'].
  pose proof (forRecords_invariant key (readLines JSON_parse key lines) _
                (readLines_readerItem key lines) Hst') as Hrun.
  destruct (forRecords s3 config limit_ dry key _ _) as [[| |e] st'];
    simpl in *; trivial.
  now apply IH.
Qed.

End RunInvariant.

(** A property of the state that the events of the reader, the eight
    steps of a record and the failing step of [null] keep holds at the end
    of every run that it holds at the start of. *)
Lemma processMessages_invariant JSON_parse s3 config opts objects0
      (P : RunState -> Prop) :
  (forall ev st, readerEvent ev = true -> P st -> P (emit ev st)) ->
  (forall key record st sig st',
      recordStep s3 config (default Infinity (limit opts))
        (default false (dryRun opts)) key record st sig st' -> P st -> P st') ->
  (forall st, P st -> P (count incFailed (count incProcessed st))) ->
  P (mkState newCounters objects0 []) ->
  P (snd (processMessages JSON_parse s3 config opts objects0)).
Proof.
  intros Hreader Hstep Hnull H0. unfold processMessages.
  destruct (listJsonlKeys s3 (detailsPrefix config)) as [keys|e]; [|exact H0].
  pose proof (forKeys_invariant JSON_parse s3 config _ _ P Hreader Hstep
                (fun st _ => Hnull st) keys
                _ (Hreader (LogFound (length keys) (detailsPrefix config)) _
                     eq_refl H0)) as Hrun.
  destruct (forKeys _ _ _ _ _ _ _) as [[| |e] st']; exact Hrun.
Qed.

Lemma puts_snoc t ev : puts (t ++ [ev]) = puts t ++ (if isPut ev then [ev] else []).
Proof. unfold puts. rewrite List.filter_app. simpl. now destruct (isPut ev). Qed.

Lemma occurrences_snoc kind t ev :
  occurrences kind (t ++ [ev]) = occurrences kind t + (if kind ev then 1 else 0).
Proof.
  unfold occurrences. rewrite List.filter_app, length_app. simpl.
  now destruct (kind ev).
Qed.

Lemma readerEvent_not_put ev : readerEvent ev = true -> isPut ev = false.
Proof. now destruct ev. Qed.

(** X1.  A dry run leaves the bucket as it found it: whatever the files,
    the limit and the faults of the store, it sends no PutObject, the
    objects at the end are the objects at the start, and [created] is 0. *)
Theorem dryRun_leaves_bucket :
  forall (JSON_parse : string -> Exc JsonValue) (s3 : S3Client)
         (config : AppConfig) (limitOpt : option JsNumber)
         (objects0 : gmap string string),
    let run := processMessages JSON_parse s3 config
                 (mkOptions limitOpt (Some true)) objects0 in
    objects (snd run) = objects0 /\
    puts (trace (snd run)) = [] /\
    created (counters (snd run)) = 0.
Proof.
  intros JSON_parse s3 config limitOpt objects0.
  apply (processMessages_invariant JSON_parse s3 config
           (mkOptions limitOpt (Some true)) objects0
           (fun st => objects st = objects0 /\ puts (trace st) = [] /\
                      created (counters st) = 0)).
  - intros ev st Hev (Ho & Hp & Hc). simpl.
    rewrite puts_snoc, (readerEvent_not_put ev Hev), app_nil_r. auto.
  - intros key record st sig st' Hstep (Ho & Hp & Hc).
    destruct Hstep; simpl in *; try discriminate;
      rewrite ?puts_snoc; simpl; rewrite ?app_nil_r; auto.
  - intros st H. exact H.
  - repeat split.
Qed.

(** X2.  The counters account for every record.  At the end of every run,
    resolved or rejected, [processed] is the sum of [created], [skipped],
    [failed] and the number of "would create" lines; [created] is the
    number of "Created" lines and [skipped] the number of "Skipping" lines
    written. *)
Theorem counters_account_for_records :
  forall (JSON_parse : string -> Exc JsonValue) (s3 : S3Client)
         (config : AppConfig) (opts : ProcessorOptions)
         (objects0 : gmap string string),
    let run := processMessages JSON_parse s3 config opts objects0 in
    let c := counters (snd run) in
    let t := trace (snd run) in
    processed c = created c + skipped c + failed c + occurrences isWouldCreate t /\
    created c = occurrences isCreated t /\
    skipped c = occurrences isSkipping t.
Proof.
  intros JSON_parse s3 config opts objects0.
  apply (processMessages_invariant JSON_parse s3 config opts objects0
           (fun st =>
              processed (counters st)
              = created (counters st) + skipped (counters st)
                + failed (counters st) + occurrences isWouldCreate (trace st) /\
              created (counters st) = occurrences isCreated (trace st) /\
              skipped (counters st) = occurrences isSkipping (trace st))).
  - intros ev st Hev (Hp & Hc & Hs). simpl. rewrite !occurrences_snoc.
    destruct ev; try discriminate Hev; simpl; lia.
  - intros key record st sig st' Hstep (Hp & Hc & Hs).
    destruct Hstep; simpl in *; rewrite ?occurrences_snoc; simpl; lia.
  - intros st (Hp & Hc & Hs). simpl. lia.
  - repeat split.
Qed.

(** ** What a run writes *)


Lemma toLowerCase_append a b :
  Js.toLowerCase (a +:+ b) = Js.toLowerCase a +:+ Js.toLowerCase b.
Proof.
  induction a as [|x a IH]; [reflexivity|].
  rewrite append_cons. simpl. now rewrite IH, append_cons.
Qed.



(** A key ending in ".eml" is not a record file for [listJsonlKeys]. *)
Lemma eml_not_jsonl x :
  Js.endsWith (Js.toLowerCase (x +:+ ".eml")) ".jsonl" = false.
Proof.
  unfold Js.endsWith. rewrite toLowerCase_append, rev_append. reflexivity.
Qed.

Lemma targetKeyOf_not_jsonl config msgId :
  isJsonlKey (Some (targetKeyOf config msgId)) = None.
Proof.
  unfold isJsonlKey, targetKeyOf.
  destruct (Js.truthy _) as [k|] eqn:Hk; [|reflexivity].
  assert (k = (rawFilesPrefix config +:+ workspaceId config +:+ "/gmail/" +:+ msgId)
              +:+ ".eml") as ->.
  { rewrite !append_assoc. simpl in Hk.
    destruct (Js.isEmpty _); congruence. }
  now rewrite eml_not_jsonl.
Qed.

(** X3.  Whatever a run writes, it writes at a target key.  Every
    PutObject of every run is sent for a key
    [rawFilesPrefix + workspaceId + "/gmail/" + msgId + ".eml"], with content
    type message/rfc822.  Such a key is never one that [listJsonlKeys]
    returns: the run does not write into its own input. *)
Theorem writes_only_target_keys :
  forall (JSON_parse : string -> Exc JsonValue) (s3 : S3Client)
         (config : AppConfig) (opts : ProcessorOptions)
         (objects0 : gmap string string) (key body contentType : string),
    In (SendPut key body contentType)
       (trace (snd (processMessages JSON_parse s3 config opts objects0))) ->
    (exists msgId, key = targetKeyOf config msgId) /\
    contentType = "message/rfc822" /\
    isJsonlKey (Some key) = None.
Proof.
  intros JSON_parse s3 config opts objects0 key body contentType.
  apply (processMessages_invariant JSON_parse s3 config opts objects0
           (fun st => In (SendPut key body contentType) (trace st) ->
                      (exists msgId, key = targetKeyOf config msgId) /\
                      contentType = "message/rfc822" /\
                      isJsonlKey (Some key) = None)).
  - intros ev st Hev IH Hin. simpl in Hin. apply in_app_or in Hin as [Hin|Hin];
      [now apply IH|].
    destruct Hin as [->|[]]. discriminate Hev.
  - intros k record st sig st' Hstep IH Hin.
    destruct Hstep; simpl in Hin;
      repeat (apply in_app_or in Hin as [Hin|Hin];
              [|destruct Hin as [Hin|[]]; try discriminate Hin]);
      try (now apply IH);
      injection Hin as <- <- <-;
      (split; [now exists msgId | split; [reflexivity|]]);
      apply targetKeyOf_not_jsonl.
  - intros st IH. exact IH.
  - intros [].
Qed.

Lemma writes_only_target_keys_witness :
  isJsonlKey (Some "raw/raw-files/ws1/gmail/m1.eml") = None.
Proof.
  refine (proj2 (proj2 (writes_only_target_keys Sample.parse
           (Sample.s3 ["{m1}"]) Sample.cfg (mkOptions None None) ∅
           "raw/raw-files/ws1/gmail/m1.eml"
           (toEml (mkEmail "m1" (Some "Hi") None None None None None TextPlain
                     "hello" None))
           "message/rfc822" _))).
  vm_compute. do 5 right. left. reflexivity.
Defined.

(** ** The bucket only grows *)

Lemma probe_absent s3 objs key :
  honestProbe s3 -> probe s3 objs key = Ok false -> objs !! key = None.
Proof.
  intros Hh. unfold probe.
  destruct (s3_headFault s3 key) as [e|] eqn:Hf.
  - destruct (Hh key e Hf) as [Hs Hn].
    rewrite bool_decide_eq_false_2 by exact Hs. rewrite Hn. discriminate.
  - destruct (objs !! key); [discriminate | reflexivity].
Qed.

(** X4.  On a store whose probe failures are never "not found" answers, a
    run overwrites and deletes nothing: every object of the bucket is there
    at the end with the same content, and every other object at the end was
    written by this run at a target key that was free, with the content of
    its PutObject. *)
Theorem bucket_only_grows :
  forall (JSON_parse : string -> Exc JsonValue) (s3 : S3Client)
         (config : AppConfig) (opts : ProcessorOptions)
         (objects0 : gmap string string),
    honestProbe s3 ->
    let run := processMessages JSON_parse s3 config opts objects0 in
    (forall key v, objects0 !! key = Some v -> objects (snd run) !! key = Some v) /\
    (forall key v,
        objects (snd run) !! key = Some v ->
        objects0 !! key = Some v \/
        (objects0 !! key = None /\
         (exists msgId, key = targetKeyOf config msgId) /\
         In (SendPut key v "message/rfc822") (trace (snd run)))).
Proof.
  intros JSON_parse s3 config opts objects0 Hh.
  apply (processMessages_invariant JSON_parse s3 config opts objects0
           (fun st =>
              (forall key v, objects0 !! key = Some v -> objects st !! key = Some v) /\
              (forall key v,
                  objects st !! key = Some v ->
                  objects0 !! key = Some v \/
                  (objects0 !! key = None /\
                   (exists msgId, key = targetKeyOf config msgId) /\
                   In (SendPut key v "message/rfc822") (trace st))))).
  - intros ev st _ [Hold Hnew]. split; [exact Hold|].
    intros key v Hv. destruct (Hnew key v Hv) as [H|(H0 & Hk & Hin)]; [now left|].
    right. repeat split; trivial. simpl. apply in_or_app. now left.
  - intros k record st sig st' Hstep [Hold Hnew].
    assert (Hkeep : forall t' : list Event,
               forall key v, objects st !! key = Some v ->
                 objects0 !! key = Some v \/
                 (objects0 !! key = None /\
                  (exists msgId, key = targetKeyOf config msgId) /\
                  In (SendPut key v "message/rfc822") (trace st ++ t'))).
    { intros t' key v Hv. destruct (Hnew key v Hv) as [H|(H0 & Hk & Hin)];
        [now left|]. right. repeat split; trivial. apply in_or_app. now left. }
    destruct Hstep; simpl; try (split; [exact Hold|]);
      try exact Hnew;
      try (intros key v Hv; rewrite <- ?app_assoc; now apply Hkeep).
    pose proof (probe_absent _ _ _ Hh H1) as Habs.
    split.
    + intros key v Hv. destruct (decide (targetKeyOf config msgId = key)) as [<-|Hne].
      * rewrite (Hold _ _ Hv) in Habs. discriminate.
      * rewrite lookup_insert_ne by exact Hne. now apply Hold.
    + intros key v Hv.
      destruct (decide (targetKeyOf config msgId = key)) as [<-|Hne].
      * rewrite lookup_insert_eq in Hv. injection Hv as <-. right.
        split; [|split; [now exists msgId|]].
        -- destruct (objects0 !! targetKeyOf config msgId) as [v0|] eqn:E;
             [|reflexivity].
           rewrite (Hold _ _ E) in Habs. discriminate.
        -- apply in_or_app. left. apply in_or_app. right. now left.
      * rewrite lookup_insert_ne in Hv by exact Hne.
        rewrite <- !app_assoc. now apply Hkeep.
  - intros st H. exact H.
  - split; [auto|]. intros key v Hv. now left.
Qed.

Lemma bucket_only_grows_witness :
  objects (snd (processMessages Sample.parse (Sample.s3 ["{m1}"]) Sample.cfg
                  (mkOptions None None) {[ "kept" := "as it was" ]})) !! "kept"
  = Some "as it was".
Proof.
  refine (proj1 (bucket_only_grows Sample.parse (Sample.s3 ["{m1}"]) Sample.cfg
                   (mkOptions None None) {[ "kept" := "as it was" ]} _)
            "kept" "as it was" _).
  - intros key e H. discriminate H.
  - reflexivity.
Defined.

(** ** Runs that resolve *)

Section ResolvedInvariant.

Variable JSON_parse : string -> Exc JsonValue.
Variable s3 : S3Client.
Variable config : AppConfig.
Variable limit_ : JsNumber.
Variable dry : bool.
Variable P : RunState -> Prop.

Hypothesis P_reader : forall ev st, readerEvent ev = true -> P st -> P (emit ev st).
Hypothesis P_step : forall key record st sig st',
  recordStep s3 config limit_ dry key record st sig st' ->
  (forall e, sig <> Raise e) -> P st -> P st'.

Lemma valueStep_resolved key value st sig st' :
  valueStep s3 config limit_ dry key st value sig st' ->
  (forall e, sig <> Raise e) -> P st -> P st'.
Proof.
  intros [record sig' st'' Hstep|Hl|Hl] Hsig Hst.
  - exact (P_step key record st sig' st'' Hstep Hsig Hst).
  - exact Hst.
  - now destruct (Hsig (ReferenceError "msgId")).
Qed.

Lemma forRecords_resolved key items : forall st sig st',
  Forall readerItem items -> P st ->
  forRecords s3 config limit_ dry key items st = (sig, st') ->
  (forall e, sig <> Raise e) -> P st'.
Proof.
  induction items as [|[value|ev] rest IH]; intros st sig st' Hitems Hst Hrun Hsig;
    simpl in Hrun.
  - now injection Hrun as <- <-.
  - pose proof (processValue_valueStep s3 config limit_ dry key value st) as Hstep.
    destruct (processValue s3 config limit_ dry key value st) as [s sta].
    simpl in Hstep. destruct s as [| |e].
    + apply (IH sta sig st'); trivial; [now inversion Hitems|].
      apply (valueStep_resolved _ _ _ _ _ Hstep); [discriminate | exact Hst].
    + injection Hrun as <- <-.
      apply (valueStep_resolved _ _ _ _ _ Hstep); [discriminate | exact Hst].
    + injection Hrun as <- <-. now destruct (Hsig e).
  - inversion Hitems; subst.
    apply (IH (emit ev st) sig st'); trivial. now apply P_reader.
Qed.

Lemma forKeys_resolved keys : forall st sig st',
  P st ->
  forKeys s3 config limit_ dry JSON_parse keys st = (sig, st') ->
  (forall e, sig <> Raise e) -> P st'.
Proof.
  induction keys as [|key rest IH]; intros st sig st' Hst Hrun Hsig; simpl in Hrun.
  - now injection Hrun as <- <-.
  - assert (Hst' : P (emit (SendGet key) (emit (LogReading key) st)))
      by (do 2 (apply P_reader; [reflexivity|]); exact Hst).
    unfold readJsonlFromS3 in Hrun.
    destruct (s3_lines s3 key) as [lines|e]; simpl in Hrun;
      [|injection Hrun as <- <-; now destruct (Hsig e)].
    destruct (forRecords s3 config limit_ dry key _ _) as [s sta] eqn:Hrec.
    destruct s as [| |e].
    + apply (IH sta sig st'); trivial.
      eapply forRecords_resolved; eauto using readLines_readerItem;
        try discriminate.
    + injection Hrun as <- <-.
      eapply forRecords_resolved; eauto using readLines_readerItem;
        try discriminate.
    + injection Hrun as <- <-. now destruct (Hsig e).
Qed.

End ResolvedInvariant.

Lemma processMessages_resolved JSON_parse s3 config opts objects0
      (P : RunState -> Prop) c :
  (forall ev st, readerEvent ev = true -> P st -> P (emit ev st)) ->
  (forall key record st sig st',
      recordStep s3 config (default Infinity (limit opts))
        (default false (dryRun opts)) key record st sig st' ->
      (forall e, sig <> Raise e) -> P st -> P st') ->
  P (mkState newCounters objects0 []) ->
  fst (processMessages JSON_parse s3 config opts objects0) = Ok c ->
  P (snd (processMessages JSON_parse s3 config opts objects0)).
Proof.
  intros Hreader Hstep H0. unfold processMessages.
  destruct (listJsonlKeys s3 (detailsPrefix config)) as [keys|e]; [|discriminate].
  destruct (forKeys _ _ _ _ _ _ _) as [s st'] eqn:Hrun.
  intros Hok.
  assert (Hsig : forall e, s <> Raise e) by (intros e ->; discriminate Hok).
  assert (Hend : P st').
  { eapply (forKeys_resolved JSON_parse s3 config _ _ P Hreader Hstep keys);
      [|exact Hrun|exact Hsig].
    apply Hreader; [reflexivity | exact H0]. }
  destruct s; exact Hend.
Qed.

(** X5.  In a run that resolves, [failed] counts the records without an id
    and nothing else: it is the number of "Missing message id" warnings.
    No probe, extraction or write failed in such a run, and there is a
    PutObject for each "Created" line and no other. *)
Theorem resolved_run_failures :
  forall (JSON_parse : string -> Exc JsonValue) (s3 : S3Client)
         (config : AppConfig) (opts : ProcessorOptions)
         (objects0 : gmap string string) (c : Counters),
    let run := processMessages JSON_parse s3 config opts objects0 in
    fst run = Ok c ->
    c = counters (snd run) /\
    failed c = occurrences isMissingId (trace (snd run)) /\
    occurrences isPut (trace (snd run)) = created c.
Proof.
  intros JSON_parse s3 config opts objects0 c run Hok.
  pose proof (processMessages_state _ _ _ _ _ _ Hok) as Hc.
  split; [exact Hc|]. rewrite Hc.
  apply (processMessages_resolved JSON_parse s3 config opts objects0
           (fun st => failed (counters st) = occurrences isMissingId (trace st) /\
                      occurrences isPut (trace st) = created (counters st)) c);
    [| |repeat split|exact Hok].
  - intros ev st Hev [Hf Hp]. simpl. rewrite !occurrences_snoc.
    destruct ev; try discriminate Hev; simpl; lia.
  - intros key record st sig st' Hstep Hsig [Hf Hp].
    destruct Hstep; simpl in *; rewrite ?occurrences_snoc; simpl;
      try (now destruct (Hsig (ReferenceError "msgId")));
      try (unfold occurrences; rewrite ?List.filter_app, ?length_app; simpl);
      unfold occurrences in *; lia.
Qed.

Lemma resolved_run_failures_witness :
  occurrences isPut
    (trace (snd (processMessages Sample.parse (Sample.s3 ["{m1}"; "{m2}"])
                   Sample.cfg (mkOptions None None) ∅)))
  = created (mkCounters 2 2 0 0).
Proof.
  refine (proj2 (proj2 (resolved_run_failures Sample.parse
                          (Sample.s3 ["{m1}"; "{m2}"]) Sample.cfg
                          (mkOptions None None) ∅ (mkCounters 2 2 0 0) _))).
  vm_compute. reflexivity.
Defined.

(** ** Running again *)

Section Rerun.

Variable JSON_parse : string -> Exc JsonValue.
Variable s3 : S3Client.
Variable config : AppConfig.
Variable limit_ : JsNumber.
Hypothesis no_fault : faultless s3.

Lemma faultless_honest : honestProbe s3.
Proof. intros key e H. destruct (no_fault key) as [Hh _]. congruence. Qed.

Lemma probe_faultless objs key :
  probe s3 objs key = Ok (bool_decide (is_Some (objs !! key))).
Proof.
  unfold probe. destruct (no_fault key) as [-> _].
  destruct (objs !! key) eqn:E.
  - now rewrite bool_decide_eq_true_2 by eauto.
  - rewrite bool_decide_eq_false_2; [reflexivity|]. intros [v Hv]. discriminate.
Qed.

(** One step of a fault-free run keeps every object, and leaves an object
    at the target key of the record when it goes on to the next record
    with an id. *)
Lemma recordStep_grows dry key record st sig st' :
  recordStep s3 config limit_ dry key record st sig st' ->
  objects st ⊆ objects st'.
Proof.
  intros Hstep. destruct Hstep; simpl; try reflexivity.
  apply insert_subseteq. eapply probe_absent; [exact faultless_honest | eassumption].
Qed.

Lemma forRecords_grows key items st :
  Forall readerItem items ->
  objects st ⊆ objects (snd (forRecords s3 config limit_ false key items st)).
Proof.
  intros Hitems.
  apply (forRecords_invariant s3 config limit_ false
           (fun st' => objects st ⊆ objects st')); trivial.
  intros k record sta sig stb Hstep Hsub.
  etransitivity; [exact Hsub|]. eapply recordStep_grows; eauto.
Qed.

Lemma forKeys_grows keys st :
  objects st ⊆ objects (snd (forKeys s3 config limit_ false JSON_parse keys st)).
Proof.
  apply (forKeys_invariant JSON_parse s3 config limit_ false
           (fun st' => objects st ⊆ objects st')); trivial.
  intros k record sta sig stb Hstep Hsub.
  etransitivity; [exact Hsub|]. eapply recordStep_grows; eauto.
Qed.

(** The same record, in the second run: the limit stops it where it
    stopped the first run, a record without an id fails again, and every
    other record is skipped. *)
Lemma processRecord_rerun key record st1 st2 sig st1' final :
  processRecord s3 config limit_ false key record st1 = (sig, st1') ->
  (forall e, sig <> Raise e) ->
  objects st1' ⊆ final ->
  rerunOf final st1 st2 ->
  exists st2',
    processRecord s3 config limit_ false key record st2 = (sig, st2') /\
    rerunOf final st1' st2'.
Proof.
  intros Hrun Hsig Hsub (Hp & Hf & Hs & Hc & Ho & Hputs).
  pose proof (processRecord_recordStep s3 config limit_ false key record st1) as Hstep.
  rewrite Hrun in Hstep. simpl in Hstep.
  assert (Hskip : forall msgId v,
             Js.truthy (msgIdOf record) = Some msgId ->
             geNumber (processed (counters st1)) limit_ = false ->
             objects st1' !! targetKeyOf config msgId = Some v ->
             processRecord s3 config limit_ false key record st2
             = (Next, emit (LogSkipping (targetKeyOf config msgId))
                        (count incSkipped (probed config msgId st2)))).
  { intros msgId v Hid Hl Hv. apply recordStep_processRecord.
    apply step_skipped; trivial; [now rewrite Hp|].
    rewrite probe_faultless, Ho.
    rewrite bool_decide_eq_true_2; [reflexivity|].
    exists v. eapply lookup_weaken; eauto. }
  destruct Hstep; try (now destruct (Hsig (ReferenceError "msgId")));
    try discriminate.
  - exists st2. split.
    + apply recordStep_processRecord, step_limit. now rewrite Hp.
    + repeat split; trivial.
  - eexists. split.
    + apply recordStep_processRecord, step_missing_id; trivial. now rewrite Hp.
    + unfold rerunOf. simpl. rewrite puts_snoc. simpl.
      rewrite app_nil_r. repeat split; trivial; lia.
  - rewrite probe_faultless in H1. injection H1 as H1.
    apply bool_decide_eq_true_1 in H1 as [v Hv].
    eexists. split; [eapply (Hskip msgId v); trivial|].
    unfold rerunOf. simpl. rewrite !puts_snoc. simpl.
    rewrite !app_nil_r. repeat split; trivial; lia.
  - eexists. split.
    + eapply (Hskip msgId (toEml email)); trivial. simpl. apply lookup_insert_eq.
    + unfold rerunOf. simpl. rewrite !puts_snoc. simpl.
      rewrite !app_nil_r. repeat split; trivial; lia.
Qed.

Lemma processValue_rerun key value st1 st2 sig st1' final :
  processValue s3 config limit_ false key value st1 = (sig, st1') ->
  (forall e, sig <> Raise e) ->
  objects st1' ⊆ final ->
  rerunOf final st1 st2 ->
  exists st2',
    processValue s3 config limit_ false key value st2 = (sig, st2') /\
    rerunOf final st1' st2'.
Proof.
  destruct value as [|record]; [|apply processRecord_rerun].
  intros Hrun Hsig Hsub Hrel. revert Hrun.
  unfold processValue, tryBlockNull, catchBlock.
  destruct Hrel as (Hp & Hrest). rewrite Hp.
  destruct (geNumber (processed (counters st1)) limit_).
  - intros [= <- <-]. exists st2. split; [reflexivity | now split].
  - intros [= <- <-]. now destruct (Hsig (ReferenceError "msgId")).
Qed.

Lemma forRecords_rerun key items final : forall st1 st2 sig st1',
  Forall readerItem items ->
  forRecords s3 config limit_ false key items st1 = (sig, st1') ->
  (forall e, sig <> Raise e) ->
  objects st1' ⊆ final ->
  rerunOf final st1 st2 ->
  exists st2',
    forRecords s3 config limit_ false key items st2 = (sig, st2') /\
    rerunOf final st1' st2'.
Proof.
  induction items as [|[value|ev] rest IH];
    intros st1 st2 sig st1' Hitems Hrun Hsig Hsub Hrel; simpl in Hrun.
  - injection Hrun as <- <-. exists st2. split; [reflexivity | exact Hrel].
  - destruct (processValue s3 config limit_ false key value st1)
      as [s sta] eqn:Hrec.
    assert (Hrest : Forall readerItem rest) by now inversion Hitems.
    destruct s as [| |e].
    + assert (Hsub' : objects sta ⊆ final).
      { etransitivity; [|exact Hsub].
        pose proof (forRecords_grows key rest sta Hrest) as Hg.
        now rewrite Hrun in Hg. }
      destruct (processValue_rerun key value st1 st2 Next sta final Hrec
                  ltac:(discriminate) Hsub' Hrel) as (stb & Hrec2 & Hrel').
      destruct (IH sta stb sig st1' Hrest Hrun Hsig Hsub Hrel')
        as (st2' & Hrun2 & Hrel2).
      exists st2'. simpl. rewrite Hrec2. split; [exact Hrun2 | exact Hrel2].
    + injection Hrun as <- <-.
      destruct (processValue_rerun key value st1 st2 Return sta final Hrec
                  ltac:(discriminate) Hsub Hrel) as (stb & Hrec2 & Hrel').
      exists stb. simpl. rewrite Hrec2. split; [reflexivity | exact Hrel'].
    + injection Hrun as <- <-. now destruct (Hsig e).
  - inversion Hitems as [|? ? Hev Hrest]; subst.
    apply (IH (emit ev st1) (emit ev st2) sig st1' Hrest Hrun Hsig Hsub).
    destruct Hrel as (Hp & Hf & Hs & Hc & Ho & Hputs).
    unfold rerunOf. simpl. rewrite puts_snoc.
    simpl in Hev. rewrite (readerEvent_not_put ev Hev), app_nil_r.
    repeat split; trivial.
Qed.

Lemma rerunOf_emit final st1 st2 ev :
  readerEvent ev = true -> rerunOf final st1 st2 ->
  rerunOf final (emit ev st1) (emit ev st2).
Proof.
  intros Hev (Hp & Hf & Hs & Hc & Ho & Hputs).
  unfold rerunOf. simpl. rewrite puts_snoc.
  rewrite (readerEvent_not_put ev Hev), app_nil_r. repeat split; trivial.
Qed.

Lemma forKeys_rerun keys final : forall st1 st2 sig st1',
  forKeys s3 config limit_ false JSON_parse keys st1 = (sig, st1') ->
  (forall e, sig <> Raise e) ->
  objects st1' ⊆ final ->
  rerunOf final st1 st2 ->
  exists st2',
    forKeys s3 config limit_ false JSON_parse keys st2 = (sig, st2') /\
    rerunOf final st1' st2'.
Proof.
  induction keys as [|key rest IH];
    intros st1 st2 sig st1' Hrun Hsig Hsub Hrel; simpl in Hrun.
  - injection Hrun as <- <-. exists st2. split; [reflexivity | exact Hrel].
  - simpl. unfold readJsonlFromS3 in *.
    destruct (s3_lines s3 key) as [lines|e]; simpl in *;
      [|injection Hrun as <- <-; now destruct (Hsig e)].
    pose proof (readLines_readerItem JSON_parse key lines) as Hitems.
    destruct (forRecords s3 config limit_ false key
                (readLines JSON_parse key lines)
                (emit (SendGet key) (emit (LogReading key) st1)))
      as [s sta] eqn:Hrec.
    assert (Hrel0 : rerunOf final (emit (SendGet key) (emit (LogReading key) st1))
                      (emit (SendGet key) (emit (LogReading key) st2)))
      by (do 2 (apply rerunOf_emit; [reflexivity|]); exact Hrel).
    destruct s as [| |e].
    + assert (Hsub' : objects sta ⊆ final).
      { etransitivity; [|exact Hsub].
        pose proof (forKeys_grows rest sta) as Hg. now rewrite Hrun in Hg. }
      destruct (forRecords_rerun key _ final _ _ Next sta Hitems Hrec
                  ltac:(discriminate) Hsub' Hrel0) as (stb & Hrec2 & Hrel').
      destruct (IH sta stb sig st1' Hrun Hsig Hsub Hrel') as (st2' & Hrun2 & Hrel2).
      exists st2'. rewrite Hrec2. split; [exact Hrun2 | exact Hrel2].
    + injection Hrun as <- <-.
      destruct (forRecords_rerun key _ final _ _ Return sta Hitems Hrec
                  ltac:(discriminate) Hsub Hrel0) as (stb & Hrec2 & Hrel').
      exists stb. rewrite Hrec2. split; [reflexivity | exact Hrel'].
    + injection Hrun as <- <-. now destruct (Hsig e).
Qed.

End Rerun.

(** X6.  Running again creates nothing.  On a store without faults, when a
    run without [dryRun] resolves, the same run started again on the bucket
    it left resolves too, with the same [processed] and [failed], with
    [created] at 0 and every record the first run created or skipped now
    skipped; it sends no PutObject and leaves the bucket as it found it. *)
Theorem rerun_creates_nothing :
  forall (JSON_parse : string -> Exc JsonValue) (s3 : S3Client)
         (config : AppConfig) (opts : ProcessorOptions)
         (objects0 : gmap string string) (c1 : Counters),
    faultless s3 ->
    default false (dryRun opts) = false ->
    let run1 := processMessages JSON_parse s3 config opts objects0 in
    fst run1 = Ok c1 ->
    let run2 := processMessages JSON_parse s3 config opts (objects (snd run1)) in
    exists c2,
      fst run2 = Ok c2 /\
      created c2 = 0 /\
      processed c2 = processed c1 /\
      failed c2 = failed c1 /\
      skipped c2 = skipped c1 + created c1 /\
      objects (snd run2) = objects (snd run1) /\
      puts (trace (snd run2)) = [].
Proof.
  intros JSON_parse s3 config opts objects0 c1 Hfl Hdry run1 Hok run2.
  pose proof (processMessages_state _ _ _ _ _ _ Hok) as Hc1.
  subst run2. revert Hok Hc1. subst run1. unfold processMessages.
  rewrite Hdry.
  destruct (listJsonlKeys s3 (detailsPrefix config)) as [keys|e]; [|discriminate].
  destruct (forKeys s3 config _ false JSON_parse keys
              (emit (LogFound (length keys) (detailsPrefix config))
                 (mkState newCounters objects0 []))) as [s st1'] eqn:Hrun1.
  intros Hok Hc1.
  assert (Hsig : forall e, s <> Raise e) by (intros e ->; discriminate Hok).
  assert (Hst1 : (match s with
                  | Raise e => (Throw (A := Counters) e, st1')
                  | _ => (Ok (counters st1'), st1')
                  end).2 = st1') by (destruct s; reflexivity).
  rewrite Hst1 in *.
  destruct (forKeys_rerun JSON_parse s3 config _ Hfl keys (objects st1')
              _ (emit (LogFound (length keys) (detailsPrefix config))
                   (mkState newCounters (objects st1') []))
              s st1' Hrun1 Hsig ltac:(reflexivity))
    as (st2' & Hrun2 & (Hp & Hf & Hs & Hc & Ho & Hputs)).
  { repeat split. }
  rewrite Hrun2. exists (counters st2').
  assert (Hst2 : (match s with
                  | Raise e => (Throw (A := Counters) e, st2')
                  | _ => (Ok (counters st2'), st2')
                  end) = (Ok (counters st2'), st2')).
  { destruct s as [| |e]; trivial. now destruct (Hsig e). }
  rewrite Hst2. simpl. subst c1. repeat split; trivial.
Qed.

Lemma rerun_creates_nothing_witness :
  exists c2,
    fst (processMessages Sample.parse (Sample.s3 ["{m1}"; "{m2}"]) Sample.cfg
           (mkOptions None None)
           (objects (snd (processMessages Sample.parse
                            (Sample.s3 ["{m1}"; "{m2}"]) Sample.cfg
                            (mkOptions None None) ∅)))) = Ok c2 /\
    created c2 = 0 /\ skipped c2 = 2.
Proof.
  assert (Hfirst : fst (processMessages Sample.parse
                          (Sample.s3 ["{m1}"; "{m2}"]) Sample.cfg
                          (mkOptions None None) ∅) = Ok (mkCounters 2 2 0 0))
    by (vm_compute; reflexivity).
  destruct (rerun_creates_nothing Sample.parse (Sample.s3 ["{m1}"; "{m2}"])
              Sample.cfg (mkOptions None None) ∅ (mkCounters 2 2 0 0)
              (fun _ => conj eq_refl eq_refl) eq_refl Hfirst)
    as (c2 & Hok & Hc & _ & _ & Hs & _).
  exists c2. split; [exact Hok|]. split; [exact Hc | exact Hs].
Defined.

(** ** The search for a body part, over the whole tree *)

Lemma GmailPart_tree_ind (P : GmailPart -> Prop) :
  (forall ty fn hs b parts,
      (forall ps, parts = Some ps -> Forall P ps) ->
      P (mkPart ty fn hs b parts)) ->
  forall part, P part.
Proof.
  intros H. fix IH 1. intros [ty fn hs b parts]. apply H.
  destruct parts as [ps0|]; [|intros ps [=]].
  assert (HF : Forall P ps0).
  { induction ps0 as [|p ps0 IHps]; constructor; [apply IH | exact IHps]. }
  intros ps [= <-]. exact HF.
Qed.

Lemma nodes_unfold part :
  nodes part = part :: flat_map nodes (children part).
Proof. destruct part as [ty fn hs b [ps|]]; reflexivity. Qed.

Lemma childIs_leafMatch ty c :
  ty = "text/html" \/ ty = "text/plain" ->
  childIs ty c = true ->
  exists d, bodyData c = Some d /\ leafMatch c = Some d.
Proof.
  intros Hty Hc. unfold childIs in Hc.
  apply andb_true_iff in Hc as [Hm Hd].
  apply bool_decide_eq_true_1 in Hd as [d Hd]. exists d. split; [exact Hd|].
  unfold leafMatch, isMultipart.
  destruct (p_mimeType c) as [m|]; [|exact Hd].
  replace (Js.startsWith (Js.toLowerCase m) "multipart/") with false; [exact Hd|].
  simpl in Hm. destruct (Js.isEmpty m) eqn:Hm0.
  - destruct m; [reflexivity | discriminate].
  - simpl in Hm. apply String.eqb_eq in Hm. rewrite Hm.
    destruct Hty as [-> | ->]; reflexivity.
Qed.

Lemma findChild_sound ty parts f :
  ty = "text/html" \/ ty = "text/plain" ->
  findChild ty parts = Some f ->
  exists c, In c parts /\ leafMatch c = Some (fdata f).
Proof.
  intros Hty. unfold findChild.
  destruct (List.find (childIs ty) parts) as [c|] eqn:Hfind; [|discriminate].
  apply find_some in Hfind as [Hin Hc].
  destruct (childIs_leafMatch ty c Hty Hc) as (d & Hd & Hleaf).
  rewrite Hd. simpl. intros [= <-]. exists c. auto.
Qed.

Lemma in_nodes_self part : In part (nodes part).
Proof. rewrite nodes_unfold. now left. Qed.

Lemma in_nodes_child part c n :
  In c (children part) -> In n (nodes c) -> In n (nodes part).
Proof.
  intros Hc Hn. rewrite nodes_unfold. right. apply in_flat_map. eauto.
Qed.

(** What is found is the body data of a part of the tree that is a leaf
    match. *)
Lemma findPartIn_sound preferHtml : forall part f,
  findPartIn part preferHtml = Some f ->
  exists n, In n (nodes part) /\ leafMatch n = Some (fdata f).
Proof.
  induction part as [ty fn hs b parts IH] using GmailPart_tree_ind.
  intros f. rewrite findPartIn_unfold.
  set (part := mkPart ty fn hs b parts) in *.
  destruct (leafMatch part) as [d|] eqn:Hleaf.
  { intros [= <-]. exists part. split; [apply in_nodes_self | exact Hleaf]. }
  assert (Hchild : forall ty' g, ty' = "text/html" \/ ty' = "text/plain" ->
             findChild ty' (children part) = Some g ->
             exists n, In n (nodes part) /\ leafMatch n = Some (fdata g)).
  { intros ty' g Hty Hg.
    destruct (findChild_sound ty' _ g Hty Hg) as (c & Hin & Hc).
    exists c. split; [|exact Hc].
    eapply in_nodes_child; [exact Hin | apply in_nodes_self]. }
  destruct (if preferHtml then findChild "text/html" (children part) else None)
    as [g|] eqn:Hhtml.
  { intros [= <-]. destruct preferHtml; [|discriminate].
    apply (Hchild "text/html"); auto. }
  destruct (findChild "text/plain" (children part)) as [g|] eqn:Hplain.
  { intros [= <-]. apply (Hchild "text/plain"); auto. }
  intros Hrec. apply firstFound_Some in Hrec as (l1 & p & l2 & Hsplit & Hp & _).
  assert (Hin : In p (children part)).
  { rewrite Hsplit. apply in_or_app. right. now left. }
  assert (HP : forall g, findPartIn p preferHtml = Some g ->
             exists n, In n (nodes p) /\ leafMatch n = Some (fdata g)).
  { unfold children in Hin. subst part. simpl in Hin.
    destruct parts as [ps|]; [|destruct Hin].
    specialize (IH ps eq_refl). rewrite Forall_forall in IH.
    apply IH. apply list_elem_of_In. exact Hin. }
  destruct (HP f Hp) as (n & Hn & Hleafn).
  exists n. split; [|exact Hleafn]. eapply in_nodes_child; eauto.
Qed.

(** Nothing is found only when no part of the tree is a leaf match. *)
Lemma findPartIn_complete preferHtml : forall part,
  findPartIn part preferHtml = None ->
  forall n, In n (nodes part) -> leafMatch n = None.
Proof.
  induction part as [ty fn hs b parts IH] using GmailPart_tree_ind.
  rewrite findPartIn_unfold.
  set (part := mkPart ty fn hs b parts) in *.
  destruct (leafMatch part) as [d|] eqn:Hleaf; [discriminate|].
  destruct (if preferHtml then findChild "text/html" (children part) else None);
    [discriminate|].
  destruct (findChild "text/plain" (children part)); [discriminate|].
  intros Hrec n Hn. apply firstFound_None in Hrec.
  rewrite nodes_unfold in Hn. destruct Hn as [<-|Hn]; [exact Hleaf|].
  apply in_flat_map in Hn as (c & Hc & Hn).
  unfold children in Hc, Hrec. subst part. simpl in Hc, Hrec.
  destruct parts as [ps|]; [|destruct Hc].
  specialize (IH ps eq_refl). rewrite Forall_forall in IH.
  rewrite List.Forall_forall in Hrec.
  apply (IH c); [now apply list_elem_of_In | now apply Hrec | exact Hn].
Qed.

(** X7.  The search for a body part is sound and complete over the whole
    tree, at any depth.  A part is found exactly when some part of the tree
    is not of the multipart family and carries body data, and what is found
    is the body data of such a part; so extraction fails with "No body
    found" exactly when the payload is absent or has no such part. *)
Theorem findPart_sound_complete :
  forall (part : GmailPart) (preferHtml : bool),
    (forall f, findPart (Some part) preferHtml = Some f ->
       exists n, In n (nodes part) /\ leafMatch n = Some (fdata f)) /\
    (findPart (Some part) preferHtml = None <->
       forall n, In n (nodes part) -> leafMatch n = None) /\
    (forall msg id,
       Js.truthy (m_id (coreOf msg)) = Some id ->
       m_payload (coreOf msg) = Some part ->
       (extractEmail msg = Throw (Error "No body found") <->
        forall n, In n (nodes part) -> leafMatch n = None)).
Proof.
  intros part preferHtml.
  assert (Hiff : forall b, findPartIn part b = None <->
                   forall n, In n (nodes part) -> leafMatch n = None).
  { intros b. split; [apply findPartIn_complete|].
    intros Hnone. destruct (findPartIn part b) as [f|] eqn:Hf; [|reflexivity].
    destruct (findPartIn_sound b part f Hf) as (n & Hn & Hleaf).
    rewrite (Hnone n Hn) in Hleaf. discriminate. }
  split; [apply findPartIn_sound|]. split; [apply Hiff|].
  intros msg id Hid Hpl. rewrite <- (Hiff true).
  unfold extractEmail. rewrite Hid, Hpl. simpl.
  destruct (findPartIn part true); split; try discriminate; reflexivity.
Qed.

Lemma findPart_sound_complete_witness :
  exists n,
    In n (nodes Sample.htmlAfterPlain) /\
    leafMatch n = Some "PGI-aGk8L2I-".
Proof.
  exact (proj1 (findPart_sound_complete Sample.htmlAfterPlain true)
           (mkFound "text/html" "PGI-aGk8L2I-") eq_refl).
Defined.

(** ** Header lookup *)




(** ** Loading the configuration *)

Lemma truthy_nonempty o s : Js.truthy o = Some s -> s <> EmptyString.
Proof.
  destruct o as [[|c t]|]; simpl; intros [= <-]. discriminate.
Qed.

Lemma envOr_nonempty env name fallback :
  fallback <> EmptyString -> envOr env name fallback <> EmptyString.
Proof.
  intros Hf. unfold envOr. destruct (Js.truthy (env !! name)) eqn:E; simpl;
    [now apply truthy_nonempty in E | exact Hf].
Qed.

Lemma append_nonempty_r a b : b <> EmptyString -> a +:+ b <> EmptyString.
Proof.
  intros Hb H. apply (f_equal String.length) in H.
  rewrite append_length in H. destruct b; [congruence | simpl in H; lia].
Qed.

(** X9.  [loadConfig] succeeds exactly when AIRBYTE_WORKSPACE_ID,
    AIRBYTE_CONNECTION_ID, AWS_REGION and AIRBYTE_S3_BUCKET are all set and
    not empty; a variable set to the empty string counts as unset.  The
    configuration it returns has no empty field, and each of the three
    derived prefixes is its own variable when that is set and not empty,
    and otherwise the Airbyte prefix (default "raw/") followed by
    "messages/", "messages_details/" or "raw-files/". *)
Theorem loadConfig_characterised :
  forall env : Env,
    ((exists cfg, loadConfig env = Ok cfg) <->
     Forall (fun name => Js.truthy (env !! name) <> None) requiredVars) /\
    (forall cfg,
        loadConfig env = Ok cfg ->
        Js.truthy (env !! "AIRBYTE_WORKSPACE_ID") = Some (workspaceId cfg) /\
        Js.truthy (env !! "AIRBYTE_CONNECTION_ID") = Some (connectorId cfg) /\
        Js.truthy (env !! "AWS_REGION") = Some (region cfg) /\
        Js.truthy (env !! "AIRBYTE_S3_BUCKET") = Some (bucket cfg) /\
        airbytePrefix cfg = envOr env "AIRBYTE_S3_PREFIX" "raw/" /\
        messagesPrefix cfg
        = envOr env "MESSAGES_PREFIX" (airbytePrefix cfg +:+ "messages/") /\
        detailsPrefix cfg
        = envOr env "DETAILS_PREFIX" (airbytePrefix cfg +:+ "messages_details/") /\
        rawFilesPrefix cfg
        = envOr env "RAW_FILES_PREFIX" (airbytePrefix cfg +:+ "raw-files/") /\
        Forall (fun field => field <> EmptyString)
          [region cfg; bucket cfg; airbytePrefix cfg; messagesPrefix cfg;
           detailsPrefix cfg; rawFilesPrefix cfg; workspaceId cfg;
           connectorId cfg]).
Proof.
  intros env. unfold loadConfig, required, requiredVars.
  destruct (Js.truthy (env !! "AIRBYTE_WORKSPACE_ID")) as [ws|] eqn:Hws.
  2:{ split; [|discriminate]. split; [intros [cfg H]; discriminate|].
      intros H. inversion H; congruence. }
  destruct (Js.truthy (env !! "AIRBYTE_CONNECTION_ID")) as [conn|] eqn:Hconn.
  2:{ split; [|discriminate]. split; [intros [cfg H]; discriminate|].
      intros H. inversion H as [|? ? _ H']. inversion H'; congruence. }
  destruct (Js.truthy (env !! "AWS_REGION")) as [rg|] eqn:Hrg; simpl.
  2:{ split; [|discriminate]. split; [intros [cfg H]; discriminate|].
      intros H. inversion H as [|? ? _ H']. inversion H' as [|? ? _ H''].
      inversion H''; congruence. }
  destruct (Js.truthy (env !! "AIRBYTE_S3_BUCKET")) as [bk|] eqn:Hbk; simpl.
  2:{ split; [|discriminate]. split; [intros [cfg H]; discriminate|].
      intros H. inversion H as [|? ? _ H']. inversion H' as [|? ? _ H''].
      inversion H'' as [|? ? _ Hlast]. inversion Hlast; congruence. }
  split.
  - split; [|eauto]. intros _.
    repeat (constructor; [congruence|]). constructor.
  - intros cfg [= <-]. simpl. repeat split; trivial.
    repeat (constructor;
            [first [ eapply truthy_nonempty; eassumption
                   | apply envOr_nonempty; first [discriminate
                       | apply append_nonempty_r; discriminate] ]|]).
    constructor.
Qed.

Lemma loadConfig_characterised_witness :
  exists cfg,
    loadConfig sampleEnv = Ok cfg /\
    detailsPrefix cfg = "raw/messages_details/" /\
    targetKeyOf cfg "m1" = "raw/raw-files/ws1/gmail/m1.eml".
Proof.
  assert (Hreq : Forall (fun name => Js.truthy (sampleEnv !! name) <> None)
                   requiredVars)
    by (repeat constructor; vm_compute; discriminate).
  destruct (proj2 (proj1 (loadConfig_characterised sampleEnv)) Hreq) as [cfg Hcfg].
  exists cfg. split; [exact Hcfg|].
  destruct (proj2 (loadConfig_characterised sampleEnv) cfg Hcfg)
    as (Hws & _ & _ & _ & Hab & _ & Hd & Hraw & _).
  unfold targetKeyOf. rewrite Hd, Hraw, Hab.
  injection Hws as <-. split; vm_compute; reflexivity.
Defined.

(** ** The decoder: alphabets, padding, and the text it gives *)

Lemma replaceAll_append c d a b :
  Js.replaceAll c d (a +:+ b) = Js.replaceAll c d a +:+ Js.replaceAll c d b.
Proof.
  induction a as [|x a IH]; [reflexivity|].
  rewrite append_cons. simpl. now rewrite IH, append_cons.
Qed.

(** The code units of a text followed by a text that starts at a
    character are those of the one followed by those of the other. *)
Lemma units_append n t :
  cleanStart t ->
  forall s, (String.length s <= n)%nat ->
    Js.units (s +:+ t) = Js.units s ++ Js.units t.
Proof.
  intros Hclean.
  induction n as [|n IH]; intros s Hlen.
  { destruct s; [reflexivity | simpl in Hlen; lia]. }
  destruct s as [|b0 t0]; [reflexivity|]. simpl in Hlen.
  rewrite append_cons.
  cbn [Js.units]. cbv zeta.
  destruct (N_of_ascii b0 <? 128)%N. { rewrite IH by lia. reflexivity. }
  destruct ((192 <=? N_of_ascii b0) && (N_of_ascii b0 <=? 223))%N.
  { destruct t0 as [|b1 t1].
    - rewrite append_nil.
      destruct t as [|c t']; [reflexivity|]. simpl in Hclean. now rewrite Hclean.
    - rewrite append_cons. simpl in Hlen. destruct (Js.continuation b1).
      + rewrite IH by lia. reflexivity.
      + rewrite <- append_cons. apply IH. simpl; lia. }
  destruct ((224 <=? N_of_ascii b0) && (N_of_ascii b0 <=? 239))%N.
  { destruct t0 as [|b1 [|b2 t2]]; simpl in Hlen.
    - rewrite append_nil.
      destruct t as [|c [|c2 t']]; try reflexivity.
      simpl in Hclean. now rewrite Hclean.
    - rewrite append_cons, append_nil.
      destruct t as [|c t'].
      + change (Js.units EmptyString) with (@nil N). now rewrite app_nil_r.
      + simpl in Hclean. rewrite Hclean, andb_false_r.
        change (String b1 (String c t')) with (String b1 EmptyString +:+ String c t').
        apply IH. simpl; lia.
    - rewrite !append_cons. destruct (Js.continuation b1 && Js.continuation b2).
      + rewrite IH by lia. reflexivity.
      + rewrite <- !append_cons. apply IH. simpl; lia. }
  destruct ((240 <=? N_of_ascii b0) && (N_of_ascii b0 <=? 247))%N.
  { destruct t0 as [|b1 [|b2 [|b3 t3]]]; simpl in Hlen.
    - rewrite append_nil.
      destruct t as [|c [|c2 [|c3 t']]]; try reflexivity.
      simpl in Hclean. now rewrite Hclean.
    - rewrite append_cons, append_nil.
      destruct t as [|c [|c2 t']].
      + change (Js.units EmptyString) with (@nil N). now rewrite app_nil_r.
      + change (String b1 (String c EmptyString))
          with (String b1 EmptyString +:+ String c EmptyString).
        apply IH. simpl; lia.
      + simpl in Hclean. rewrite Hclean, andb_false_r. simpl andb. cbv iota.
        change (String b1 (String c (String c2 t')))
          with (String b1 EmptyString +:+ String c (String c2 t')).
        apply IH. simpl; lia.
    - rewrite !append_cons, append_nil.
      destruct t as [|c t'].
      + change (Js.units EmptyString) with (@nil N). now rewrite app_nil_r.
      + simpl in Hclean. rewrite Hclean, andb_false_r.
        change (String b1 (String b2 (String c t')))
          with (String b1 (String b2 EmptyString) +:+ String c t').
        apply IH. simpl; lia.
    - rewrite !append_cons.
      destruct (Js.continuation b1 && Js.continuation b2 && Js.continuation b3).
      + rewrite IH by lia. reflexivity.
      + rewrite <- !append_cons. apply IH. simpl; lia. }
  apply IH. lia.
Qed.

(** Appending ['='] characters, in any number, to base64 text does not
    change the bytes read from it. *)
Lemma sextetsOf_padding l : forall k,
  Buffer.sextetsOf (l ++ map Buffer.lowByte (Js.units (Js.repeat "=" k)))
  = Buffer.sextetsOf l.
Proof.
  intros k. induction l as [|c l IH]; simpl.
  - destruct k; reflexivity.
  - destruct (Ascii.eqb c "="); [reflexivity|].
    destruct (Buffer.unbase64 c); now rewrite IH.
Qed.

Lemma sextets_any_padding s k :
  Buffer.sextets (s +:+ Js.repeat "=" k) = Buffer.sextets s.
Proof.
  unfold Buffer.sextets.
  rewrite (units_append (String.length s)); [| |lia].
  - now rewrite map_app, sextetsOf_padding.
  - destruct k; [exact I | reflexivity].
Qed.

Lemma replaceAll_padding k :
  Js.replaceAll "_" "/" (Js.replaceAll "-" "+" (Js.repeat "=" k)) = Js.repeat "=" k.
Proof.
  induction k as [|k IH]; [reflexivity|]. simpl. rewrite !append_cons, !append_nil.
  simpl. now rewrite IH.
Qed.

Lemma sextets_padding_twice k k' :
  Buffer.sextets (Js.repeat "=" k +:+ Js.repeat "=" k') = [].
Proof.
  destruct k; [apply sextets_padding|]. reflexivity.
Qed.

(** The two replacements of the decoder undo the URL-safe spelling. *)
Lemma replaced_toUrlSafe s :
  Js.replaceAll "_" "/" (Js.replaceAll "-" "+" (toUrlSafe s))
  = Js.replaceAll "_" "/" (Js.replaceAll "-" "+" s).
Proof.
  unfold toUrlSafe. induction s as [|c s IH]; [reflexivity|].
  simpl. rewrite IH. f_equal.
  destruct c as [[] [] [] [] [] [] [] []]; reflexivity.
Qed.

(** X10.  The decoder reads both alphabets, and padding is optional.
    Text in the standard alphabet decodes like its URL-safe spelling, for
    every input; and for every input over the URL-safe alphabet, appending
    any number of ['='] changes nothing. *)
Theorem base64UrlDecode_alphabet_padding :
  (forall data, base64UrlDecode (toUrlSafe data) = base64UrlDecode data) /\
  (forall data vs k,
      urlSafeSextets data = Some vs ->
      base64UrlDecode (data +:+ Js.repeat "=" k) = base64UrlDecode data).
Proof.
  split.
  - intros data. unfold base64UrlDecode, Buffer.from_base64.
    now rewrite replaced_toUrlSafe, !sextets_any_padding.
  - intros data vs k H. unfold base64UrlDecode, Buffer.from_base64.
    rewrite !replaceAll_append, replaceAll_padding, append_assoc.
    rewrite !(sextets_urlSafe data vs _ H).
    now rewrite sextets_padding_twice, sextets_padding.
Qed.

Lemma base64UrlDecode_alphabet_padding_witness :
  base64UrlDecode ("aGVsbG8" +:+ Js.repeat "=" 1) = base64UrlDecode "aGVsbG8".
Proof.
  exact (proj2 base64UrlDecode_alphabet_padding "aGVsbG8"
           [26; 6; 21; 44; 27; 6; 60]%N 1 eq_refl).
Defined.

(** X11.  Whatever the input, the decoded body is well-formed UTF-8 text,
    and decoding text that is already well-formed leaves it unchanged; so
    every extracted body is well-formed UTF-8. *)
Theorem decoded_body_is_utf8 :
  (forall data,
      wellFormedUtf8 (list_ascii_of_string (base64UrlDecode data)) = true) /\
  (forall bs, Buffer.utf8_text (Buffer.utf8_text bs) = Buffer.utf8_text bs) /\
  (forall msg email,
      extractEmail msg = Ok email ->
      wellFormedUtf8 (list_ascii_of_string (body email)) = true).
Proof.
  assert (Hdec : forall data,
            wellFormedUtf8 (list_ascii_of_string (base64UrlDecode data)) = true).
  { intros data. unfold base64UrlDecode, Buffer.toString_utf8.
    rewrite list_ascii_of_string_of_list_ascii.
    eapply utf8_text_wellFormed_output, le_n. }
  split; [exact Hdec|]. split.
  - intros bs. apply (utf8_text_wellFormed (length (Buffer.utf8_text bs)));
      [apply le_n|]. now apply (utf8_text_wellFormed_output (length bs)).
  - intros msg email. unfold extractEmail.
    destruct (Js.truthy (m_id (coreOf msg))); [|discriminate].
    destruct (findPart _ _); [|discriminate].
    intros [= <-]. apply Hdec.
Qed.

Lemma decoded_body_is_utf8_witness :
  wellFormedUtf8 (list_ascii_of_string
    (body (mkEmail "x1" None None None None None None TextPlain
             (string_of_list_ascii Buffer.U_FFFD) None))) = true.
Proof.
  refine (proj2 (proj2 decoded_body_is_utf8) (Sample.binaryMessage "x1") _ _).
  vm_compute. reflexivity.
Defined.

(** ** Keys and identifiers *)

(** X12.  Different ids never share a key: the target key determines the
    message id.  So two new, sound records with different ids, processed
    one after the other on a store without faults, are both created, and
    each is found afterwards under its own key with its own text. *)
Theorem distinct_ids_distinct_keys :
  forall (config : AppConfig),
    (forall a b, targetKeyOf config a = targetKeyOf config b <-> a = b) /\
    (forall (s3 : S3Client) (limit_ : JsNumber) (key : string)
            (r1 r2 : GmailMessage) (id1 id2 : string)
            (e1 e2 : ExtractedEmail) (st : RunState),
        faultless s3 ->
        geNumber (processed (counters st)) limit_ = false ->
        geNumber (processed (counters st) + 1) limit_ = false ->
        Js.truthy (msgIdOf r1) = Some id1 ->
        Js.truthy (msgIdOf r2) = Some id2 ->
        id1 <> id2 ->
        objects st !! targetKeyOf config id1 = None ->
        objects st !! targetKeyOf config id2 = None ->
        extractEmail r1 = Ok e1 ->
        extractEmail r2 = Ok e2 ->
        exists st1 st2,
          processRecord s3 config limit_ false key r1 st = (Next, st1) /\
          processRecord s3 config limit_ false key r2 st1 = (Next, st2) /\
          objects st2 !! targetKeyOf config id1 = Some (toEml e1) /\
          objects st2 !! targetKeyOf config id2 = Some (toEml e2) /\
          created (counters st2) = created (counters st) + 2).
Proof.
  intros config. split.
  - intros a b. split; [apply targetKeyOf_inj | now intros ->].
  - intros s3 limit_ key r1 r2 id1 id2 e1 e2 st Hfl Hl Hl' Hid1 Hid2 Hne Ho1 Ho2
           He1 He2.
    assert (Hk : targetKeyOf config id1 <> targetKeyOf config id2)
      by (intros H; now apply targetKeyOf_inj in H).
    destruct (Hfl (targetKeyOf config id1)) as [Hh1 Hp1].
    destruct (Hfl (targetKeyOf config id2)) as [Hh2 Hp2].
    eexists. eexists. split; [|split].
    + apply processRecord_no_raise; [|discriminate].
      eapply tryBlock_create; eauto.
    + apply processRecord_no_raise; [|discriminate].
      eapply tryBlock_create; eauto.
      simpl. now rewrite lookup_insert_ne.
    + simpl. rewrite lookup_insert_ne by (intros H; now apply Hk).
      rewrite !lookup_insert_eq. repeat split. lia.
Qed.

Lemma distinct_ids_distinct_keys_witness :
  exists st1 st2,
    processRecord (Sample.s3 []) Sample.cfg Infinity false Sample.file
      (Sample.plainMessage "m1") Sample.state0 = (Next, st1) /\
    processRecord (Sample.s3 []) Sample.cfg Infinity false Sample.file
      (Sample.plainMessage "m2") st1 = (Next, st2) /\
    created (counters st2) = 2.
Proof.
  destruct (proj2 (distinct_ids_distinct_keys Sample.cfg) (Sample.s3 []) Infinity
              Sample.file (Sample.plainMessage "m1") (Sample.plainMessage "m2")
              "m1" "m2"
              (mkEmail "m1" (Some "Hi") None None None None None TextPlain
                 "hello" None)
              (mkEmail "m2" (Some "Hi") None None None None None TextPlain
                 "hello" None)
              Sample.state0 (fun _ => conj eq_refl eq_refl)
              eq_refl eq_refl eq_refl eq_refl ltac:(discriminate)
              eq_refl eq_refl eq_refl eq_refl)
    as (st1 & st2 & H1 & H2 & _ & _ & Hc).
  exists st1, st2. split; [exact H1|]. split; [exact H2 | exact Hc].
Defined.

(** X13.  A record is written only if the object that [extractEmail]
    unwraps has an id.  When it has none, whatever id the processor finds
    through its other fallbacks ([message.id], [messageId], an outer id
    around an envelope without one), the turn of the loop leaves the bucket
    and [created] as they are and sends no PutObject; if the key is absent
    the record raises. *)
Theorem no_core_id_never_written :
  forall (s3 : S3Client) (config : AppConfig) (limit_ : JsNumber) (dry : bool)
         (key : string) (record : GmailMessage) (st : RunState),
    Js.truthy (m_id (coreOf record)) = None ->
    let r := processRecord s3 config limit_ dry key record st in
    objects (snd r) = objects st /\
    created (counters (snd r)) = created (counters st) /\
    puts (trace (snd r)) = puts (trace st) /\
    (forall msgId,
        geNumber (processed (counters st)) limit_ = false ->
        Js.truthy (msgIdOf record) = Some msgId ->
        probe s3 (objects st) (targetKeyOf config msgId) = Ok false ->
        fst r = Raise (ReferenceError "msgId")).
Proof.
  intros s3 config limit_ dry key record st Hcore r.
  assert (Hex : extractEmail record = Throw (Error "Missing message id")).
  { unfold extractEmail. now rewrite Hcore. }
  pose proof (processRecord_recordStep s3 config limit_ dry key record st) as Hstep.
  fold r in Hstep. destruct Hstep; try congruence; simpl;
    rewrite ?puts_snoc; simpl; rewrite ?app_nil_r;
    (repeat split; trivial); intros; congruence.
Qed.

Lemma no_core_id_never_written_witness :
  Js.truthy (msgIdOf looseMessage) = Some "loose1" /\
  fst (processRecord (Sample.s3 []) Sample.cfg Infinity false Sample.file
         looseMessage Sample.state0) = Raise (ReferenceError "msgId").
Proof.
  split; [reflexivity|].
  exact (proj2 (proj2 (proj2 (no_core_id_never_written (Sample.s3 []) Sample.cfg
           Infinity false Sample.file looseMessage Sample.state0 eq_refl)))
           "loose1" eq_refl eq_refl eq_refl).
Defined.

(** ** Listing *)

Lemma isJsonlKey_Some o k :
  isJsonlKey o = Some k <->
  o = Some k /\ k <> EmptyString /\ Js.endsWith (Js.toLowerCase k) ".jsonl" = true.
Proof.
  unfold isJsonlKey. destruct o as [[|c s]|]; simpl.
  - split; [discriminate | intros ([= <-] & H & _); congruence].
  - destruct (Js.endsWith _ _) eqn:E.
    + split; [intros [= <-]; repeat split; trivial; discriminate
             | now intros ([= <-] & _)].
    + split; [discriminate | intros ([= <-] & _ & H); simpl in H; congruence].
  - split; [discriminate | now intros [? _]].
Qed.

(** X14.  [listJsonlKeys] returns, in listing order and across all pages,
    exactly the listed keys that are not empty and end in ".jsonl" in any
    letter case: every key it returns is such a listed key, every such
    listed key is returned, and the result is a subsequence of the
    listing.  When the listing fails, [processMessages] rejects with that
    error before anything is read, probed or written. *)
Theorem listJsonlKeys_lists :
  forall (s3 : S3Client) (prefix : string),
    (forall pages,
        s3_list s3 prefix = Ok pages ->
        exists keys,
          listJsonlKeys s3 prefix = Ok keys /\
          (forall k, In k keys <->
                     In (Some k) (concat pages) /\ k <> EmptyString /\
                     Js.endsWith (Js.toLowerCase k) ".jsonl" = true) /\
          sublist (Some <$> keys) (concat pages)) /\
    (forall e JSON_parse config opts objects0,
        prefix = detailsPrefix config ->
        s3_list s3 prefix = Throw e ->
        processMessages JSON_parse s3 config opts objects0
        = (Throw e, mkState newCounters objects0 [])).
Proof.
  intros s3 prefix. split.
  - intros pages Hlist. unfold listJsonlKeys. rewrite Hlist. simpl.
    eexists. split; [reflexivity|]. split.
    + intros k. rewrite <- !list_elem_of_In, list_elem_of_omap. split.
      * intros (o & Ho & Hk). apply isJsonlKey_Some in Hk as (-> & Hk).
        split; [exact Ho | exact Hk].
      * intros (Hin & Hk). exists (Some k). split; [exact Hin|].
        apply isJsonlKey_Some. auto.
    + induction (concat pages) as [|o l IH]; simpl; [constructor|].
      destruct (isJsonlKey o) as [k|] eqn:Hk.
      * apply isJsonlKey_Some in Hk as (-> & _). simpl. now constructor.
      * now constructor.
  - intros e JSON_parse config opts objects0 -> Hlist.
    unfold processMessages, listJsonlKeys. now rewrite Hlist.
Qed.

Lemma listJsonlKeys_lists_witness :
  exists keys,
    listJsonlKeys (Sample.s3 []) "raw/messages_details/" = Ok keys /\
    (In Sample.file keys <->
     In (Some Sample.file)
        (concat [[Some Sample.file; Some "raw/messages_details/notes.txt"]]) /\
     Sample.file <> EmptyString /\
     Js.endsWith (Js.toLowerCase Sample.file) ".jsonl" = true).
Proof.
  destruct (proj1 (listJsonlKeys_lists (Sample.s3 []) "raw/messages_details/")
              [[Some Sample.file; Some "raw/messages_details/notes.txt"]] eq_refl)
    as (keys & Hk & Hin & _).
  exists keys. split; [exact Hk | exact (Hin Sample.file)].
Defined.

(** ** Runs that must resolve *)

Section Resolving.

Variable JSON_parse : string -> Exc JsonValue.
Variable s3 : S3Client.
Variable config : AppConfig.
Variable limit_ : JsNumber.
Variable dry : bool.
Hypothesis no_fault : faultless s3.





End Resolving.

Section Unlimited.

Variable JSON_parse : string -> Exc JsonValue.
Variable s3 : S3Client.
Variable config : AppConfig.
Variable dry : bool.



End Unlimited.



(** ** The run depends on the files through their records *)

Section SameRecords.

Variable s3 s3' : S3Client.
Variable config : AppConfig.
Variable limit_ : JsNumber.
Variable dry : bool.
Hypothesis same_head : forall key, s3_headFault s3 key = s3_headFault s3' key.
Hypothesis same_put : forall key, s3_putFault s3 key = s3_putFault s3' key.

Lemma probe_same objs key : probe s3 objs key = probe s3' objs key.
Proof. unfold probe. now rewrite same_head. Qed.

(** The turn of the loop reads the counters and the bucket, not the trace
    and not the name of the file. *)
Lemma processRecord_sameButTrace key key' record st1 st2 :
  sameButTrace st1 st2 ->
  fst (processRecord s3 config limit_ dry key record st1)
  = fst (processRecord s3' config limit_ dry key' record st2) /\
  sameButTrace (snd (processRecord s3 config limit_ dry key record st1))
               (snd (processRecord s3' config limit_ dry key' record st2)).
Proof.
  intros [Hc Ho].
  pose proof (processRecord_recordStep s3 config limit_ dry key record st1) as Hstep.
  destruct (processRecord s3 config limit_ dry key record st1) as [sig sta].
  simpl in Hstep. simpl.
  destruct Hstep.
  - rewrite (recordStep_processRecord s3' config limit_ dry key' record st2
               Return st2); [now split|].
    apply step_limit. now rewrite <- Hc.
  - erewrite (recordStep_processRecord s3' config limit_ dry key' record st2 Next);
      [|apply step_missing_id; [now rewrite <- Hc | assumption]].
    split; [reflexivity|]. split; simpl; congruence.
  - erewrite (recordStep_processRecord s3' config limit_ dry key' record st2
                (Raise (ReferenceError "msgId")));
      [|eapply step_probe_error with (msgId := msgId);
        [now rewrite <- Hc | assumption
        | rewrite <- probe_same, <- Ho; eassumption]].
    split; [reflexivity|]. split; simpl; congruence.
  - erewrite (recordStep_processRecord s3' config limit_ dry key' record st2 Next);
      [|eapply step_skipped with (msgId := msgId);
        [now rewrite <- Hc | assumption
        | rewrite <- probe_same, <- Ho; eassumption]].
    split; [reflexivity|]. split; simpl; congruence.
  - erewrite (recordStep_processRecord s3' config limit_ dry key' record st2
                (Raise (ReferenceError "msgId")));
      [|eapply step_extract_error with (msgId := msgId);
        [now rewrite <- Hc | assumption
        | rewrite <- probe_same, <- Ho; eassumption | eassumption]].
    split; [reflexivity|]. split; simpl; congruence.
  - erewrite (recordStep_processRecord s3' config limit_ dry key' record st2 Next);
      [|eapply step_would_create with (msgId := msgId) (email := email);
        [now rewrite <- Hc | assumption
        | rewrite <- probe_same, <- Ho; eassumption | assumption | assumption]].
    split; [reflexivity|]. split; simpl; congruence.
  - erewrite (recordStep_processRecord s3' config limit_ dry key' record st2
                (Raise (ReferenceError "msgId")));
      [|eapply step_put_error with (msgId := msgId) (email := email);
        [now rewrite <- Hc | assumption
        | rewrite <- probe_same, <- Ho; eassumption | assumption | assumption
        | rewrite <- same_put; eassumption]].
    split; [reflexivity|]. split; simpl; congruence.
  - erewrite (recordStep_processRecord s3' config limit_ dry key' record st2 Next);
      [|eapply step_created with (msgId := msgId) (email := email);
        [now rewrite <- Hc | assumption
        | rewrite <- probe_same, <- Ho; eassumption | assumption | assumption
        | rewrite <- same_put; assumption]].
    split; [reflexivity|]. split; simpl; congruence.
Qed.

Lemma processValue_sameButTrace key key' value st1 st2 :
  sameButTrace st1 st2 ->
  fst (processValue s3 config limit_ dry key value st1)
  = fst (processValue s3' config limit_ dry key' value st2) /\
  sameButTrace (snd (processValue s3 config limit_ dry key value st1))
               (snd (processValue s3' config limit_ dry key' value st2)).
Proof.
  destruct value as [|record]; [|apply processRecord_sameButTrace].
  intros [Hc Ho]. unfold processValue, tryBlockNull, catchBlock.
  rewrite <- Hc.
  destruct (geNumber (processed (counters st1)) limit_); simpl;
    (split; [reflexivity|]); split; simpl; congruence.
Qed.

Lemma forRecords_sameButTrace key key' records : forall items st1 st2,
  yielded items = records ->
  sameButTrace st1 st2 ->
  fst (forRecords s3 config limit_ dry key items st1)
  = fst (forRecords s3' config limit_ dry key' (map Yield records) st2) /\
  sameButTrace (snd (forRecords s3 config limit_ dry key items st1))
               (snd (forRecords s3' config limit_ dry key' (map Yield records) st2)).
Proof.
  intros items. revert records.
  induction items as [|[value|ev] rest IH]; intros records st1 st2 <- Hsame; simpl.
  - now split.
  - destruct (processValue_sameButTrace key key' value st1 st2 Hsame) as [Hsig Hst].
    destruct (processValue s3 config limit_ dry key value st1) as [sig sta].
    destruct (processValue s3' config limit_ dry key' value st2) as [sig' stb].
    simpl in Hsig, Hst. subst sig'.
    destruct sig; [now apply IH | now split | now split].
  - apply IH; [reflexivity|]. destruct Hsame. now split.
Qed.

End SameRecords.

Lemma yielded_map_Yield records : yielded (map Yield records) = records.
Proof. induction records as [|r l IH]; simpl; [reflexivity | now rewrite IH]. Qed.

Lemma sameButTrace_sym st1 st2 : sameButTrace st1 st2 -> sameButTrace st2 st1.
Proof. intros [? ?]. now split. Qed.

Lemma sameButTrace_trans st1 st2 st3 :
  sameButTrace st1 st2 -> sameButTrace st2 st3 -> sameButTrace st1 st3.
Proof. intros [? ?] [? ?]. split; congruence. Qed.

Section SameFiles.

Variable JSON_parse : string -> Exc JsonValue.
Variable s3 s3' : S3Client.
Variable config : AppConfig.
Variable limit_ : JsNumber.
Variable dry : bool.
Hypothesis same : sameRecords JSON_parse s3 s3'.

Lemma forRecords_same_records key items items' st1 st2 :
  yielded items = yielded items' ->
  sameButTrace st1 st2 ->
  fst (forRecords s3 config limit_ dry key items st1)
  = fst (forRecords s3' config limit_ dry key items' st2) /\
  sameButTrace (snd (forRecords s3 config limit_ dry key items st1))
               (snd (forRecords s3' config limit_ dry key items' st2)).
Proof.
  intros Hy Hsame. destruct same as (_ & Hh & Hp & _).
  destruct (forRecords_sameButTrace s3 s3' config limit_ dry Hh Hp key key
              (yielded items') items st1 st2 Hy Hsame) as [H1 H2].
  destruct (forRecords_sameButTrace s3' s3' config limit_ dry
              (fun _ => eq_refl) (fun _ => eq_refl) key key
              (yielded items') items' st2 st2 eq_refl (conj eq_refl eq_refl))
    as [H3 H4].
  split; [congruence|].
  eapply sameButTrace_trans; [exact H2 | now apply sameButTrace_sym].
Qed.

Lemma forKeys_same_records keys : forall st1 st2,
  sameButTrace st1 st2 ->
  fst (forKeys s3 config limit_ dry JSON_parse keys st1)
  = fst (forKeys s3' config limit_ dry JSON_parse keys st2) /\
  sameButTrace (snd (forKeys s3 config limit_ dry JSON_parse keys st1))
               (snd (forKeys s3' config limit_ dry JSON_parse keys st2)).
Proof.
  induction keys as [|key rest IH]; intros st1 st2 Hsame; simpl; [now split|].
  assert (Hsame' : sameButTrace (emit (SendGet key) (emit (LogReading key) st1))
                     (emit (SendGet key) (emit (LogReading key) st2)))
    by (destruct Hsame; now split).
  unfold readJsonlFromS3.
  destruct same as (_ & _ & _ & Hlines). specialize (Hlines key).
  destruct (s3_lines s3 key) as [lines|e], (s3_lines s3' key) as [lines'|e'];
    simpl; try contradiction.
  - destruct (forRecords_same_records key (readLines JSON_parse key lines)
                (readLines JSON_parse key lines') _ _
                ltac:(now rewrite !yielded_readLines) Hsame') as [Hsig Hst].
    destruct (forRecords s3 config limit_ dry key _ _) as [sig sta].
    destruct (forRecords s3' config limit_ dry key _ _) as [sig' stb].
    simpl in Hsig, Hst. subst sig'.
    destruct sig; [now apply IH | now split | now split].
  - subst e'. now split.
Qed.

End SameFiles.

(** X16.  A run depends on the record files only through their records.
    Two stores that list the same keys and fail alike, and whose files hold
    the same records line for line once blank lines and lines that do not
    parse are left out, give runs with the same outcome, the same counters
    and the same bucket; only the warnings differ. *)
Theorem run_depends_on_records :
  forall (JSON_parse : string -> Exc JsonValue) (s3 s3' : S3Client)
         (config : AppConfig) (opts : ProcessorOptions)
         (objects0 : gmap string string),
    sameRecords JSON_parse s3 s3' ->
    let run := processMessages JSON_parse s3 config opts objects0 in
    let run' := processMessages JSON_parse s3' config opts objects0 in
    fst run = fst run' /\
    counters (snd run) = counters (snd run') /\
    objects (snd run) = objects (snd run').
Proof.
  intros JSON_parse s3 s3' config opts objects0 Hsame.
  unfold processMessages, listJsonlKeys.
  destruct Hsame as (Hlist & Hrest).
  rewrite <- Hlist.
  destruct (s3_list s3 (detailsPrefix config)) as [pages|e]; simpl;
    [|repeat split].
  set (keys := omap isJsonlKey (concat pages)).
  destruct (forKeys_same_records JSON_parse s3 s3' config
              (default Infinity (limit opts)) (default false (dryRun opts))
              (conj Hlist Hrest) keys
              (emit (LogFound (length keys) (detailsPrefix config))
                 (mkState newCounters objects0 []))
              (emit (LogFound (length keys) (detailsPrefix config))
                 (mkState newCounters objects0 []))
              (conj eq_refl eq_refl)) as [Hsig [Hc Ho]].
  destruct (forKeys s3 config _ _ JSON_parse keys _) as [sig st1].
  destruct (forKeys s3' config _ _ JSON_parse keys _) as [sig' st2].
  simpl in *. subst sig'.
  destruct sig; simpl; repeat split; congruence.
Qed.

(** The same two records, in one file among a byte order mark, a line
    holding a no-break space, a blank line and a line that is not JSON. *)
Lemma run_depends_on_records_witness :
  fst (processMessages Sample.parse
         (Sample.s3 [utf8Of 65279 +:+ "{m1}"; utf8Of 160; "  "; "oops"; "{m2}"])
         Sample.cfg (mkOptions None None) ∅)
  = fst (processMessages Sample.parse (Sample.s3 ["{m1}"; "{m2}"])
           Sample.cfg (mkOptions None None) ∅).
Proof.
  refine (proj1 (run_depends_on_records Sample.parse
                   (Sample.s3 [utf8Of 65279 +:+ "{m1}"; utf8Of 160; "  ";
                               "oops"; "{m2}"])
                   (Sample.s3 ["{m1}"; "{m2}"])
                   Sample.cfg (mkOptions None None) ∅ _)).
  split; [reflexivity|]. split; [reflexivity|]. split; [reflexivity|].
  intros key. simpl.
  destruct (String.eqb key Sample.file); [vm_compute|]; reflexivity.
Defined.

(** * The Airbyte runner *)

Module RunnerFacts.
Import Runner.

Lemma repeat_slash_snoc k : Js.repeat "/" (S k) = Js.repeat "/" k +:+ "/".
Proof.
  assert (E : forall n, Js.repeat "/" (S n) = "/" +:+ Js.repeat "/" n)
    by reflexivity.
  induction k as [|k IH]; [reflexivity|].
  rewrite (E (S k)), IH at 1. rewrite (E k), append_assoc. reflexivity.
Qed.

Lemma allSlashes_repeat s :
  allSlashes s = true -> s = Js.repeat "/" (String.length s).
Proof.
  induction s as [|c s IH]; [reflexivity|]. simpl.
  intros H. apply andb_true_iff in H as [Hc Hs].
  apply Ascii.eqb_eq in Hc as ->. rewrite append_cons, append_nil.
  f_equal. now apply IH.
Qed.

Lemma normalizeBase_empty s : normalizeBase s = EmptyString -> allSlashes s = true.
Proof.
  destruct s as [|c s]; [reflexivity|]. simpl.
  destruct (Ascii.eqb c "/" && allSlashes s); [reflexivity | discriminate].
Qed.

Lemma normalizeBase_no_trailing base : forall r, normalizeBase base <> r +:+ "/".
Proof.
  induction base as [|c rest IH]; intros r.
  - simpl. destruct r; discriminate.
  - cbn [normalizeBase]. destruct (allSlashes (String c rest)) eqn:Hall.
    + destruct r; discriminate.
    + destruct r as [|d r].
      * rewrite append_nil. intros [= -> Hrest].
        apply normalizeBase_empty in Hrest. simpl in Hall.
        rewrite Hrest in Hall. discriminate.
      * rewrite append_cons. intros [= -> Hrest]. now apply (IH r).
Qed.

Lemma normalizeBase_fixed s :
  (forall r, s <> r +:+ "/") -> normalizeBase s = s.
Proof.
  induction s as [|c rest IH]; intros Hno; [reflexivity|].
  cbn [normalizeBase]. destruct (allSlashes (String c rest)) eqn:Hall.
  - exfalso. apply allSlashes_repeat in Hall. simpl String.length in Hall.
    rewrite repeat_slash_snoc in Hall. exact (Hno _ Hall).
  - f_equal. apply IH. intros r Hr. apply (Hno (String c r)).
    now rewrite append_cons, Hr.
Qed.

(** X17.  [normalizeBase] removes the trailing slashes and nothing else:
    the base is the result followed by slashes only, the result does not
    end in a slash, a base that does not end in a slash is returned as it
    is, and normalizing twice is normalizing once. *)
Theorem normalizeBase_strips_trailing_slashes :
  forall base : string,
    (exists k, base = normalizeBase base +:+ Js.repeat "/" k) /\
    (forall r, normalizeBase base <> r +:+ "/") /\
    ((forall r, base <> r +:+ "/") -> normalizeBase base = base) /\
    normalizeBase (normalizeBase base) = normalizeBase base.
Proof.
  intros base. split; [|split; [|split]].
  - induction base as [|c rest [k IH]]; [now exists 0|].
    cbn [normalizeBase]. destruct (allSlashes (String c rest)) eqn:Hall.
    + exists (String.length (String c rest)). rewrite append_nil.
      now apply allSlashes_repeat.
    + exists k. rewrite append_cons. now f_equal.
  - apply normalizeBase_no_trailing.
  - apply normalizeBase_fixed.
  - apply normalizeBase_fixed, normalizeBase_no_trailing.
Qed.

Lemma normalizeBase_strips_trailing_slashes_witness :
  normalizeBase "https://api.airbyte.com/v1" = "https://api.airbyte.com/v1".
Proof.
  refine (proj1 (proj2 (proj2 (normalizeBase_strips_trailing_slashes
            "https://api.airbyte.com/v1"))) _).
  intros r H. apply (f_equal String.rev) in H. rewrite rev_append in H.
  vm_compute in H. discriminate H.
Defined.

End RunnerFacts.

Module RunFolderFacts.
Import Runner.

Lemma startsWith_append p s : Js.startsWith (p +:+ s) p = true.
Proof.
  unfold Js.startsWith. induction p as [|c p IH].
  - rewrite append_nil. now destruct s.
  - rewrite append_cons. simpl. destruct (ascii_dec c c); [exact IH | congruence].
Qed.

Lemma slice_append p s : slice (String.length p) (p +:+ s) = s.
Proof. induction p as [|c p IH]; [now destruct s | exact IH]. Qed.

Lemma split_not_nil sep s : split sep s <> [].
Proof.
  destruct s as [|c s]; simpl; [discriminate|].
  destruct (Ascii.eqb c sep); [discriminate|].
  destruct (split sep s); discriminate.
Qed.

Lemma split_segment f rest :
  noSlash f = true ->
  split "/" (f +:+ "/" +:+ rest) = f :: split "/" rest.
Proof.
  induction f as [|c f IH]; intros Hf; [reflexivity|].
  simpl in Hf. apply andb_true_iff in Hf as [Hc Hf].
  rewrite append_cons. cbn [split].
  apply negb_true_iff in Hc. rewrite Hc, (IH Hf). reflexivity.
Qed.

Lemma split_last f : noSlash f = true -> split "/" f = [f].
Proof.
  induction f as [|c f IH]; intros Hf; [reflexivity|].
  simpl in Hf. apply andb_true_iff in Hf as [Hc Hf].
  cbn [split]. apply negb_true_iff in Hc. rewrite Hc, (IH Hf). reflexivity.
Qed.

Lemma split_noSlash s : Forall (fun seg => noSlash seg = true) (split "/" s).
Proof.
  induction s as [|c s IH]; simpl; [repeat constructor|].
  destruct (Ascii.eqb c "/") eqn:Hc; [now constructor|].
  destruct (split "/" s) as [|seg segs]; [repeat constructor; simpl; now rewrite Hc|].
  inversion IH; subst. constructor; [|assumption].
  simpl. now rewrite Hc.
Qed.

Lemma extractRunFolder_Some prefix key f :
  extractRunFolder prefix key = Some f -> f <> EmptyString /\ noSlash f = true.
Proof.
  unfold extractRunFolder, nonEmpty.
  set (w := if Js.startsWith key prefix then _ else _).
  destruct (List.filter _ (split "/" w)) as [|p ps] eqn:Hparts; [discriminate|].
  assert (Hin : In p (List.filter (fun s => negb (Js.isEmpty s)) (split "/" w)))
    by (rewrite Hparts; now left).
  apply filter_In in Hin as [Hin Hne].
  pose proof (split_noSlash w) as Hall. rewrite List.Forall_forall in Hall.
  specialize (Hall p Hin). simpl.
  destruct p; [discriminate Hne|]. intros [= <-]. split; [discriminate | exact Hall].
Qed.

Lemma folderOf_nonempty prefix e : folderOf prefix e <> EmptyString.
Proof.
  unfold folderOf. destruct (extractRunFolder prefix (e_key e)) eqn:E; simpl.
  - now apply extractRunFolder_Some in E.
  - discriminate.
Qed.

(** X18.  The run folder of a key under the prefix is its first path
    segment after the prefix: for a folder name that is not empty and has
    no slash, [prefix + folder + "/" + rest] and [prefix + folder] are both
    attributed to [folder], and a slash between the prefix and the folder
    changes nothing.  Whatever the key, a folder that is returned is not
    empty and holds no slash. *)
Theorem extractRunFolder_first_segment :
  forall prefix : string,
    (forall folder rest,
        folder <> EmptyString -> noSlash folder = true ->
        extractRunFolder prefix (prefix +:+ folder +:+ "/" +:+ rest) = Some folder /\
        extractRunFolder prefix (prefix +:+ folder) = Some folder /\
        extractRunFolder prefix (prefix +:+ "/" +:+ folder +:+ "/" +:+ rest)
        = Some folder) /\
    (forall key folder,
        extractRunFolder prefix key = Some folder ->
        folder <> EmptyString /\ noSlash folder = true).
Proof.
  intros prefix. split; [|intros key folder; apply extractRunFolder_Some].
  intros folder rest Hne Hns.
  assert (Hfirst : forall l, nonEmpty (folder :: l) = folder :: nonEmpty l).
  { intros l. unfold nonEmpty. simpl. destruct folder; [congruence | reflexivity]. }
  unfold extractRunFolder. rewrite !startsWith_append, !slice_append.
  split; [|split].
  - rewrite (split_segment folder rest Hns), Hfirst. simpl.
    destruct folder; [congruence | reflexivity].
  - rewrite (split_last folder Hns), Hfirst. simpl.
    destruct folder; [congruence | reflexivity].
  - rewrite append_cons, append_nil. cbn [split]. simpl Ascii.eqb. cbn iota.
    rewrite (split_segment folder rest Hns).
    change (nonEmpty (EmptyString :: folder :: split "/" rest))
      with (nonEmpty (folder :: split "/" rest)).
    rewrite Hfirst. simpl. destruct folder; [congruence | reflexivity].
Qed.

Lemma extractRunFolder_first_segment_witness :
  extractRunFolder "raw/" ("raw/" +:+ "2024-01-01" +:+ "/" +:+ "a.docx")
  = Some "2024-01-01".
Proof.
  exact (proj1 (proj1 (extractRunFolder_first_segment "raw/")
                  "2024-01-01" "a.docx" ltac:(discriminate) eq_refl)).
Defined.

End RunFolderFacts.

Module LatestRunFacts.
Import Runner.

Lemma mapGet_mapSet m k v k' :
  mapGet (mapSet m k v) k' = if String.eqb k k' then Some v else mapGet m k'.
Proof.
  induction m as [|[k0 b0] m IH]; simpl.
  - reflexivity.
  - destruct (String.eqb k0 k) eqn:E0; simpl.
    + apply String.eqb_eq in E0 as ->. now destruct (String.eqb k k').
    + rewrite IH. destruct (String.eqb k0 k') eqn:E1; [|reflexivity].
      apply String.eqb_eq in E1 as ->. now rewrite String.eqb_sym, E0.
Qed.

Lemma mapSet_keys m k v :
  map fst (mapSet m k v)
  = if existsb (fun k0 => String.eqb k0 k) (map fst m)
    then map fst m else map fst m ++ [k].
Proof.
  induction m as [|[k0 b0] m IH]; simpl; [reflexivity|].
  destruct (String.eqb k0 k) eqn:E0; simpl; [reflexivity|].
  rewrite IH. now destruct (existsb _ (map fst m)).
Qed.

Lemma mapSet_NoDup m k v :
  List.NoDup (map fst m) -> List.NoDup (map fst (mapSet m k v)).
Proof.
  intros Hnd. rewrite mapSet_keys.
  destruct (existsb _ (map fst m)) eqn:E; [exact Hnd|].
  apply List.NoDup_app; [exact Hnd | repeat constructor; intros []|].
  intros x Hx [->|[]].
  assert (existsb (fun k0 => String.eqb k0 x) (map fst m) = true); [|congruence].
  apply existsb_exists. exists x. split; [exact Hx | apply String.eqb_refl].
Qed.

Lemma mapGet_In m k b :
  List.NoDup (map fst m) -> In (k, b) m -> mapGet m k = Some b.
Proof.
  induction m as [|[k0 b0] m IH]; simpl; intros Hnd Hin; [destruct Hin|].
  apply List.NoDup_cons_iff in Hnd as [Hk0 Hnd].
  destruct Hin as [[= -> ->]|Hin]; [now rewrite String.eqb_refl|].
  destruct (String.eqb k0 k) eqn:E; [|now apply IH].
  apply String.eqb_eq in E as ->. exfalso. apply Hk0.
  apply in_map_iff. now exists (k, b).
Qed.

Lemma mapGet_Some_In m k b : mapGet m k = Some b -> In (k, b) m.
Proof.
  induction m as [|[k0 b0] m IH]; simpl; [discriminate|].
  destruct (String.eqb k0 k) eqn:E; [|auto].
  apply String.eqb_eq in E as ->. intros [= ->]. now left.
Qed.

Section Grouping.

Variable prefix : string.

Lemma groupOf_snoc folder seen e :
  groupOf prefix folder (seen ++ [e])
  = if inFolder prefix folder e
    then Some (mkBucket
                 (rb_entries (default (mkBucket [] 0%Z) (groupOf prefix folder seen))
                  ++ [e])
                 (Z.max (rb_newest (default (mkBucket [] 0%Z)
                                      (groupOf prefix folder seen)))
                        (tsOf e)))
    else groupOf prefix folder seen.
Proof.
  unfold groupOf. rewrite List.filter_app. simpl.
  destruct (inFolder prefix folder e).
  - destruct (List.filter (inFolder prefix folder) seen) as [|x es] eqn:Hes.
    + reflexivity.
    + simpl app. cbn [default rb_entries rb_newest].
      change (x :: es ++ [e]) with ((x :: es) ++ [e]).
      rewrite map_app, fold_left_app. reflexivity.
  - now rewrite app_nil_r.
Qed.

Lemma addEntry_groupOf m seen e :
  List.NoDup (map fst m) ->
  (forall k, mapGet m k = groupOf prefix k seen) ->
  List.NoDup (map fst (addEntry prefix m e)) /\
  (forall k, mapGet (addEntry prefix m e) k = groupOf prefix k (seen ++ [e])).
Proof.
  intros Hnd Hm. unfold addEntry. split; [now apply mapSet_NoDup|].
  intros k. rewrite mapGet_mapSet, groupOf_snoc. unfold inFolder.
  destruct (String.eqb (folderOf prefix e) k) eqn:E; [|apply Hm].
  apply String.eqb_eq in E as <-. now rewrite Hm.
Qed.

Lemma fold_addEntry_groupOf rest : forall m seen,
  List.NoDup (map fst m) ->
  (forall k, mapGet m k = groupOf prefix k seen) ->
  List.NoDup (map fst (fold_left (addEntry prefix) rest m)) /\
  (forall k, mapGet (fold_left (addEntry prefix) rest m) k
             = groupOf prefix k (seen ++ rest)).
Proof.
  induction rest as [|e rest IH]; intros m seen Hnd Hm; simpl.
  - rewrite app_nil_r. now split.
  - destruct (addEntry_groupOf m seen e Hnd Hm) as [Hnd' Hm'].
    destruct (IH _ (seen ++ [e]) Hnd' Hm') as [Hnd'' Hm''].
    split; [exact Hnd''|]. intros k. rewrite Hm'', <- app_assoc. reflexivity.
Qed.

End Grouping.

Lemma fold_max_ge l : forall a, (a <= fold_left Z.max l a)%Z.
Proof.
  induction l as [|x l IH]; intros a; simpl; [lia|].
  specialize (IH (Z.max a x)). lia.
Qed.

Lemma fold_max_In l : forall a x, In x l -> (x <= fold_left Z.max l a)%Z.
Proof.
  induction l as [|y l IH]; intros a x Hin; simpl; [destruct Hin|].
  destruct Hin as [->|Hin]; [|now apply IH].
  pose proof (fold_max_ge l (Z.max a x)). lia.
Qed.

(** The second loop: the folder picked has the greatest [newest]. *)
Lemma pick_greatest m : forall acc,
  let r := fold_left pickStep m acc in
  (snd acc <= snd r)%Z /\
  (forall k b, In (k, b) m -> (rb_newest b <= snd r)%Z) /\
  (r = acc \/ exists k b, In (k, b) m /\ r = (Some k, rb_newest b)).
Proof.
  induction m as [|[k0 b0] m IH]; intros acc; simpl.
  - split; [lia|]. split; [intros k b []|now left].
  - destruct (IH (pickStep acc (k0, b0))) as (Hge & Hall & Hpick).
    assert (Hstep : (snd acc <= snd (pickStep acc (k0, b0)))%Z /\
                    (rb_newest b0 <= snd (pickStep acc (k0, b0)))%Z).
    { unfold pickStep. simpl. destruct (rb_newest b0 >? snd acc)%Z eqn:E; simpl; lia. }
    split; [lia|]. split.
    + intros k b [[= -> ->]|Hin]; [lia | now apply (Hall k b)].
    + destruct Hpick as [->|(k & b & Hin & ->)].
      * unfold pickStep. simpl. destruct (rb_newest b0 >? snd acc)%Z.
        -- right. exists k0, b0. split; [now left | reflexivity].
        -- now left.
      * right. exists k, b. split; [now right | reflexivity].
Qed.

(** X19.  [filterLatestRun] keeps the entries of one run folder.  With
    [latestRunOnly] unset it returns the listing as it is.  Otherwise, for
    a listing that is not empty, it returns exactly the entries of one
    folder of the listing, in listing order; that folder is one whose
    newest time value is the greatest, so no entry of the listing is newer
    than the newest entry kept (entries without a date, or dated before
    1970, counting as time 0); and the result is not empty. *)
Theorem filterLatestRun_keeps_latest_folder :
  forall (prefix : string) (entries : list S3Entry),
    filterLatestRun false prefix entries = entries /\
    filterLatestRun true prefix [] = [] /\
    (entries <> [] ->
     exists latest,
       In latest (map (folderOf prefix) entries) /\
       filterLatestRun true prefix entries
       = List.filter (inFolder prefix latest) entries /\
       filterLatestRun true prefix entries <> [] /\
       (forall e, In e entries ->
                  (tsOf e <= newestOf prefix latest entries)%Z) /\
       (forall folder, (newestOf prefix folder entries
                        <= newestOf prefix latest entries)%Z)).
Proof.
  intros prefix entries. split; [reflexivity|]. split; [reflexivity|].
  intros Hne. unfold filterLatestRun. simpl negb. cbn iota.
  destruct (fold_addEntry_groupOf prefix entries [] [] (List.NoDup_nil _)
              (fun _ => eq_refl)) as [Hnd Hget].
  simpl app in Hget.
  set (byFolder := fold_left (addEntry prefix) entries []) in *.
  assert (Hgroup : forall k b, groupOf prefix k entries = Some b ->
             rb_entries b = List.filter (inFolder prefix k) entries /\
             rb_newest b = newestOf prefix k entries /\
             rb_entries b <> [] /\ (0 <= rb_newest b)%Z).
  { intros k b. unfold groupOf, newestOf.
    change (fun e => String.eqb (folderOf prefix e) k) with (inFolder prefix k).
    destruct (List.filter (inFolder prefix k) entries) as [|x es];
      [discriminate|].
    intros [= <-]. cbn [rb_entries rb_newest].
    split; [reflexivity|]. split; [reflexivity|]. split; [discriminate|].
    apply (fold_max_ge (map tsOf (x :: es)) 0%Z). }
  assert (Hof : forall e, In e entries ->
            exists b, In (folderOf prefix e, b) byFolder /\
                      (tsOf e <= rb_newest b)%Z).
  { intros e He.
    assert (Hin : In e (List.filter (inFolder prefix (folderOf prefix e)) entries)).
    { apply filter_In. split; [exact He | apply String.eqb_refl]. }
    destruct (groupOf prefix (folderOf prefix e) entries) as [b|] eqn:Hb.
    - exists b. split; [apply mapGet_Some_In; now rewrite Hget|].
      destruct (Hgroup _ _ Hb) as (Hes & Hnew & _).
      rewrite Hnew. unfold newestOf. apply fold_max_In, in_map. exact Hin.
    - unfold groupOf in Hb.
      destruct (List.filter _ entries); [destruct Hin | discriminate]. }
  destruct entries as [|e0 entries']; [congruence|].
  destruct (Hof e0 (or_introl eq_refl)) as (b0 & Hb0 & _).
  assert (Hlen : (length byFolder =? 0)%nat = false).
  { destruct byFolder; [destruct Hb0 | reflexivity]. }
  rewrite Hlen.
  destruct (pick_greatest byFolder (None, (-1)%Z)) as (_ & Hmax & Hpick).
  assert (Hpos : forall k b, In (k, b) byFolder -> (0 <= rb_newest b)%Z).
  { intros k b Hin. apply mapGet_In in Hin; [|exact Hnd].
    rewrite Hget in Hin. now apply Hgroup in Hin. }
  destruct Hpick as [Hnone|(k & b & Hin & Hpicked)].
  { exfalso. specialize (Hmax _ _ Hb0). specialize (Hpos _ _ Hb0).
    rewrite Hnone in Hmax. simpl in Hmax. lia. }
  rewrite Hpicked in *. simpl fst. simpl snd in Hmax.
  pose proof (mapGet_In _ _ _ Hnd Hin) as Hk.
  pose proof Hk as Hk'. rewrite Hget in Hk'.
  destruct (Hgroup _ _ Hk') as (Hes & Hnew & Hnonempty & _).
  assert (Hfolder : In k (map (folderOf prefix) (e0 :: entries'))).
  { destruct (rb_entries b) as [|x xs] eqn:Hx; [congruence|].
    assert (Hxin : In x (List.filter (inFolder prefix k) (e0 :: entries')))
      by (rewrite <- Hes; now left).
    apply filter_In in Hxin as [Hxin Hxk]. apply String.eqb_eq in Hxk as <-.
    now apply in_map. }
  assert (Htruthy : Js.truthy (Some k) = Some k).
  { apply in_map_iff in Hfolder as (x & <- & _).
    pose proof (RunFolderFacts.folderOf_nonempty prefix x) as Hx.
    simpl. destruct (folderOf prefix x); [congruence | reflexivity]. }
  rewrite Htruthy, Hk. exists k.
  split; [exact Hfolder|]. split; [exact Hes|]. split; [exact Hnonempty|].
  split.
  - intros e He. destruct (Hof e He) as (b' & Hb' & Hts).
    specialize (Hmax _ _ Hb'). rewrite <- Hnew. lia.
  - intros folder. rewrite <- Hnew.
    destruct (groupOf prefix folder (e0 :: entries')) as [b'|] eqn:Hb'.
    + destruct (Hgroup _ _ Hb') as (_ & <- & _).
      apply Hmax with (k := folder). apply mapGet_Some_In. now rewrite Hget.
    + unfold groupOf in Hb'. unfold newestOf.
      change (fun e => String.eqb (folderOf prefix e) folder)
        with (inFolder prefix folder).
      destruct (List.filter (inFolder prefix folder) (e0 :: entries'));
        [|discriminate].
      simpl. now apply (Hpos k b).
Qed.

Lemma filterLatestRun_keeps_latest_folder_witness :
  exists latest,
    filterLatestRun true "raw/" sampleEntries
    = List.filter (inFolder "raw/" latest) sampleEntries /\
    filterLatestRun true "raw/" sampleEntries <> [].
Proof.
  destruct (proj2 (proj2 (filterLatestRun_keeps_latest_folder "raw/"
                             sampleEntries)) ltac:(discriminate))
    as (latest & _ & Heq & Hne & _).
  exists latest. split; [exact Heq | exact Hne].
Defined.

End LatestRunFacts.

(** * The limit, exactly *)

Section ExactLimit.

Variable JSON_parse : string -> Exc JsonValue.
Variable s3 : S3Client.
Variable config : AppConfig.
Variable n : nat.
Variable dry : bool.

Let limit_ : JsNumber := Finite (inject_Z (Z.of_nat n)).

Lemma geNumber_nat p : geNumber p limit_ = (n <=? p)%nat.
Proof.
  unfold limit_. simpl. destruct (n <=? p)%nat eqn:E.
  - apply Qle_bool_iff. rewrite <- Zle_Qle. apply Nat.leb_le in E. lia.
  - destruct (Qle_bool _ _) eqn:F; [|reflexivity].
    apply Qle_bool_iff in F. rewrite <- Zle_Qle in F.
    apply Nat.leb_gt in E. lia.
Qed.

Lemma forRecords_counts_to_limit key items : forall st sig st',
  forRecords s3 config limit_ dry key items st = (sig, st') ->
  (forall e, sig <> Raise e) ->
  processed (counters st) <= n ->
  (sig = Next /\
   processed (counters st') = processed (counters st) + length (yielded items) /\
   processed (counters st') <= n) \/
  (sig = Return /\ processed (counters st') = n /\
   n < processed (counters st) + length (yielded items)).
Proof.
  induction items as [|[value|ev] rest IH]; intros st sig st' Hrun Hsig Hle;
    simpl in Hrun.
  - injection Hrun as <- <-. left. simpl. repeat split; lia.
  - pose proof (processValue_valueStep s3 config limit_ dry key value st) as Hstep.
    destruct (processValue s3 config limit_ dry key value st) as [s sta].
    simpl in Hstep.
    assert (Hone : (s = Return /\ sta = st /\ n <= processed (counters st)) \/
                   (s = Next /\ processed (counters sta) = processed (counters st) + 1
                    /\ processed (counters st) < n) \/
                   (exists e, s = Raise e)).
    { destruct Hstep as [record sig' st'' Hstep|Hl|Hl]; [destruct Hstep|..];
        repeat match goal with
               | H : geNumber _ _ = _ |- _ =>
                   rewrite geNumber_nat in H;
                   first [apply Nat.leb_le in H | apply Nat.leb_gt in H]
               end;
        try (left; repeat split; trivial; fail);
        try (right; left; simpl; repeat split; trivial; lia);
        right; right; eauto. }
    destruct Hone as [(-> & -> & Hn)|[(-> & Hp & Hlt)|[e ->]]].
    + injection Hrun as <- <-. right. simpl. repeat split; lia.
    + destruct (IH sta sig st' Hrun Hsig ltac:(lia))
        as [(-> & Hq & Hle')|(-> & Hq & Hlt')].
      * left. simpl. repeat split; lia.
      * right. simpl. repeat split; lia.
    + injection Hrun as <- <-. now destruct (Hsig e).
  - destruct (IH (emit ev st) sig st' Hrun Hsig Hle) as [H|H]; [left|right];
      exact H.
Qed.

Lemma forKeys_counts_to_limit keys : forall st sig st',
  forKeys s3 config limit_ dry JSON_parse keys st = (sig, st') ->
  (forall e, sig <> Raise e) ->
  processed (counters st) <= n ->
  (processed (counters st')
   = processed (counters st) + length (recordsOfKeys JSON_parse s3 keys) /\
   processed (counters st') <= n) \/
  (processed (counters st') = n /\
   n < processed (counters st) + length (recordsOfKeys JSON_parse s3 keys)).
Proof.
  induction keys as [|key rest IH]; intros st sig st' Hrun Hsig Hle; simpl in Hrun.
  - injection Hrun as <- <-. left. simpl. split; lia.
  - unfold recordsOfKeys. simpl. rewrite length_app.
    fold (recordsOfKeys JSON_parse s3 rest).
    unfold readJsonlFromS3 in Hrun.
    destruct (s3_lines s3 key) as [lines|e]; simpl in Hrun;
      [|injection Hrun as <- <-; now destruct (Hsig e)].
    destruct (forRecords s3 config limit_ dry key _ _) as [s sta] eqn:Hrec.
    assert (Hs : forall e, s <> Raise e).
    { intros e ->. injection Hrun as <- <-. now destruct (Hsig e). }
    destruct (forRecords_counts_to_limit key _ _ _ _ Hrec Hs Hle)
      as [(-> & Hq & Hle')|(-> & Hq & Hlt')];
      rewrite yielded_readLines in *; simpl in *.
    + destruct (IH sta sig st' Hrun Hsig Hle') as [[Hr Hr']|[Hr Hr']];
        [left | right]; split; lia.
    + injection Hrun as <- <-. right. split; lia.
Qed.

End ExactLimit.

(** X20.  The limit is met exactly.  In a run that resolves under a limit
    that is a whole number [n], [processed] is the smaller of [n] and the
    number of records of the listed files: the run stops at the limit when
    there are more records, and counts them all when there are not. *)
Theorem limit_is_exact :
  forall (JSON_parse : string -> Exc JsonValue) (s3 : S3Client)
         (config : AppConfig) (n : nat) (dryOpt : option bool)
         (objects0 : gmap string string) (keys : list string) (c : Counters),
    listJsonlKeys s3 (detailsPrefix config) = Ok keys ->
    fst (processMessages JSON_parse s3 config
           (mkOptions (Some (Finite (inject_Z (Z.of_nat n)))) dryOpt) objects0)
    = Ok c ->
    processed c = Nat.min n (length (recordsOfKeys JSON_parse s3 keys)).
Proof.
  intros JSON_parse s3 config n dryOpt objects0 keys c Hkeys.
  unfold processMessages. rewrite Hkeys. simpl.
  destruct (forKeys s3 config _ _ JSON_parse keys _) as [s st'] eqn:Hrun.
  intros Hok.
  assert (Hsig : forall e, s <> Raise e) by (intros e ->; discriminate Hok).
  assert (Hc : c = counters st') by (destruct s; simpl in Hok; congruence).
  subst c.
  destruct (forKeys_counts_to_limit JSON_parse s3 config n _ keys _ _ _ Hrun Hsig)
    as [[Hp Hle]|[Hp Hlt]]; simpl in *; lia.
Qed.

(** Three records, the first behind a byte order mark, among a line
    holding a no-break space and a line that is not JSON; the limit is 2. *)
Lemma limit_is_exact_witness :
  processed (mkCounters 2 2 0 0)
  = Nat.min 2 (length (recordsOfKeys Sample.parse
                         (Sample.s3 [utf8Of 65279 +:+ "{m1}"; utf8Of 160;
                                     "{m2}"; "oops"; "{m3}"])
                         [Sample.file])).
Proof.
  refine (limit_is_exact Sample.parse
            (Sample.s3 [utf8Of 65279 +:+ "{m1}"; utf8Of 160;
                        "{m2}"; "oops"; "{m3}"])
            Sample.cfg 2 None ∅ [Sample.file] (mkCounters 2 2 0 0) eq_refl _).
  vm_compute. reflexivity.
Defined.

(** * Extraction, end to end *)

(** X21.  HTML is preferred end to end.  For a message whose unwrapped
    object has an id and a payload that is not itself a leaf match, as soon
    as one direct part is text/html with body data, extraction succeeds
    with body kind text/html, the body being the decoding of the data of
    the first such part; the id is that of the unwrapped object, the header
    fields are looked up in its payload, and the snippet is that of the
    outer record. *)
Theorem extractEmail_prefers_html :
  forall (msg : GmailMessage) (id : string) (part h : GmailPart),
    Js.truthy (m_id (coreOf msg)) = Some id ->
    m_payload (coreOf msg) = Some part ->
    leafMatch part = None ->
    In h (children part) ->
    childIs "text/html" h = true ->
    exists first d email,
      List.find (childIs "text/html") (children part) = Some first /\
      bodyData first = Some d /\
      extractEmail msg = Ok email /\
      bodyMime email = TextHtml /\
      body email = base64UrlDecode d /\
      messageId email = id /\
      subject email = findHeader (Some (default [] (p_headers part))) "Subject" /\
      snippet email = m_snippet msg.
Proof.
  intros msg id part h Hid Hpl Hleaf Hin Hh.
  destruct (find_first_exists _ _ _ Hin Hh) as [first Hfirst].
  destruct (findChild_found _ _ _ Hfirst) as (d & Hd & Hfound).
  exists first, d. unfold extractEmail. rewrite Hid, Hpl. simpl.
  rewrite findPartIn_unfold, Hleaf, Hfound. simpl.
  eexists. repeat split; trivial.
Qed.

Lemma extractEmail_prefers_html_witness :
  exists first d email,
    List.find (childIs "text/html") (children Sample.htmlAfterPlain) = Some first /\
    bodyData first = Some d /\
    extractEmail (mkMessage (Some "m9") None None None
                    (Some Sample.htmlAfterPlain) (Some "hi") None None)
    = Ok email /\
    bodyMime email = TextHtml.
Proof.
  destruct (extractEmail_prefers_html
              (mkMessage (Some "m9") None None None
                 (Some Sample.htmlAfterPlain) (Some "hi") None None)
              "m9" Sample.htmlAfterPlain
              (Sample.textPart "TEXT/HTML" "PGI-aGk8L2I-")
              eq_refl eq_refl eq_refl (or_intror (or_introl eq_refl)) eq_refl)
    as (first & d & email & H1 & H2 & H3 & H4 & _).
  exists first, d, email. auto.
Defined.
